(** * Growth calculator: funnel projection engine and subscribe relay

    A shallow embedding of the two observed versions of [computeProjection]
    (the calculator page) and of the [POST] handler of the subscribe route.

    ECMAScript numbers are IEEE 754 binary64 values.  They are modelled by
    Rocq's primitive [float], whose operations are specified by [SpecFloat]
    at precision 53 and maximal exponent 1024; [Math.ceil], [Math.round] and
    [Math.max] are written on top of that specification, following the
    ECMAScript definition of each function. *)

From Stdlib Require Import NArith Ascii DecimalString.
From Stdlib Require Import ZArith Bool Lia List String Floats.
Import ListNotations.

(* A decimal literal denotes the nearest binary64 value, as it does in
   ECMAScript source text. *)
Set Warnings "-inexact-float".

(** ** ECMAScript numbers *)

Module JS.

Definition number : Set := float.

Definition Infinity : number := infinity.
Definition NaN : number := nan.

(** [x > y] on numbers: false as soon as one side is NaN. *)
Definition gt (x y : number) : bool := (y <? x)%float.

(** [Number.isFinite]. *)
Definition Number_isFinite (x : number) : bool := is_finite x.

(** The number whose value is the integer [n]; [szero] is the sign given
    to a zero result. *)
Definition of_Z (n : Z) (szero : bool) : number :=
  SF2Prim (binary_normalize prec emax n 0 szero).

(** The signed integer mantissa of a finite number. *)
Definition signed (s : bool) (m : positive) : Z := cond_Zopp s (Zpos m).

(** [Math.ceil]: non-finite numbers and zeros are returned as they are, a
    number in (-1, 0) gives -0, and otherwise the result is the smallest
    integral number not below [x]. *)
Definition Math_ceil (x : number) : number :=
  match Prim2SF x with
  | S754_finite s m e =>
      if (0 <=? e)%Z then x
      else of_Z (- ((- signed s m) / 2 ^ (- e)))%Z s
  | _ => x
  end.

(** [Math.round]: the integral number closest to [x], ties going towards
    +Infinity; a number in (0, 0.5) gives +0 and one in [-0.5, 0) gives
    -0. *)
Definition Math_round (x : number) : number :=
  match Prim2SF x with
  | S754_finite s m e =>
      if (0 <=? e)%Z then x
      else of_Z ((2 * signed s m + 2 ^ (- e)) / (2 * 2 ^ (- e)))%Z s
  | _ => x
  end.

(** One iteration of the loop of [Math.max] over its coerced arguments:
    +0 replaces a highest of -0, a greater number replaces the highest. *)
Definition max_step (highest n : number) : number :=
  match Prim2SF n, Prim2SF highest with
  | S754_zero false, S754_zero true => n
  | _, _ => if gt n highest then n else highest
  end.

(** [Math.max]: NaN if any argument is NaN, otherwise the loop started
    from -Infinity. *)
Definition Math_max (args : list number) : number :=
  if existsb is_nan args then NaN
  else fold_left max_step args neg_infinity.

(** One iteration of the loop of [Math.min] over its coerced arguments:
    -0 replaces a lowest of +0, a smaller number replaces the lowest. *)
Definition min_step (lowest n : number) : number :=
  match Prim2SF n, Prim2SF lowest with
  | S754_zero true, S754_zero false => n
  | _, _ => if (n <? lowest)%float then n else lowest
  end.

(** [Math.min]: NaN if any argument is NaN, otherwise the loop started
    from +Infinity. *)
Definition Math_min (args : list number) : number :=
  if existsb is_nan args then NaN
  else fold_left min_step args infinity.

End JS.

Import JS.

(** ** Canonical binary64 forms used to state facts about numbers *)

(** The finite number of sign [s] whose magnitude is the integer [p],
    for [p] of at most 53 bits: the mantissa is shifted up to 53 bits. *)
Definition SFint_pos (s : bool) (p : positive) : spec_float :=
  let e := (Zpos (digits2_pos p) - 53)%Z in
  S754_finite s (fst (shl_align p 0 e)) e.

(** The number whose value is the integer [n]; a zero takes sign [szero]. *)
Definition SFint (n : Z) (szero : bool) : spec_float :=
  match n with
  | Z0 => S754_zero szero
  | Zpos p => SFint_pos false p
  | Zneg p => SFint_pos true p
  end.

(** By how many bits rounding shifts the mantissa [m] at exponent [e] to
    bring it to at most 53 bits without going below the least exponent. *)
Definition shift_amount (m e : Z) : Z :=
  Z.max 0 (fexp prec emax (Zdigits2 m + e) - e).

(** What [binary_round_aux] makes of a final mantissa and exponent. *)
Definition pack (sx : bool) (m e : Z) : spec_float :=
  match m with
  | Z0 => S754_zero sx
  | Zpos p => if (e <=? emax - prec)%Z then S754_finite sx p e
              else S754_infinity sx
  | Zneg _ => S754_nan
  end.

(** The value of the number is an integer. *)
Definition integral (x : number) : bool :=
  match Prim2SF x with
  | S754_zero _ => true
  | S754_finite _ m e => (0 <=? e)%Z || (Zpos m mod 2 ^ (- e) =? 0)%Z
  | _ => false
  end.

Local Open Scope float_scope.

(** ** The calculator page *)

Record CalculatorState : Set := {
  targetMonthlyRevenue : number;
  pricePerClient : number;
  videosPerMonth : number;
  avgViewsPerVideo : number;
  viewToBookingRatePct : number;
  showRatePct : number;
  closeRatePct : number
}.

Record Projection : Set := {
  clientsNeeded : number;
  monthlyReach : number;
  bookingsPerMonth : number;
  showsPerMonth : number;
  newClientsPerMonth : number;
  newMRR : number;
  monthsToGoal : number
}.

(** The version of the page that aligns New MRR with the rounded client
    count. *)
Module Aligned.

Definition computeProjection (s : CalculatorState) : Projection :=
  let viewToBookingRate := s.(viewToBookingRatePct) / 100 in
  let showRate := s.(showRatePct) / 100 in
  let closeRate := s.(closeRatePct) / 100 in
  let clientsNeeded :=
    Math_ceil (s.(targetMonthlyRevenue) / Math_max [1; s.(pricePerClient)]) in
  let monthlyReach := s.(videosPerMonth) * s.(avgViewsPerVideo) in
  let bookingsPerMonth := monthlyReach * viewToBookingRate in
  let showsPerMonth := bookingsPerMonth * showRate in
  let newClientsPerMonth := showsPerMonth * closeRate in
  let newClientsRounded := Math_round newClientsPerMonth in
  let newMRR := newClientsRounded * s.(pricePerClient) in
  let monthsToGoal :=
    if gt newClientsPerMonth 0
    then Math_ceil (clientsNeeded / newClientsPerMonth)
    else Infinity in
  {| clientsNeeded := clientsNeeded;
     monthlyReach := monthlyReach;
     bookingsPerMonth := bookingsPerMonth;
     showsPerMonth := showsPerMonth;
     newClientsPerMonth := newClientsPerMonth;
     newMRR := newMRR;
     monthsToGoal := monthsToGoal |}.

End Aligned.

(** The version of the page that multiplies the unrounded client count. *)
Module Unrounded.

Definition computeProjection (s : CalculatorState) : Projection :=
  let viewToBookingRate := s.(viewToBookingRatePct) / 100 in
  let showRate := s.(showRatePct) / 100 in
  let closeRate := s.(closeRatePct) / 100 in
  let clientsNeeded :=
    Math_ceil (s.(targetMonthlyRevenue) / Math_max [1; s.(pricePerClient)]) in
  let monthlyReach := s.(videosPerMonth) * s.(avgViewsPerVideo) in
  let bookingsPerMonth := monthlyReach * viewToBookingRate in
  let showsPerMonth := bookingsPerMonth * showRate in
  let newClientsPerMonth := showsPerMonth * closeRate in
  let newMRR := newClientsPerMonth * s.(pricePerClient) in
  let monthsToGoal :=
    if gt newClientsPerMonth 0
    then Math_ceil (clientsNeeded / newClientsPerMonth)
    else Infinity in
  {| clientsNeeded := clientsNeeded;
     monthlyReach := monthlyReach;
     bookingsPerMonth := bookingsPerMonth;
     showsPerMonth := showsPerMonth;
     newClientsPerMonth := newClientsPerMonth;
     newMRR := newMRR;
     monthsToGoal := monthsToGoal |}.

End Unrounded.

(** ** Reading the inputs from the address *)

Section Query.

Local Open Scope string_scope.

(** [Number(raw)]: the number a string denotes, NaN when it denotes none. *)
Variable ToNumber : string -> number.

Definition URLSearchParams : Set := list (string * string).

(** [query.get(key)]: the first value of the key, [None] when there is
    none. *)
Fixpoint URLSearchParams_get (query : URLSearchParams) (key : string)
    : option string :=
  match query with
  | [] => None
  | (k, v) :: rest =>
      if String.eqb k key then Some v else URLSearchParams_get rest key
  end.

Definition numberFromQuery (query : URLSearchParams) (key : string)
    (fallback : number) : number :=
  match URLSearchParams_get query key with
  | None | Some EmptyString => fallback
  | Some raw =>
      let n := ToNumber raw in
      if Number_isFinite n then n else fallback
  end.

(** The state each version of the page starts from. *)
Definition initialState_aligned (q : URLSearchParams) : CalculatorState :=
  {| targetMonthlyRevenue := numberFromQuery q "targetMonthlyRevenue" 50000%float;
     pricePerClient := numberFromQuery q "pricePerClient" 500%float;
     videosPerMonth := numberFromQuery q "videosPerMonth" 12%float;
     avgViewsPerVideo := numberFromQuery q "avgViewsPerVideo" 1000%float;
     viewToBookingRatePct := numberFromQuery q "viewToBookingRatePct" 0.8%float;
     showRatePct := numberFromQuery q "showRatePct" 60%float;
     closeRatePct := numberFromQuery q "closeRatePct" 40%float |}.

Definition initialState_unrounded (q : URLSearchParams) : CalculatorState :=
  {| targetMonthlyRevenue := numberFromQuery q "targetMonthlyRevenue" 50000%float;
     pricePerClient := numberFromQuery q "pricePerClient" 2000%float;
     videosPerMonth := numberFromQuery q "videosPerMonth" 12%float;
     avgViewsPerVideo := numberFromQuery q "avgViewsPerVideo" 1500%float;
     viewToBookingRatePct := numberFromQuery q "viewToBookingRatePct" 2%float;
     showRatePct := numberFromQuery q "showRatePct" 70%float;
     closeRatePct := numberFromQuery q "closeRatePct" 25%float |}.

End Query.

(** The state a page starts from when the query string is empty. *)
Definition defaults_aligned : CalculatorState :=
  {| targetMonthlyRevenue := 50000; pricePerClient := 500;
     videosPerMonth := 12; avgViewsPerVideo := 1000;
     viewToBookingRatePct := 0.8; showRatePct := 60; closeRatePct := 40 |}.

Definition defaults_unrounded : CalculatorState :=
  {| targetMonthlyRevenue := 50000; pricePerClient := 2000;
     videosPerMonth := 12; avgViewsPerVideo := 1500;
     viewToBookingRatePct := 2; showRatePct := 70; closeRatePct := 25 |}.

(** Every field passes [Number.isFinite], which is what [numberFromQuery]
    establishes for the initial state. *)
Definition finite_state (s : CalculatorState) : bool :=
  Number_isFinite s.(targetMonthlyRevenue) &&
  Number_isFinite s.(pricePerClient) &&
  Number_isFinite s.(videosPerMonth) &&
  Number_isFinite s.(avgViewsPerVideo) &&
  Number_isFinite s.(viewToBookingRatePct) &&
  Number_isFinite s.(showRatePct) &&
  Number_isFinite s.(closeRatePct).

(** ** Numbers as text: [Number(string)] and [String(number)] *)

Module Text.

Local Open Scope string_scope.

(** The string made of the given bytes. *)
Definition bytes (l : list N) : string :=
  string_of_list_ascii (map ascii_of_N l).

(** What is left of [s] after the prefix [p], if [s] starts with it. *)
Fixpoint strip_prefix (p s : string) : option string :=
  match p, s with
  | EmptyString, _ => Some s
  | String a p', String b s' =>
      if Ascii.eqb a b then strip_prefix p' s' else None
  | String _ _, EmptyString => None
  end.

(** StrWhiteSpaceChar: the white space and line terminator code points,
    in UTF-8. *)
Definition StrWhiteSpaceChar : list string :=
  map bytes
    [[9]; [10]; [11]; [12]; [13]; [32]; [194; 160]; [225; 154; 128];
     [226; 128; 128]; [226; 128; 129]; [226; 128; 130]; [226; 128; 131];
     [226; 128; 132]; [226; 128; 133]; [226; 128; 134]; [226; 128; 135];
     [226; 128; 136]; [226; 128; 137]; [226; 128; 138]; [226; 128; 168];
     [226; 128; 169]; [226; 128; 175]; [226; 129; 159]; [227; 128; 128];
     [239; 187; 191]]%N.

(** The bytes of [s] from the last to the first. *)
Definition reverse (s : string) : string :=
  string_of_list_ascii (rev (list_ascii_of_string s)).

(** What follows one of the given prefixes, for the first that fits. *)
Fixpoint strip_one (prefixes : list string) (s : string) : option string :=
  match prefixes with
  | [] => None
  | p :: others =>
      match strip_prefix p s with
      | Some rest => Some rest
      | None => strip_one others s
      end
  end.

(** Drops prefixes as long as one fits; every step shortens the string,
    so a fuel of its length is enough. *)
Fixpoint strip_all (fuel : nat) (prefixes : list string) (s : string) : string :=
  match fuel with
  | O => s
  | S fuel' =>
      match strip_one prefixes s with
      | Some rest => strip_all fuel' prefixes rest
      | None => s
      end
  end.

(** The string without the white space at its two ends. *)
Definition trim (s : string) : string :=
  let s1 := strip_all (String.length s) StrWhiteSpaceChar s in
  reverse (strip_all (String.length s1) (map reverse StrWhiteSpaceChar)
                     (reverse s1)).

(** The value of a digit of the radix, letters of either case standing
    for ten and more. *)
Definition digit_value (radix : N) (c : ascii) : option N :=
  let n := N_of_ascii c in
  let d := if ((48 <=? n) && (n <=? 57))%N then Some (n - 48)%N
           else if ((65 <=? n) && (n <=? 90))%N then Some (n - 55)%N
           else if ((97 <=? n) && (n <=? 122))%N then Some (n - 87)%N
           else None in
  match d with
  | Some v => if (v <? radix)%N then Some v else None
  | None => None
  end.

(** Reads the longest run of digits at the start of [s], continuing the
    value [acc]: the value, the number of digits read and what follows. *)
Fixpoint take_digits (radix : N) (s : string) (acc count : N)
    : N * N * string :=
  match s with
  | EmptyString => (acc, count, s)
  | String c rest =>
      match digit_value radix c with
      | Some d => take_digits radix rest (radix * acc + d)%N (count + 1)%N
      | None => (acc, count, s)
      end
  end.

(** The number nearest to [M * 10^E], ties going to the even mantissa; a
    zero takes the sign [sign]. *)
Definition round_decimal (sign : bool) (M : N) (E : Z) : spec_float :=
  match M with
  | N0 => S754_zero sign
  | Npos m =>
      if (0 <=? E)%Z
      then binary_normalize prec emax (cond_Zopp sign (Zpos m * 10 ^ E)) 0 sign
      else SFdiv prec emax (S754_finite sign m 0)
                 (S754_finite false (Z.to_pos (10 ^ (- E))) 0)
  end.

(** StrUnsignedDecimalLiteral other than Infinity: digits with an optional
    fraction and exponent, as a mantissa and a power of ten. *)
Definition StrUnsignedDecimalLiteral (s : string) : option (N * Z) :=
  let '(i, ni, r1) := take_digits 10 s 0 0 in
  let '(M, nf, r2) :=
    match r1 with
    | String "." r => take_digits 10 r i 0
    | _ => (i, 0%N, r1)
    end in
  if (ni + nf =? 0)%N then None
  else
    match r2 with
    | EmptyString => Some (M, (- Z.of_N nf)%Z)
    | String c r3 =>
        if Ascii.eqb c "e" || Ascii.eqb c "E" then
          let '(negative, r4) :=
            match r3 with
            | String "+" r => (false, r)
            | String "-" r => (true, r)
            | _ => (false, r3)
            end in
          let '(x, nx, r5) := take_digits 10 r4 0 0 in
          match r5 with
          | EmptyString =>
              if (nx =? 0)%N then None
              else Some (M, (cond_Zopp negative (Z.of_N x) - Z.of_N nf)%Z)
          | _ => None
          end
        else None
    end.

(** StrDecimalLiteral after its sign. *)
Definition unsigned_decimal (sign : bool) (s : string) : number :=
  if String.eqb s "Infinity" then SF2Prim (S754_infinity sign)
  else match StrUnsignedDecimalLiteral s with
       | Some (M, E) => SF2Prim (round_decimal sign M E)
       | None => NaN
       end.

(** NonDecimalIntegerLiteral after its prefix. *)
Definition non_decimal (radix : N) (s : string) : number :=
  match take_digits radix s 0 0 with
  | (v, n, EmptyString) =>
      if (n =? 0)%N then NaN else SF2Prim (round_decimal false v 0)
  | _ => NaN
  end.

(** StringToNumber, which is [Number(raw)] on a string: white space at the
    ends is dropped, the empty string is +0, and text that is not a
    StrNumericLiteral is NaN.  The value of a decimal literal is rounded
    to the nearest number whatever its length, as the engines do; the
    standard also lets an implementation drop what follows the twentieth
    significant digit. *)
Definition StringToNumber (raw : string) : number :=
  match trim raw with
  | EmptyString => 0%float
  | String "0" (String c rest) as s =>
      if Ascii.eqb c "x" || Ascii.eqb c "X" then non_decimal 16 rest
      else if Ascii.eqb c "o" || Ascii.eqb c "O" then non_decimal 8 rest
      else if Ascii.eqb c "b" || Ascii.eqb c "B" then non_decimal 2 rest
      else unsigned_decimal false s
  | String "+" rest => unsigned_decimal false rest
  | String "-" rest => unsigned_decimal true rest
  | s => unsigned_decimal false s
  end.

(** *** [String(number)] *)

(** The same binary64 datum. *)
Definition SF_eqb (a b : spec_float) : bool :=
  match a, b with
  | S754_zero s, S754_zero s' => Bool.eqb s s'
  | S754_infinity s, S754_infinity s' => Bool.eqb s s'
  | S754_nan, S754_nan => true
  | S754_finite s m e, S754_finite s' m' e' =>
      Bool.eqb s s' && Pos.eqb m m' && Z.eqb e e'
  | _, _ => false
  end.

(** The value [m * 2^e * 10^j] as a fraction. *)
Definition scaled (m : positive) (e j : Z) : Z * Z :=
  ((Zpos m * (if 0 <=? e then 2 ^ e else 1) * (if 0 <=? j then 10 ^ j else 1))%Z,
   ((if 0 <=? e then 1 else 2 ^ (- e)) * (if 0 <=? j then 1 else 10 ^ (- j)))%Z).

(** For a value [N / D] of at least 1: the least [n], from [n] on, with
    [N < P], where [P] is [D * 10^n]. *)
Fixpoint digits_before_point (fuel : nat) (N P n : Z) : Z :=
  match fuel with
  | O => n
  | S fuel' =>
      if (N <? P)%Z then n else digits_before_point fuel' N (10 * P) (n + 1)
  end.

(** For a value [N / D] below 1: the least [n], from [n] down, with
    [N / D < 10^n], where [Q] is [N * 10^(1-n)]. *)
Fixpoint zeros_after_point (fuel : nat) (Q D n : Z) : Z :=
  match fuel with
  | O => n
  | S fuel' =>
      if (Q <? D)%Z then zeros_after_point fuel' (10 * Q) D (n - 1) else n
  end.

(** The least [n] with [m * 2^e < 10^n]. *)
Definition decimal_exponent (m : positive) (e : Z) : Z :=
  let (N, D) := scaled m e 0 in
  if (N <? D)%Z then zeros_after_point 400 (10 * N) D 0
  else digits_before_point 400 N (10 * D) 1.

(** The digits [s], their number [k] and the exponent [n] of
    Number::toString for the positive finite number [m * 2^e]: the least
    [k], from [k] on, for which some [s] of [k] digits has [s * 10^(n-k)]
    round to the number, and for that [k] the [s] nearest to it, which is
    the choice that the standard recommends and the engines make.  The two
    candidates for [s] are the integers around [m * 2^e * 10^(k-n0)],
    where [n0] is the decimal exponent of the number; seventeen digits
    always denote the number, so the fuel is not used up. *)
Fixpoint shortest_digits (fuel : nat) (m : positive) (e n0 k : Z) : Z * Z * Z :=
  let (num, den) := scaled m e (k - n0) in
  let lo := (num / den)%Z in
  let hi := (lo + 1)%Z in
  let denotes s := SF_eqb (round_decimal false (Z.to_N s) (n0 - k))
                          (S754_finite false m e) in
  let carried := (hi =? 10 ^ k)%Z in
  let upper := if carried then (10 ^ (k - 1), k, n0 + 1)%Z else (hi, k, n0) in
  match fuel with
  | O => (lo, k, n0)
  | S fuel' =>
      if denotes lo then
        if denotes hi && (den <? 2 * (num - lo * den))%Z then upper
        else (lo, k, n0)
      else if denotes hi then upper
      else shortest_digits fuel' m e n0 (k + 1)
  end.

(** The decimal digits of a natural number. *)
Definition decimal_digits (n : Z) : string :=
  NilZero.string_of_uint (N.to_uint (Z.to_N n)).

(** [n] times the digit 0. *)
Fixpoint zeros (n : nat) : string :=
  match n with
  | O => EmptyString
  | S n' => String "0" (zeros n')
  end.

(** The text of the positive finite number [m * 2^e]: digits alone, with
    a point, after "0." or with an exponent, by where the point falls. *)
Definition positive_toString (m : positive) (e : Z) : string :=
  let n0 := decimal_exponent m e in
  let '(s, k, n) := shortest_digits 17 m e n0 1 in
  let digits := decimal_digits s in
  if ((k <=? n) && (n <=? 21))%Z then
    digits ++ zeros (Z.to_nat (n - k))
  else if ((0 <? n) && (n <=? 21))%Z then
    substring 0 (Z.to_nat n) digits ++ "." ++
    substring (Z.to_nat n) (Z.to_nat (k - n)) digits
  else if ((-6 <? n) && (n <=? 0))%Z then
    "0." ++ zeros (Z.to_nat (- n)) ++ digits
  else
    let exponent := (if (0 <=? n - 1)%Z then "+" else "-")
                    ++ decimal_digits (Z.abs (n - 1)) in
    if (k =? 1)%Z then digits ++ "e" ++ exponent
    else substring 0 1 digits ++ "." ++
         substring 1 (Z.to_nat (k - 1)) digits ++ "e" ++ exponent.

(** Number::toString in radix 10, which is [String(v)] on a number. *)
Definition Number_toString (x : number) : string :=
  match Prim2SF x with
  | S754_nan => "NaN"
  | S754_zero _ => "0"
  | S754_infinity false => "Infinity"
  | S754_infinity true => "-Infinity"
  | S754_finite false m e => positive_toString m e
  | S754_finite true m e => "-" ++ positive_toString m e
  end.

End Text.

Import Text.

(** ** The subscribe route *)

Module Route.

Local Open Scope string_scope.

(** Values produced by [JSON.parse]. *)
#[warnings="-register-all"]
Inductive json : Set :=
| JNull
| JBool (b : bool)
| JNumber (n : number)
| JString (s : string)
| JArray (items : list json)
| JObject (fields : list (string * json)).

(** A value that may be [undefined]. *)
Definition value : Set := option json.

(** Property lookup in a parsed object: the last binding of a key wins. *)
Fixpoint lookup (k : string) (fields : list (string * json)) : value :=
  match fields with
  | [] => None
  | (k', v) :: rest =>
      match lookup k rest with
      | Some w => Some w
      | None => if String.eqb k k' then Some v else None
      end
  end.

(** Reading property [k] while destructuring [v]: null has no properties
    and the read throws ([None]); numbers, booleans, strings and arrays
    have none of the two properties the handler reads. *)
Definition get (v : json) (k : string) : option value :=
  match v with
  | JNull => None
  | JObject fields => Some (lookup k fields)
  | _ => Some None
  end.

Definition truthy (v : value) : bool :=
  match v with
  | None => false
  | Some JNull => false
  | Some (JBool b) => b
  | Some (JNumber n) => negb (is_zero n || is_nan n)
  | Some (JString s) => negb (String.eqb s EmptyString)
  | Some (JArray _) => true
  | Some (JObject _) => true
  end.

Definition typeof (v : value) : string :=
  match v with
  | None => "undefined"
  | Some JNull => "object"
  | Some (JBool _) => "boolean"
  | Some (JNumber _) => "number"
  | Some (JString _) => "string"
  | Some (JArray _) => "object"
  | Some (JObject _) => "object"
  end.

(** [payload ?? null]. *)
Definition nullish_or_null (v : value) : json :=
  match v with
  | None => JNull
  | Some w => w
  end.

(** *** [JSON.stringify]

    A string holds the UTF-8 bytes of its text.  A surrogate code unit that
    stands alone, which [JSON.parse] can produce from an escape and which
    has no UTF-8 form, is held as the three bytes of the generalised form:
    237, then a byte from 160 to 191, then a byte from 128 to 191. *)

Definition quotation_mark : string := String "034"%char EmptyString.

Definition reverse_solidus : string := String "092"%char EmptyString.

Definition lower_hex_digit (n : N) : ascii :=
  ascii_of_N (if (n <? 10)%N then 48 + n else 87 + n)%N.

(** UnicodeEscape: the reverse solidus, [u] and the four lower-case
    hexadecimal digits of the code unit. *)
Definition UnicodeEscape (n : N) : string :=
  reverse_solidus ++ "u" ++
  String (lower_hex_digit (n / 4096 mod 16))
    (String (lower_hex_digit (n / 256 mod 16))
       (String (lower_hex_digit (n / 16 mod 16))
          (String (lower_hex_digit (n mod 16)) EmptyString))).

(** What QuoteJSONString writes for one byte: the short escapes of
    backspace, tab, line feed, form feed, carriage return, the quotation
    mark and the reverse solidus; a UnicodeEscape for the other bytes below
    32; every other byte as it is. *)
Definition quoted_byte (c : ascii) : string :=
  let n := N_of_ascii c in
  if (n =? 8)%N then reverse_solidus ++ "b"
  else if (n =? 9)%N then reverse_solidus ++ "t"
  else if (n =? 10)%N then reverse_solidus ++ "n"
  else if (n =? 12)%N then reverse_solidus ++ "f"
  else if (n =? 13)%N then reverse_solidus ++ "r"
  else if (n =? 34)%N then reverse_solidus ++ quotation_mark
  else if (n =? 92)%N then reverse_solidus ++ reverse_solidus
  else if (n <? 32)%N then UnicodeEscape n
  else String c EmptyString.

(** The three bytes are those of a surrogate that stands alone. *)
Definition lone_surrogate (c c1 c2 : ascii) : bool :=
  ((N_of_ascii c =? 237) && (160 <=? N_of_ascii c1) && (N_of_ascii c1 <=? 191)
   && (128 <=? N_of_ascii c2) && (N_of_ascii c2 <=? 191))%N.

(** The code unit that the three bytes of a surrogate hold. *)
Definition surrogate_unit (c1 c2 : ascii) : N :=
  (53248 + (N_of_ascii c1 - 128) * 64 + (N_of_ascii c2 - 128))%N.

(** The text of QuoteJSONString between its quotation marks: a surrogate
    that stands alone is written as a UnicodeEscape. *)
Fixpoint quoted_text (s : string) : string :=
  match s with
  | EmptyString => EmptyString
  | String c rest =>
      match rest with
      | String c1 (String c2 rest') =>
          if lone_surrogate c c1 c2
          then UnicodeEscape (surrogate_unit c1 c2) ++ quoted_text rest'
          else quoted_byte c ++ quoted_text rest
      | _ => quoted_byte c ++ quoted_text rest
      end
  end.

Definition QuoteJSONString (s : string) : string :=
  quotation_mark ++ quoted_text s ++ quotation_mark.

(** CreateDataProperty: a key that the object has keeps its place and
    takes the new value; a new key comes last. *)
Fixpoint CreateDataProperty {A : Type} (props : list (string * A))
    (k : string) (v : A) : list (string * A) :=
  match props with
  | [] => [(k, v)]
  | (k', v') :: rest =>
      if String.eqb k k' then (k', v) :: rest
      else (k', v') :: CreateDataProperty rest k v
  end.

(** The properties of the object that defining [fields] one after the
    other creates, in the order of creation. *)
Definition created {A : Type} (fields : list (string * A)) : list (string * A) :=
  fold_left (fun props kv => CreateDataProperty props (fst kv) (snd kv)) fields [].

(** The array index that a key is, if it is one: the decimal digits,
    without a leading zero, of an integer below 2^32 - 1. *)
Definition array_index (k : string) : option N :=
  match k with
  | EmptyString => None
  | String "0" EmptyString => Some 0%N
  | String "0" _ => None
  | _ =>
      match take_digits 10 k 0 0 with
      | (i, _, EmptyString) => if (i <? 4294967295)%N then Some i else None
      | _ => None
      end
  end.

Fixpoint insert_by_index {A : Type} (i : N) (p : A) (sorted : list (N * A))
    : list (N * A) :=
  match sorted with
  | [] => [(i, p)]
  | (j, q) :: rest =>
      if (i <? j)%N then (i, p) :: sorted
      else (j, q) :: insert_by_index i p rest
  end.

(** The properties whose key is an array index, by ascending index. *)
Definition indexed_properties {A : Type} (props : list (string * A))
    : list (string * A) :=
  map snd
    (fold_left (fun sorted p =>
                  match array_index (fst p) with
                  | Some i => insert_by_index i p sorted
                  | None => sorted
                  end) props []).

(** The properties in the order of OrdinaryOwnPropertyKeys: the array
    indices by ascending value, then the other keys in the order of
    creation. *)
Definition own_properties {A : Type} (fields : list (string * A))
    : list (string * A) :=
  let props := created fields in
  indexed_properties props ++
  filter (fun p => match array_index (fst p) with
                   | Some _ => false
                   | None => true
                   end) props.

(** The texts with a comma between one and the next. *)
Definition comma_separated (texts : list string) : string :=
  String.concat "," texts.

(** SerializeJSONProperty without indentation, on the values that
    [JSON.parse] and the object literal of the handler produce: a number
    that is not finite is written null, a finite one as [String] writes it
    (so -0 is written 0); the values of the members are serialised before
    the properties are put in order, which selects among the same texts. *)
Fixpoint SerializeJSONProperty (v : json) : string :=
  match v with
  | JNull => "null"
  | JBool true => "true"
  | JBool false => "false"
  | JNumber n => if Number_isFinite n then Number_toString n else "null"
  | JString s => QuoteJSONString s
  | JArray items =>
      "[" ++ comma_separated (map SerializeJSONProperty items) ++ "]"
  | JObject fields =>
      "{" ++ comma_separated
               (map (fun p => QuoteJSONString (fst p) ++ ":" ++ snd p)
                    (own_properties
                       (map (fun kv => let '(k, w) := kv in
                                       (k, SerializeJSONProperty w))
                            fields)))
          ++ "}"
  end.

(** [JSON.stringify(v)]. *)
Definition JSON_stringify (v : json) : string := SerializeJSONProperty v.

Record FetchCall : Set := {
  fetch_url : string;
  fetch_method : string;
  fetch_headers : list (string * string);
  fetch_body : string
}.

Record Response : Set := {
  status : Z;
  body : json
}.

(** What the handler sees of the outside: the parsed request body ([None]
    when [req.json()] rejects), the environment variable, and whether the
    promise of a given [fetch] call resolves. *)
Record World : Type := {
  request_json : option json;
  SUBSCRIBE_WEBHOOK_URL : option string;
  fetch_resolves : FetchCall -> bool
}.

(** Computations that may throw and that record the [fetch] calls made. *)
Inductive outcome (A : Type) : Type :=
| Returned (a : A)
| Thrown.
Arguments Returned {A} a.
Arguments Thrown {A}.

Definition M (A : Type) : Type := list FetchCall -> outcome A * list FetchCall.

Definition ret {A} (a : A) : M A := fun log => (Returned a, log).

Definition throw {A} : M A := fun log => (Thrown, log).

Definition bind {A B} (c : M A) (k : A -> M B) : M B :=
  fun log =>
    match c log with
    | (Returned a, log') => k a log'
    | (Thrown, log') => (Thrown, log')
    end.

Definition try_catch {A} (c : M A) (handler : M A) : M A :=
  fun log =>
    match c log with
    | (Returned a, log') => (Returned a, log')
    | (Thrown, log') => handler log'
    end.

Definition of_option {A} (o : option A) : M A :=
  match o with
  | Some a => ret a
  | None => throw
  end.

Notation "x <- c ;; k" := (bind c (fun x => k))
  (at level 61, c at next level, right associativity).

(** [await fetch(url, init)]: the call is recorded, and the await throws
    when the promise rejects. *)
Definition fetch (w : World) (call : FetchCall) : M unit :=
  fun log =>
    (if w.(fetch_resolves) call then Returned tt else Thrown, (log ++ [call])%list).

(** [NextResponse.json(body, { status })]; the status defaults to 200. *)
Definition NextResponse_json (b : json) (st : option Z) : Response :=
  {| status := match st with Some n => n | None => 200%Z end; body := b |}.

Definition source_tag : string := "prjct-zenith-calculator".

(** A property of an object literal as [JSON.stringify] keeps it: one
    whose value is [undefined] is left out. *)
Definition property (k : string) (v : value) : list (string * json) :=
  match v with
  | None => []
  | Some w => [(k, w)]
  end.

(** [JSON.stringify({ email, payload: payload ?? null, source: "..." })]. *)
Definition forwarded_body (email payload : value) : string :=
  JSON_stringify
    (JObject (property "email" email ++
              [("payload", nullish_or_null payload);
               ("source", JString source_tag)])%list).

Definition POST (w : World) : M Response :=
  try_catch
    (parsed <- of_option w.(request_json) ;;
     email <- of_option (get parsed "email") ;;
     payload <- of_option (get parsed "payload") ;;
     if negb (truthy email) || negb (String.eqb (typeof email) "string") then
       ret (NextResponse_json
              (JObject [("ok", JBool false); ("error", JString "Invalid email")])
              (Some 400%Z))
     else
       let url := w.(SUBSCRIBE_WEBHOOK_URL) in
       match url with
       | None | Some EmptyString =>
           ret (NextResponse_json
                  (JObject [("ok", JBool false);
                            ("error", JString "Missing SUBSCRIBE_WEBHOOK_URL")])
                  (Some 500%Z))
       | Some u =>
           _ <- fetch w {| fetch_url := u;
                           fetch_method := "POST";
                           fetch_headers := [("Content-Type", "application/json")];
                           fetch_body := forwarded_body email payload |} ;;
           ret (NextResponse_json (JObject [("ok", JBool true)]) None)
       end)
    (ret (NextResponse_json
            (JObject [("ok", JBool false); ("error", JString "Bad request")])
            (Some 400%Z))).

(** Running the handler on a fresh log. *)
Definition handle (w : World) : outcome Response * list FetchCall := POST w [].

(** The [email] property of the request body, when the body parsed to
    something that has it. *)
Definition email_of (w : World) : value :=
  match w.(request_json) with
  | Some (JObject fields) => lookup "email" fields
  | _ => None
  end.

Definition payload_of (w : World) : value :=
  match w.(request_json) with
  | Some (JObject fields) => lookup "payload" fields
  | _ => None
  end.

(** The [email] property is there and is a string. *)
Definition email_is_string (w : World) : bool :=
  match email_of w with
  | Some (JString _) => true
  | _ => false
  end.

(** The [email] property is a string other than the empty one. *)
Definition email_is_nonempty_string (w : World) : bool :=
  match email_of w with
  | Some (JString e) => negb (String.eqb e EmptyString)
  | _ => false
  end.

(** The environment variable is set to something other than the empty
    string. *)
Definition webhook_configured (w : World) : bool :=
  match w.(SUBSCRIBE_WEBHOOK_URL) with
  | None | Some EmptyString => false
  | Some _ => true
  end.

(** The one call that forwards a subscription. *)
Definition forward_call (u e : string) (payload : value) : FetchCall :=
  {| fetch_url := u;
     fetch_method := "POST";
     fetch_headers := [("Content-Type", "application/json")];
     fetch_body :=
       JSON_stringify (JObject [("email", JString e);
                                ("payload", nullish_or_null payload);
                                ("source", JString "prjct-zenith-calculator")]) |}.

Definition ok_response : Response :=
  {| status := 200; body := JObject [("ok", JBool true)] |}.

(** A request whose email is the empty string, no webhook configured. *)
Definition empty_email_unconfigured : World :=
  {| request_json := Some (JObject [("email", JString EmptyString)]);
     SUBSCRIBE_WEBHOOK_URL := None;
     fetch_resolves := fun _ => true |}.

(** The same request with a webhook configured. *)
Definition empty_email_configured : World :=
  {| request_json := Some (JObject [("email", JString EmptyString)]);
     SUBSCRIBE_WEBHOOK_URL := Some "https://hooks.example/subscribe";
     fetch_resolves := fun _ => true |}.

(** A well-formed subscription; [reachable] says whether the webhook call
    completes. *)
Definition subscription (url : option string) (reachable : bool) : World :=
  {| request_json :=
       Some (JObject [("email", JString "ada@example.org");
                      ("payload", JObject [("pricePerClient", JNumber 500)])]);
     SUBSCRIBE_WEBHOOK_URL := url;
     fetch_resolves := fun _ => reachable |}.

(** A subscription whose payload holds a number too large for binary64,
    which [JSON.parse] reads as Infinity, and a negative zero. *)
Definition overflowing_subscription : World :=
  {| request_json :=
       Some (JObject [("email", JString "ada@example.org");
                      ("payload", JObject [("pricePerClient", JNumber infinity);
                                           ("videosPerMonth", JNumber (-0))])]);
     SUBSCRIBE_WEBHOOK_URL := Some "https://hooks.example/subscribe";
     fetch_resolves := fun _ => true |}.

(** The value that the text of [v] denotes: every number that is not
    finite has become null and every zero the zero without a sign. *)
Fixpoint written (v : json) : json :=
  match v with
  | JNumber n =>
      if Number_isFinite n
      then JNumber (if (n =? 0)%float then 0%float else n)
      else JNull
  | JArray items => JArray (map written items)
  | JObject fields =>
      JObject (map (fun kv => let '(k, w) := kv in (k, written w)) fields)
  | _ => v
  end.

(** The text between quotation marks. *)
Definition in_quotes (s : string) : string :=
  quotation_mark ++ s ++ quotation_mark.

(** A request without an email, no webhook configured. *)
Definition missing_email_unconfigured : World :=
  {| request_json := Some (JObject [("payload", JNull)]);
     SUBSCRIBE_WEBHOOK_URL := None;
     fetch_resolves := fun _ => true |}.

End Route.

(** ** The derivation and the inputs the statements below refer to *)

(** [c] is the ceiling of [q]: a number that is not finite, or whose value
    is an integer already, is its own ceiling; otherwise [c] is the number
    whose value is the least integer [n] not below the value of [q], which
    is [signed s m / 2 ^ (- e)]. *)
Definition ceiling_of (q c : number) : Prop :=
  match Prim2SF q with
  | S754_finite s m e =>
      if (0 <=? e)%Z then c = q
      else exists n : Z,
             Prim2SF c = SFint n s /\
             (Z.abs n <= 2 ^ 53 - 1)%Z /\
             ((n - 1) * 2 ^ (- e) < signed s m <= n * 2 ^ (- e))%Z
  | _ => c = q
  end.

(** [r] is [q] rounded to the nearest integer, a tie going up: twice the
    value of [q] lies in [2n - 1, 2n + 1). *)
Definition rounding_of (q r : number) : Prop :=
  match Prim2SF q with
  | S754_finite s m e =>
      if (0 <=? e)%Z then r = q
      else exists n : Z,
             Prim2SF r = SFint n s /\
             (Z.abs n <= 2 ^ 53 - 1)%Z /\
             (2 * n * 2 ^ (- e) - 2 ^ (- e) <= 2 * signed s m
              < 2 * n * 2 ^ (- e) + 2 ^ (- e))%Z
  | _ => r = q
  end.

(** The five derived quantities that both versions compute the same way,
    each from the inputs and the quantity before it. *)
Definition derivation (s : CalculatorState) (p : Projection) : Prop :=
  clientsNeeded p
    = Math_ceil (targetMonthlyRevenue s / Math_max [1; pricePerClient s]) /\
  monthlyReach p = videosPerMonth s * avgViewsPerVideo s /\
  bookingsPerMonth p = monthlyReach p * (viewToBookingRatePct s / 100) /\
  showsPerMonth p = bookingsPerMonth p * (showRatePct s / 100) /\
  newClientsPerMonth p = showsPerMonth p * (closeRatePct s / 100).

(** One of the three conversion percentages is zero. *)
Definition some_rate_zero (s : CalculatorState) : bool :=
  (viewToBookingRatePct s =? 0) || (showRatePct s =? 0) || (closeRatePct s =? 0).

(** The guard and the marker of [monthsToGoal], as both versions have them. *)
Definition months_guarded (p : Projection) : Prop :=
  (gt (newClientsPerMonth p) 0 = true ->
   monthsToGoal p = Math_ceil (clientsNeeded p / newClientsPerMonth p)) /\
  (gt (newClientsPerMonth p) 0 = false -> monthsToGoal p = Infinity).

(** One of the three products before [newClientsPerMonth] is not finite:
    it overflowed, or is NaN. *)
Definition some_product_overflowed (p : Projection) : Prop :=
  Number_isFinite (monthlyReach p) = false \/
  Number_isFinite (bookingsPerMonth p) = false \/
  Number_isFinite (showsPerMonth p) = false.

(** What a zero conversion percentage entails. *)
Definition zero_rate_outcome (s : CalculatorState) (p : Projection) : Prop :=
  monthsToGoal p = Infinity /\
  ((newClientsPerMonth p =? 0) = true \/ is_nan (newClientsPerMonth p) = true) /\
  (finite_state s = true -> Number_isFinite (showsPerMonth p) = true ->
   (newClientsPerMonth p =? 0) = true) /\
  (some_product_overflowed p -> is_nan (newClientsPerMonth p) = true).

(** What a price of at most zero entails for [clientsNeeded]. *)
Definition unit_divisor_outcome (s : CalculatorState) (p : Projection) : Prop :=
  clientsNeeded p = Math_ceil (targetMonthlyRevenue s / 1) /\
  clientsNeeded p = Math_ceil (targetMonthlyRevenue s) /\
  Number_isFinite (clientsNeeded p) = true /\
  integral (clientsNeeded p) = true /\
  gt (clientsNeeded p) 0 = gt (targetMonthlyRevenue s) 0.

(** The guard of [monthsToGoal] is strict positivity. *)
Definition strict_guard (p : Projection) : Prop :=
  ((newClientsPerMonth p <=? 0) = true -> monthsToGoal p = Infinity) /\
  (is_nan (newClientsPerMonth p) = true -> monthsToGoal p = Infinity) /\
  (gt (newClientsPerMonth p) 0 = true ->
   Number_isFinite (newClientsPerMonth p) = true ->
   gt (clientsNeeded p) 0 = true ->
   gt (monthsToGoal p) 0 = true).

(** The default state with another target and price. *)
Definition with_goal (target price : number) : CalculatorState :=
  {| targetMonthlyRevenue := target; pricePerClient := price;
     videosPerMonth := 12; avgViewsPerVideo := 1000;
     viewToBookingRatePct := 0.8; showRatePct := 60; closeRatePct := 40 |}.

(** A reach that overflows, with a zero view-to-booking percentage. *)
Definition overflowing_reach : CalculatorState :=
  {| targetMonthlyRevenue := 50000; pricePerClient := 500;
     videosPerMonth := 1e200; avgViewsPerVideo := 1e200;
     viewToBookingRatePct := 0; showRatePct := 60; closeRatePct := 40 |}.

(** A reach that overflows, with positive percentages. *)
Definition overflowing_pace : CalculatorState :=
  {| targetMonthlyRevenue := 50000; pricePerClient := 500;
     videosPerMonth := 1e200; avgViewsPerVideo := 1e200;
     viewToBookingRatePct := 1; showRatePct := 60; closeRatePct := 40 |}.

(** A huge goal met at a tiny positive pace. *)
Definition overflowing_months : CalculatorState :=
  {| targetMonthlyRevenue := 1e308; pricePerClient := 1;
     videosPerMonth := 1; avgViewsPerVideo := 1;
     viewToBookingRatePct := 1e-300; showRatePct := 100; closeRatePct := 100 |}.

(** One view a month converted at 30 percent: 0.3 new clients a month. *)
Definition slow_pace (target : number) : CalculatorState :=
  {| targetMonthlyRevenue := target; pricePerClient := 500;
     videosPerMonth := 1; avgViewsPerVideo := 1;
     viewToBookingRatePct := 100; showRatePct := 100; closeRatePct := 30 |}.

(** A zero close percentage. *)
Definition never_closing : CalculatorState :=
  {| targetMonthlyRevenue := 50000; pricePerClient := 500;
     videosPerMonth := 12; avgViewsPerVideo := 1000;
     viewToBookingRatePct := 0.8; showRatePct := 60; closeRatePct := 0 |}.

(** A negative close percentage. *)
Definition negative_close : CalculatorState :=
  {| targetMonthlyRevenue := 50000; pricePerClient := 500;
     videosPerMonth := 12; avgViewsPerVideo := 1000;
     viewToBookingRatePct := 0.8; showRatePct := 60; closeRatePct := -40 |}.

(** * The rest of the page and of the route *)

(** ** Signs, whole numbers and the inputs with nothing to show *)

(** The result of an operation that carries the sign [s]: a zero, a finite
    number or an infinity of that sign. *)
Definition has_sign (s : bool) (r : spec_float) : Prop :=
  r = S754_zero s \/ r = S754_infinity s \/ exists p e, r = S754_finite s p e.

(** [x] is not below zero: it is a zero, positive or NaN. *)
Definition not_negative (x : number) : bool := negb (x <? 0).

(** None of the seven inputs, and none of the seven outputs, is below
    zero. *)
Definition no_negative_input (s : CalculatorState) : bool :=
  not_negative s.(targetMonthlyRevenue) &&
  not_negative s.(pricePerClient) &&
  not_negative s.(videosPerMonth) &&
  not_negative s.(avgViewsPerVideo) &&
  not_negative s.(viewToBookingRatePct) &&
  not_negative s.(showRatePct) &&
  not_negative s.(closeRatePct).

Definition no_negative_output (p : Projection) : bool :=
  not_negative p.(clientsNeeded) &&
  not_negative p.(monthlyReach) &&
  not_negative p.(bookingsPerMonth) &&
  not_negative p.(showsPerMonth) &&
  not_negative p.(newClientsPerMonth) &&
  not_negative p.(newMRR) &&
  not_negative p.(monthsToGoal).

(** The value is a whole number, or the number is an infinity. *)
Definition whole_or_infinite (x : number) : Prop :=
  integral x = true \/ x = Infinity \/ x = neg_infinity.

(** No videos are published, or they are not viewed. *)
Definition no_content (s : CalculatorState) : bool :=
  (videosPerMonth s =? 0) || (avgViewsPerVideo s =? 0).

(** Every quantity of the funnel, and the revenue, is a zero. *)
Definition funnel_is_zero (p : Projection) : bool :=
  (monthlyReach p =? 0) && (bookingsPerMonth p =? 0) &&
  (showsPerMonth p =? 0) && (newClientsPerMonth p =? 0) && (newMRR p =? 0).

(** The default inputs of the aligned page without a video. *)
Definition no_videos : CalculatorState :=
  {| targetMonthlyRevenue := 50000; pricePerClient := 500;
     videosPerMonth := 0; avgViewsPerVideo := 1000;
     viewToBookingRatePct := 0.8; showRatePct := 60; closeRatePct := 40 |}.

(** Ten videos with a thousand views each, one view in a hundred booking a
    call, every call held and closed: 100 new clients a month. *)
Definition whole_pace : CalculatorState :=
  {| targetMonthlyRevenue := 50000; pricePerClient := 500;
     videosPerMonth := 10; avgViewsPerVideo := 1000;
     viewToBookingRatePct := 1; showRatePct := 100; closeRatePct := 100 |}.

Section Display.

Local Open Scope string_scope.

(** [new Intl.NumberFormat().format]: how the locale of the visitor writes
    a number. *)
Variable Intl_NumberFormat_format : number -> string.

(** [formatInt]: the rounded number as the locale writes it. *)
Definition formatInt (n : number) : string :=
  Intl_NumberFormat_format (Math_round n).

(** The value of the "Months to Goal" metric. *)
Definition Months_to_Goal (result : Projection) : string :=
  if (monthsToGoal result =? Infinity)%float then "—"
  else formatInt (monthsToGoal result).

End Display.

(** ** The address *)

Section Address.

Local Open Scope string_scope.

(** [String(v)]: the text of a number. *)
Variable ToString : number -> string.

(** [query.set(name, value)]: the first tuple of that name takes the value
    and the others of that name are removed; without one, a tuple is
    appended. *)
Fixpoint URLSearchParams_set (query : URLSearchParams) (name value : string)
    : URLSearchParams :=
  match query with
  | [] => [(name, value)]
  | (k, v) :: rest =>
      if String.eqb k name
      then (k, value) :: filter (fun t => negb (String.eqb (fst t) name)) rest
      else (k, v) :: URLSearchParams_set rest name value
  end.

(** [Object.entries(state)]: the fields in the order the state was built
    with, which the updates of one field keep. *)
Definition Object_entries (s : CalculatorState) : list (string * number) :=
  [("targetMonthlyRevenue", s.(targetMonthlyRevenue));
   ("pricePerClient", s.(pricePerClient));
   ("videosPerMonth", s.(videosPerMonth));
   ("avgViewsPerVideo", s.(avgViewsPerVideo));
   ("viewToBookingRatePct", s.(viewToBookingRatePct));
   ("showRatePct", s.(showRatePct));
   ("closeRatePct", s.(closeRatePct))].

(** The query the page builds whenever the state changes. *)
Definition query_of_state (s : CalculatorState) : URLSearchParams :=
  fold_left (fun q kv => URLSearchParams_set q (fst kv) (ToString (snd kv)))
            (Object_entries s) [].

End Address.

(** *** The query as text

    Strings are taken as the bytes of their UTF-8 encoding, so that encoding
    a string is the identity, and decoding keeps the bytes of what is well
    formed and puts U+FFFD in the place of what is not. *)

(** Every byte is an ASCII code point. *)
Definition ascii_only (s : string) : bool :=
  forallb (fun c => (N_of_ascii c <? 128)%N) (list_ascii_of_string s).

Definition ascii_query (q : URLSearchParams) : bool :=
  forallb (fun t => ascii_only (fst t) && ascii_only (snd t)) q.

(** The bytes that the application/x-www-form-urlencoded percent-encode
    set leaves alone: ASCII letters and digits, [*], [-], [.] and [_]. *)
Definition urlencoded_plain (c : ascii) : bool :=
  let n := N_of_ascii c in
  ((48 <=? n) && (n <=? 57) || (65 <=? n) && (n <=? 90) ||
   (97 <=? n) && (n <=? 122) ||
   (n =? 42) || (n =? 45) || (n =? 46) || (n =? 95))%N.

(** The upper-case hexadecimal digit of a value below 16. *)
Definition upper_hex_digit (n : N) : ascii :=
  if (n <? 10)%N then ascii_of_N (48 + n) else ascii_of_N (55 + n).

(** Percent-encoding a byte: [%] and two upper-case hexadecimal digits. *)
Definition percent_encode_byte (c : ascii) : string :=
  let n := N_of_ascii c in
  String "%" (String (upper_hex_digit (n / 16))
                     (String (upper_hex_digit (n mod 16)) EmptyString)).

(** Percent-encoding with the urlencoded set, a space becoming [+]. *)
Fixpoint urlencoded_encode (s : string) : string :=
  match s with
  | EmptyString => EmptyString
  | String c rest =>
      (if Ascii.eqb c " " then String "+" EmptyString
       else if urlencoded_plain c then String c EmptyString
       else percent_encode_byte c) ++ urlencoded_encode rest
  end%string.

(** [query.toString()], the urlencoded serialiser: [name=value] tuples
    joined by [&]. *)
Definition URLSearchParams_toString (query : URLSearchParams) : string :=
  fold_left (fun output t =>
               (match output with
                | EmptyString => output
                | _ => output ++ "&"
                end ++ urlencoded_encode (fst t) ++ "=" ++ urlencoded_encode (snd t))%string)
            query EmptyString.

(** [location.search] once the address has been replaced by the path, a
    question mark and [text]: empty when [text] is, and otherwise the
    question mark followed by [text], in which the serialiser left nothing
    for the address parser to change. *)
Definition location_search (text : string) : string :=
  match text with
  | EmptyString => EmptyString
  | _ => String "?" text
  end.

(** Strictly splitting on a byte: the first piece and the pieces after. *)
Fixpoint split_on (sep : ascii) (s : string) : string * list string :=
  match s with
  | EmptyString => (EmptyString, [])
  | String c rest =>
      let (h, t) := split_on sep rest in
      if Ascii.eqb c sep then (EmptyString, h :: t) else (String c h, t)
  end.

(** The name up to the first [=] and the value after it; without [=] the
    value is empty. *)
Fixpoint name_value (bytes : string) : string * string :=
  match bytes with
  | EmptyString => (EmptyString, EmptyString)
  | String c rest =>
      if Ascii.eqb c "=" then (EmptyString, rest)
      else let (n, v) := name_value rest in (String c n, v)
  end.

(** Every [+] read as a space. *)
Fixpoint plus_to_space (s : string) : string :=
  match s with
  | EmptyString => EmptyString
  | String c rest =>
      String (if Ascii.eqb c "+" then " "%char else c) (plus_to_space rest)
  end.

(** The value of a hexadecimal digit of either case. *)
Definition hex_value (c : ascii) : option N :=
  let n := N_of_ascii c in
  if ((48 <=? n) && (n <=? 57))%N then Some (n - 48)%N
  else if ((65 <=? n) && (n <=? 70))%N then Some (n - 55)%N
  else if ((97 <=? n) && (n <=? 102))%N then Some (n - 87)%N
  else None.

(** Percent-decoding: [%] followed by two hexadecimal digits is the byte
    they denote, every other byte is itself. *)
Fixpoint percent_decode (s : string) : string :=
  match s with
  | EmptyString => EmptyString
  | String c rest =>
      if Ascii.eqb c "%" then
        match rest with
        | String h (String l rest') =>
            match hex_value h, hex_value l with
            | Some a, Some b =>
                String (ascii_of_N (16 * a + b)) (percent_decode rest')
            | _, _ => String c (percent_decode rest)
            end
        | _ => String c (percent_decode rest)
        end
      else String c (percent_decode rest)
  end.

(** The bytes of U+FFFD, the replacement character. *)
Definition replacement_character : string := bytes [239; 191; 189]%N.

(** What a byte is at the start of a code point: a code point of its own,
    the first of a sequence with so many bytes to follow, the next of which
    lies between the two bounds, or no start at all. *)
Inductive first_byte : Set :=
| Single
| Lead (needed lower upper : N)
| Invalid.

Definition UTF8_first (b : N) : first_byte :=
  if (b <? 128)%N then Single
  else if ((194 <=? b) && (b <=? 223))%N then Lead 1 128 191
  else if ((224 <=? b) && (b <=? 239))%N then
    Lead 2 (if (b =? 224)%N then 160 else 128)%N
           (if (b =? 237)%N then 159 else 191)%N
  else if ((240 <=? b) && (b <=? 244))%N then
    Lead 3 (if (b =? 240)%N then 144 else 128)%N
           (if (b =? 244)%N then 143 else 191)%N
  else Invalid.

(** The UTF-8 decoder, written on bytes: [pending] holds the bytes of the
    code point under way, of which [needed] are still to come, the next one
    between [lower] and [upper].  A byte that cannot continue the sequence
    ends it with a replacement character and is read again as a start; so
    does the end of the input. *)
Fixpoint UTF8_decode_from (pending : string) (needed lower upper : N)
    (s : string) : string :=
  match s with
  | EmptyString =>
      if (needed =? 0)%N then EmptyString else replacement_character
  | String c rest =>
      let b := N_of_ascii c in
      let fresh :=
        match UTF8_first b with
        | Single => String c (UTF8_decode_from EmptyString 0 128 191 rest)
        | Lead n lo hi => UTF8_decode_from (String c EmptyString) n lo hi rest
        | Invalid =>
            (replacement_character ++ UTF8_decode_from EmptyString 0 128 191 rest)%string
        end in
      if (needed =? 0)%N then fresh
      else if ((lower <=? b) && (b <=? upper))%N then
        if (needed =? 1)%N
        then (pending ++ String c (UTF8_decode_from EmptyString 0 128 191 rest))%string
        else UTF8_decode_from (pending ++ String c EmptyString)%string
                              (needed - 1) 128 191 rest
      else (replacement_character ++ fresh)%string
  end.

(** UTF-8 decode without BOM. *)
Definition UTF8_decode_without_BOM (s : string) : string :=
  UTF8_decode_from EmptyString 0 128 191 s.

(** The urlencoded parser: the pieces between [&] that are not empty, each
    split at its first [=], with [+] read as a space, then percent-decoded
    and decoded as UTF-8. *)
Definition urlencoded_parse (input : string) : URLSearchParams :=
  let (h, t) := split_on "&" input in
  flat_map (fun bytes =>
              match bytes with
              | EmptyString => []
              | _ => let (n, v) := name_value bytes in
                     [(UTF8_decode_without_BOM (percent_decode (plus_to_space n)),
                       UTF8_decode_without_BOM (percent_decode (plus_to_space v)))]
              end)
           (h :: t).

(** [new URLSearchParams(init)] on a string: a leading question mark is
    dropped and the rest is parsed. *)
Definition new_URLSearchParams (init : string) : URLSearchParams :=
  urlencoded_parse (match init with
                    | String "?" rest => rest
                    | _ => init
                    end).

(** The query the page reads when it is loaded at the address it wrote for
    the state [s]. *)
Definition reloaded_query (ToString : number -> string) (s : CalculatorState)
    : URLSearchParams :=
  new_URLSearchParams
    (location_search (URLSearchParams_toString (query_of_state ToString s))).

(** The text of one tuple, and of the tuples after the first. *)
Definition tuple_text (t : string * string) : string :=
  (urlencoded_encode (fst t) ++ "=" ++ urlencoded_encode (snd t))%string.

Fixpoint more_text (rest : URLSearchParams) : string :=
  match rest with
  | [] => EmptyString
  | t :: rest' => ("&" ++ tuple_text t ++ more_text rest')%string
  end.

(** What the serialiser writes for one byte. *)
Definition encode_byte (c : ascii) : string :=
  if Ascii.eqb c " " then String "+" EmptyString
  else if urlencoded_plain c then String c EmptyString
  else percent_encode_byte c.


(** What [numberFromQuery] makes of the text that [String(v)] wrote under
    a key. *)
Definition read_back (ToNumber : string -> number) (ToString : number -> string)
    (v fallback : number) : number :=
  numberFromQuery ToNumber [("v"%string, ToString v)] "v" fallback.

(** Every field is written as ASCII text. *)
Definition printable (ToString : number -> string) (s : CalculatorState) : bool :=
  forallb (fun kv => ascii_only (ToString (snd kv))) (Object_entries s).

(** Every field is finite, is written as text that is not empty, and is
    the number that its text denotes. *)
Definition restorable (ToNumber : string -> number) (ToString : number -> string)
    (s : CalculatorState) : Prop :=
  Forall (fun kv => Number_isFinite (snd kv) = true /\
                    ToString (snd kv) <> EmptyString /\
                    ToNumber (ToString (snd kv)) = snd kv)
         (Object_entries s).

(** The query has no parameter named after a field. *)
Definition no_field_parameter (q : URLSearchParams) : bool :=
  forallb (fun kv => match URLSearchParams_get q (fst kv) with
                     | None => true
                     | Some _ => false
                     end)
          (Object_entries defaults_aligned).

(** A query with names and values that the serialiser has to encode. *)
Definition awkward_query : URLSearchParams :=
  [("a b", "1e+21"); (EmptyString, EmptyString); ("x", "100%&=?#"); ("x", "again")]%string.

(** ** Editing the inputs *)

(** [keyof CalculatorState]. *)
Inductive keyof_CalculatorState : Set :=
| key_targetMonthlyRevenue
| key_pricePerClient
| key_videosPerMonth
| key_avgViewsPerVideo
| key_viewToBookingRatePct
| key_showRatePct
| key_closeRatePct.

(** [{ ...s, [k]: v }], the state that the [onChange] of a field asks
    for. *)
Definition with_field (s : CalculatorState) (k : keyof_CalculatorState)
    (v : number) : CalculatorState :=
  match k with
  | key_targetMonthlyRevenue =>
      {| targetMonthlyRevenue := v; pricePerClient := s.(pricePerClient);
         videosPerMonth := s.(videosPerMonth);
         avgViewsPerVideo := s.(avgViewsPerVideo);
         viewToBookingRatePct := s.(viewToBookingRatePct);
         showRatePct := s.(showRatePct); closeRatePct := s.(closeRatePct) |}
  | key_pricePerClient =>
      {| targetMonthlyRevenue := s.(targetMonthlyRevenue); pricePerClient := v;
         videosPerMonth := s.(videosPerMonth);
         avgViewsPerVideo := s.(avgViewsPerVideo);
         viewToBookingRatePct := s.(viewToBookingRatePct);
         showRatePct := s.(showRatePct); closeRatePct := s.(closeRatePct) |}
  | key_videosPerMonth =>
      {| targetMonthlyRevenue := s.(targetMonthlyRevenue);
         pricePerClient := s.(pricePerClient); videosPerMonth := v;
         avgViewsPerVideo := s.(avgViewsPerVideo);
         viewToBookingRatePct := s.(viewToBookingRatePct);
         showRatePct := s.(showRatePct); closeRatePct := s.(closeRatePct) |}
  | key_avgViewsPerVideo =>
      {| targetMonthlyRevenue := s.(targetMonthlyRevenue);
         pricePerClient := s.(pricePerClient);
         videosPerMonth := s.(videosPerMonth); avgViewsPerVideo := v;
         viewToBookingRatePct := s.(viewToBookingRatePct);
         showRatePct := s.(showRatePct); closeRatePct := s.(closeRatePct) |}
  | key_viewToBookingRatePct =>
      {| targetMonthlyRevenue := s.(targetMonthlyRevenue);
         pricePerClient := s.(pricePerClient);
         videosPerMonth := s.(videosPerMonth);
         avgViewsPerVideo := s.(avgViewsPerVideo); viewToBookingRatePct := v;
         showRatePct := s.(showRatePct); closeRatePct := s.(closeRatePct) |}
  | key_showRatePct =>
      {| targetMonthlyRevenue := s.(targetMonthlyRevenue);
         pricePerClient := s.(pricePerClient);
         videosPerMonth := s.(videosPerMonth);
         avgViewsPerVideo := s.(avgViewsPerVideo);
         viewToBookingRatePct := s.(viewToBookingRatePct);
         showRatePct := v; closeRatePct := s.(closeRatePct) |}
  | key_closeRatePct =>
      {| targetMonthlyRevenue := s.(targetMonthlyRevenue);
         pricePerClient := s.(pricePerClient);
         videosPerMonth := s.(videosPerMonth);
         avgViewsPerVideo := s.(avgViewsPerVideo);
         viewToBookingRatePct := s.(viewToBookingRatePct);
         showRatePct := s.(showRatePct); closeRatePct := v |}
  end.

(** The four fields edited through a [LabeledNumber], with the [min] each
    is given, and the three edited through a [LabeledSlider]. *)
Inductive NumberBox : Set :=
| box_targetMonthlyRevenue
| box_pricePerClient
| box_videosPerMonth
| box_avgViewsPerVideo.

Inductive Slider : Set :=
| slider_viewToBookingRatePct
| slider_showRatePct
| slider_closeRatePct.

Definition box_key (b : NumberBox) : keyof_CalculatorState :=
  match b with
  | box_targetMonthlyRevenue => key_targetMonthlyRevenue
  | box_pricePerClient => key_pricePerClient
  | box_videosPerMonth => key_videosPerMonth
  | box_avgViewsPerVideo => key_avgViewsPerVideo
  end.

Definition box_min (b : NumberBox) : option number :=
  match b with
  | box_targetMonthlyRevenue => Some 1000
  | box_pricePerClient => Some 100
  | box_videosPerMonth => Some 0
  | box_avgViewsPerVideo => Some 0
  end.

Definition slider_key (r : Slider) : keyof_CalculatorState :=
  match r with
  | slider_viewToBookingRatePct => key_viewToBookingRatePct
  | slider_showRatePct => key_showRatePct
  | slider_closeRatePct => key_closeRatePct
  end.

(** What the visitor does to the inputs: the [onChange] of a number box
    with the text now in the box, the [onBlur] of a number box with the
    text that the box then holds, and the [onChange] of a slider with the
    text of its value. *)
Inductive Edit : Set :=
| Typed (b : NumberBox) (v : string)
| Blurred (b : NumberBox) (text : string)
| Slid (r : Slider) (v : string).

Module AlignedPage.

Section Handlers.

Local Open Scope string_scope.

Variable ToNumber : string -> number.
Variable ToString : number -> string.

(** [commitIfValid] of [LabeledNumber]: the number handed to
    [props.onChange], if any. *)
Definition commitIfValid (valueStr : string) : option number :=
  if String.eqb valueStr EmptyString then None
  else
    let next := ToNumber valueStr in
    if Number_isFinite next then Some next else None.

(** [handleBlur] of [LabeledNumber]: the text it sets, if any, and the
    number handed to [props.onChange], if any. *)
Definition handleBlur (min : option number) (text : string)
    : option string * option number :=
  if String.eqb text EmptyString then
    let fallback := match min with Some m => m | None => 0%float end in
    (Some (ToString fallback), Some fallback)
  else (None, commitIfValid text).

(** The [onChange] of the input of [LabeledNumber]. *)
Definition handleChange (v : string) : option string * option number :=
  (Some v, commitIfValid v).

(** The state after an edit. *)
Definition dispatch (s : CalculatorState) (edit : Edit) : CalculatorState :=
  match edit with
  | Typed b v =>
      match snd (handleChange v) with
      | Some n => with_field s (box_key b) n
      | None => s
      end
  | Blurred b text =>
      match snd (handleBlur (box_min b) text) with
      | Some n => with_field s (box_key b) n
      | None => s
      end
  | Slid r v => with_field s (slider_key r) (ToNumber v)
  end.

End Handlers.

End AlignedPage.

Module UnroundedPage.

Section Handlers.

Variable ToNumber : string -> number.

(** The state after an edit: both inputs hand [Number(e.target.value)] to
    [props.onChange], and a number box has no [onBlur]. *)
Definition dispatch (s : CalculatorState) (edit : Edit) : CalculatorState :=
  match edit with
  | Typed b v => with_field s (box_key b) (ToNumber v)
  | Blurred b text => s
  | Slid r v => with_field s (slider_key r) (ToNumber v)
  end.

End Handlers.

End UnroundedPage.

(** The text that a slider hands over denotes a finite number. *)
Definition slider_text_finite (ToNumber : string -> number) (edit : Edit) : bool :=
  match edit with
  | Slid _ v => Number_isFinite (ToNumber v)
  | _ => true
  end.

(** A visitor who types nonsense, an overflowing number and nothing at
    all, leaves two boxes empty and moves a slider. *)
Definition clumsy_edits : list Edit :=
  [Typed box_pricePerClient "abc"; Typed box_videosPerMonth "1e999";
   Typed box_targetMonthlyRevenue EmptyString; Blurred box_targetMonthlyRevenue EmptyString;
   Typed box_pricePerClient "250"; Blurred box_avgViewsPerVideo EmptyString;
   Slid slider_closeRatePct "35.5"]%string.

(** ** The slider *)

(** The share of the track of a [LabeledSlider] that is filled, in
    percent. *)
Definition LabeledSlider_percent (value min max : number) : number :=
  Math_max [0; Math_min [100; ((value - min) / (max - min)) * 100]].

(** ** The form that reaches the route *)

Module Client.

Import Route.
Local Open Scope string_scope.

(** The two answers of the route that carry an error message. *)
Definition error_response (st : Z) (message : string) : Response :=
  {| status := st;
     body := JObject [("ok", JBool false); ("error", JString message)] |}.

(** What [req.json()] gives the route for the body that [EmailCapture]
    sends, [JSON.stringify({ email })]: an object with the one property. *)
Definition EmailCapture_body (email : string) : json :=
  JObject [("email", JString email)].

(** [submit] of [EmailCapture]: the alert it raises, given the response
    that [fetch] resolved with, or [None] when [fetch] rejected. *)
Definition submit (reply : option Response) : string :=
  match reply with
  | Some _ => "Thanks! Check your inbox."
  | None => "Something went wrong. Please try again."
  end.

(** The route as it is reached by [EmailCapture]. *)
Definition reached (email : string) (url : option string)
    (resolves : FetchCall -> bool) : World :=
  {| request_json := Some (EmailCapture_body email);
     SUBSCRIBE_WEBHOOK_URL := url;
     fetch_resolves := resolves |}.

End Client.

(** * Facts about binary64 numbers *)

(** Unfolds the parameters of the format: precision 53, exponents from
    -1074 to 971. *)
Ltac unfold_format := unfold fexp, SpecFloat.emin, prec, emax.

(** Decides the test [0 <=? e] of [Math.ceil] and [Math.round] from a
    hypothesis on the exponent. *)
Ltac exponent_nonneg e :=
  replace (0 <=? e)%Z with true by (symmetry; apply Z.leb_le; assumption).
Ltac exponent_negative e :=
  replace (0 <=? e)%Z with false by (symmetry; apply Z.leb_gt; lia).

Section Binary64.

Local Open Scope Z_scope.

(** [digits2_pos] counts binary digits. *)
Lemma digits2_pos_bounds (p : positive) :
  2 ^ (Zpos (digits2_pos p) - 1) <= Zpos p < 2 ^ Zpos (digits2_pos p).
Proof.
  induction p as [p IH | p IH | ]; cbn [digits2_pos].
  - rewrite Pos2Z.inj_succ.
    replace (Z.succ (Zpos (digits2_pos p)) - 1)
      with (Z.succ (Zpos (digits2_pos p) - 1)) by lia.
    rewrite !Z.pow_succ_r by lia. lia.
  - rewrite Pos2Z.inj_succ.
    replace (Z.succ (Zpos (digits2_pos p)) - 1)
      with (Z.succ (Zpos (digits2_pos p) - 1)) by lia.
    rewrite !Z.pow_succ_r by lia. lia.
  - cbn. lia.
Qed.

Lemma digits2_pos_le (p : positive) (k : Z) :
  0 <= k -> Zpos p < 2 ^ k -> Zpos (digits2_pos p) <= k.
Proof.
  intros Hk Hp. pose proof (digits2_pos_bounds p) as [Hlo _].
  destruct (Z_le_gt_dec (Zpos (digits2_pos p)) k) as [ | Hgt]; [assumption | ].
  assert (2 ^ k <= 2 ^ (Zpos (digits2_pos p) - 1)) by (apply Z.pow_le_mono_r; lia).
  lia.
Qed.

Lemma digits2_pos_iter_xO (p k : positive) :
  digits2_pos (Pos.iter xO p k) = (digits2_pos p + k)%positive.
Proof.
  induction k as [ | k IH] using Pos.peano_ind.
  - cbn. lia.
  - rewrite Pos.iter_succ. cbn [digits2_pos]. rewrite IH. lia.
Qed.

Lemma iter_xO_value (p k : positive) :
  Zpos (Pos.iter xO p k) = Zpos p * 2 ^ Zpos k.
Proof.
  induction k as [ | k IH] using Pos.peano_ind.
  - cbn. lia.
  - rewrite Pos.iter_succ, Pos2Z.inj_xO, IH, Pos2Z.inj_succ, Z.pow_succ_r by lia.
    lia.
Qed.

(** What validity says about the mantissa and exponent of a finite number. *)
Lemma bounded_inv (m : positive) (e : Z) :
  bounded prec emax m e = true ->
  Zpos (digits2_pos m) <= 53 /\ -1074 <= e <= 971 /\
  (Zpos (digits2_pos m) = 53 \/ e = -1074).
Proof.
  unfold bounded, canonical_mantissa. unfold_format.
  rewrite andb_true_iff, Z.eqb_eq, Z.leb_le. lia.
Qed.

Lemma bounded_intro (m : positive) (e : Z) :
  Zpos (digits2_pos m) <= 53 -> -1074 <= e <= 971 ->
  (Zpos (digits2_pos m) = 53 \/ e = -1074) ->
  bounded prec emax m e = true.
Proof.
  unfold bounded, canonical_mantissa. unfold_format.
  rewrite andb_true_iff, Z.eqb_eq, Z.leb_le. lia.
Qed.

(** Rounding a canonical mantissa with nothing to round leaves it alone. *)
Lemma binary_round_aux_canonical (s : bool) (m : positive) (e : Z) :
  bounded prec emax m e = true ->
  binary_round_aux prec emax s (Zpos m) e loc_Exact = S754_finite s m e.
Proof.
  intros Hb. unfold bounded, canonical_mantissa in Hb.
  apply andb_true_iff in Hb. destruct Hb as [Hc He].
  apply Z.eqb_eq in Hc.
  unfold binary_round_aux, shr_fexp. cbn [Zdigits2 shr_record_of_loc].
  rewrite Hc, Z.sub_diag.
  cbn [shr shr_m loc_of_shr_record round_nearest_even Zdigits2 shr_record_of_loc].
  rewrite Hc, Z.sub_diag. cbn [shr shr_m].
  rewrite He. reflexivity.
Qed.

Lemma shl_align_spec (mx : positive) (ex ex' : Z) :
  ex' <= ex ->
  exists m', shl_align mx ex ex' = (m', ex') /\
             Zpos m' = Zpos mx * 2 ^ (ex - ex') /\
             Zpos (digits2_pos m') = Zpos (digits2_pos mx) + (ex - ex').
Proof.
  intros Hle. unfold shl_align.
  destruct (ex' - ex) as [ | d | d] eqn:E; try lia.
  - assert (ex' = ex) by lia. subst ex'. exists mx.
    rewrite Z.sub_diag. split; [reflexivity | ]. cbn. lia.
  - exists (Pos.iter xO mx d). replace (ex - ex') with (Zpos d) by lia.
    rewrite iter_xO_value, digits2_pos_iter_xO.
    split; [reflexivity | ]. lia.
Qed.

(** The canonical form of an integer of at most 53 bits: its mantissa,
    exponent and validity. *)
Lemma SFint_pos_facts (s : bool) (p : positive) :
  Zpos p <= 2 ^ 53 - 1 ->
  exists m, SFint_pos s p = S754_finite s m (Zpos (digits2_pos p) - 53) /\
            Zpos m = Zpos p * 2 ^ (53 - Zpos (digits2_pos p)) /\
            Zpos (digits2_pos m) = 53 /\
            bounded prec emax m (Zpos (digits2_pos p) - 53) = true.
Proof.
  intros Hp.
  assert (Hd : Zpos (digits2_pos p) <= 53) by (apply digits2_pos_le; lia).
  destruct (shl_align_spec p 0 (Zpos (digits2_pos p) - 53))
    as (m & Hm & Hv & Hdm); [lia | ].
  exists m. unfold SFint_pos. rewrite Hm. cbn [fst].
  split; [reflexivity | ]. split; [ | split].
  - rewrite Hv. f_equal. f_equal. lia.
  - lia.
  - apply bounded_intro; lia.
Qed.

Lemma binary_round_int (s : bool) (p : positive) :
  Zpos p <= 2 ^ 53 - 1 ->
  binary_round prec emax s p 0 = SFint_pos s p /\
  valid_binary (SFint_pos s p) = true.
Proof.
  intros Hp.
  destruct (SFint_pos_facts s p Hp) as (m & Hm & Hv & Hdm & Hb).
  assert (Hd : Zpos (digits2_pos p) <= 53) by (apply digits2_pos_le; lia).
  assert (Hf : fexp prec emax (Zpos (digits2_pos p) + 0)
               = Zpos (digits2_pos p) - 53).
  { unfold_format.
    pose proof (Pos2Z.is_pos (digits2_pos p)). lia. }
  unfold binary_round. rewrite Hf.
  unfold SFint_pos in Hm |- *.
  destruct (shl_align p 0 (Zpos (digits2_pos p) - 53)) as [mz ez] eqn:E.
  destruct (shl_align_spec p 0 (Zpos (digits2_pos p) - 53))
    as (m' & Hm' & _); [lia | ].
  rewrite E in Hm'. injection Hm' as -> ->.
  cbn [fst] in Hm |- *. injection Hm as <-.
  split.
  - apply binary_round_aux_canonical, Hb.
  - exact Hb.
Qed.

Lemma binary_normalize_int (n : Z) (szero : bool) :
  Z.abs n <= 2 ^ 53 - 1 ->
  binary_normalize prec emax n 0 szero = SFint n szero /\
  valid_binary (SFint n szero) = true.
Proof.
  intros Hn. destruct n as [ | p | p]; cbn [binary_normalize SFint].
  - split; reflexivity.
  - apply binary_round_int. lia.
  - apply binary_round_int. lia.
Qed.

End Binary64.

(** * Facts about ECMAScript numbers *)

Section Numbers.

Lemma Prim2SF_0 : Prim2SF 0 = S754_zero false.
Proof. reflexivity. Qed.

Lemma Prim2SF_1 : Prim2SF 1 = S754_finite false 4503599627370496 (-52).
Proof. reflexivity. Qed.

Lemma Prim2SF_half : Prim2SF 0.5 = S754_finite false 4503599627370496 (-53).
Proof. reflexivity. Qed.

Lemma Prim2SF_100 : Prim2SF 100 = S754_finite false 7036874417766400 (-46).
Proof. reflexivity. Qed.

Lemma Prim2SF_infinity : Prim2SF infinity = S754_infinity false.
Proof. reflexivity. Qed.

(** A finite number has a canonical mantissa and exponent. *)
Lemma Prim2SF_bounded (x : number) (s : bool) (m : positive) (e : Z) :
  Prim2SF x = S754_finite s m e -> bounded prec emax m e = true.
Proof.
  intros H. pose proof (Prim2SF_valid x) as Hv. rewrite H in Hv. exact Hv.
Qed.

Lemma leb_zero_cases (x : number) :
  (x <=? 0) = true <->
  (exists s, Prim2SF x = S754_zero s) \/
  (exists m e, Prim2SF x = S754_finite true m e) \/
  Prim2SF x = S754_infinity true.
Proof.
  rewrite leb_spec, Prim2SF_0.
  destruct (Prim2SF x) as [[]|[]| |[] m e]; cbn; split; intros H;
    try discriminate; try reflexivity; eauto;
    try (destruct H as [[s' H] | [(m' & e' & H) | H]]; discriminate).
Qed.

Lemma eqb_zero_cases (x : number) :
  (x =? 0) = true <-> exists s, Prim2SF x = S754_zero s.
Proof.
  rewrite eqb_spec, Prim2SF_0.
  destruct (Prim2SF x) as [[]|[]| |[] m e]; cbn; split; intros H;
    try discriminate; try reflexivity; eauto;
    try (destruct H as [s' H]; discriminate).
Qed.

Lemma is_nan_cases (x : number) :
  is_nan x = true <-> Prim2SF x = S754_nan.
Proof.
  unfold is_nan. rewrite eqb_spec.
  destruct (Prim2SF x) as [[]|[]| |s m e]; cbn; split; intros H;
    try discriminate; try reflexivity.
  unfold SFeqb in H. cbn in H. rewrite Z.compare_refl, Pcompare_refl in H.
  destruct s; discriminate.
Qed.

Lemma is_finite_cases (x : number) :
  Number_isFinite x = true <->
  (exists s, Prim2SF x = S754_zero s) \/
  (exists s m e, Prim2SF x = S754_finite s m e).
Proof.
  unfold Number_isFinite, is_finite, is_nan, is_infinity.
  rewrite !eqb_spec, abs_spec, Prim2SF_infinity.
  destruct (Prim2SF x) as [s|s| |s m e]; cbn.
  - split; eauto.
  - destruct s; cbn;
      (split; [discriminate | intros [[? H] | (? & ? & ? & H)]; discriminate]).
  - split; [discriminate | intros [[? H] | (? & ? & ? & H)]; discriminate].
  - unfold SFeqb. cbn. rewrite Z.compare_refl, Pcompare_refl.
    destruct s; cbn; split; eauto.
Qed.

(** The number built from a small integer is that integer. *)
Lemma Prim2SF_of_Z (n : Z) (szero : bool) :
  (Z.abs n <= 2 ^ 53 - 1)%Z -> Prim2SF (of_Z n szero) = SFint n szero.
Proof.
  intros Hn. destruct (binary_normalize_int n szero Hn) as [Hnorm Hvalid].
  unfold of_Z. rewrite Hnorm. apply Prim2SF_SF2Prim, Hvalid.
Qed.

(** [Math.max(1, p)] is the larger of 1 and [p], and NaN when [p] is. *)
Lemma Math_max_one (p : number) :
  Math_max [1; p] = if is_nan p then NaN else if 1 <? p then p else 1.
Proof.
  unfold Math_max. cbn [existsb fold_left].
  change (is_nan 1) with false. cbn [orb]. rewrite orb_false_r.
  destruct (is_nan p); [reflexivity | ].
  change (max_step neg_infinity 1) with 1.
  unfold max_step, gt. rewrite Prim2SF_1.
  destruct (Prim2SF p) as [[]|[]| |[] m e]; reflexivity.
Qed.

End Numbers.

(** * Rounding to binary64 *)

Section Rounding.

Local Open Scope Z_scope.

Lemma Zdigits2_nonneg (m : Z) : 0 <= Zdigits2 m.
Proof. destruct m; cbn; lia. Qed.

Lemma Zdigits2_bounds (m : Z) :
  0 < m -> 2 ^ (Zdigits2 m - 1) <= m < 2 ^ Zdigits2 m.
Proof.
  destruct m as [ | p | p]; try lia. intros _. apply digits2_pos_bounds.
Qed.

Lemma Zdigits2_le (m k : Z) : 0 <= k -> 0 <= m < 2 ^ k -> Zdigits2 m <= k.
Proof.
  intros Hk [Hm Hlt]. destruct m as [ | p | p]; cbn; try lia.
  apply digits2_pos_le; assumption.
Qed.

Lemma Zdigits2_pos (m : Z) : 0 < m -> 1 <= Zdigits2 m.
Proof. destruct m; cbn; lia. Qed.

Lemma shr_1_m (mrs : shr_record) :
  0 <= shr_m mrs -> shr_m (shr_1 mrs) = shr_m mrs / 2.
Proof.
  destruct mrs as [m r s]. cbn [shr_m]. intros Hm.
  destruct m as [ | [p | p | ] | p]; cbn [shr_1 shr_m].
  - reflexivity.
  - apply Z.div_unique with (r := 1); lia.
  - apply Z.div_unique with (r := 0); lia.
  - reflexivity.
  - lia.
Qed.

Lemma iter_pos_shr_1_m (n : positive) (mrs : shr_record) :
  0 <= shr_m mrs ->
  shr_m (iter_pos shr_1 n mrs) = shr_m mrs / 2 ^ Zpos n.
Proof.
  revert mrs. induction n as [n IH | n IH | ]; intros mrs Hm; cbn [iter_pos].
  - assert (H1 : 0 <= shr_m (shr_1 mrs)).
    { rewrite shr_1_m by assumption. apply Z.div_pos; lia. }
    assert (H2 : 0 <= shr_m (iter_pos shr_1 n (shr_1 mrs))).
    { rewrite IH by assumption. apply Z.div_pos; [assumption | ].
      apply Z.pow_pos_nonneg; lia. }
    rewrite IH, IH, shr_1_m by assumption.
    rewrite !Z.div_div by (try apply Z.pow_pos_nonneg; lia).
    f_equal.
    replace (Zpos n~1) with (1 + Zpos n + Zpos n) by lia.
    rewrite !Z.pow_add_r by lia. lia.
  - assert (H2 : 0 <= shr_m (iter_pos shr_1 n mrs)).
    { rewrite IH by assumption. apply Z.div_pos; [assumption | ].
      apply Z.pow_pos_nonneg; lia. }
    rewrite IH, IH by assumption.
    rewrite !Z.div_div by (try apply Z.pow_pos_nonneg; lia).
    f_equal.
    replace (Zpos n~0) with (Zpos n + Zpos n) by lia.
    rewrite !Z.pow_add_r by lia. lia.
  - rewrite shr_1_m by assumption. reflexivity.
Qed.

Lemma shr_record_of_loc_m (m : Z) (l : location) :
  shr_m (shr_record_of_loc m l) = m.
Proof. destruct l as [ | []]; reflexivity. Qed.

(** The first step of rounding divides the mantissa by a power of two. *)
Lemma shr_fexp_spec (m e : Z) (l : location) :
  0 <= m ->
  shr_m (fst (shr_fexp prec emax m e l)) = m / 2 ^ shift_amount m e /\
  snd (shr_fexp prec emax m e l) = e + shift_amount m e.
Proof.
  intros Hm. unfold shr_fexp, shift_amount, shr.
  destruct (fexp prec emax (Zdigits2 m + e) - e) as [ | n | n] eqn:E;
    cbn [fst snd].
  - rewrite shr_record_of_loc_m. cbn. rewrite Z.div_1_r. lia.
  - rewrite iter_pos_shr_1_m by (rewrite shr_record_of_loc_m; assumption).
    rewrite shr_record_of_loc_m.
    replace (Z.max 0 (Zpos n)) with (Zpos n) by lia. split; reflexivity.
  - rewrite shr_record_of_loc_m.
    replace (Z.max 0 (Zneg n)) with 0 by lia. cbn. rewrite Z.div_1_r. lia.
Qed.

Lemma round_nearest_even_bounds (m : Z) (l : location) :
  m <= round_nearest_even m l <= m + 1.
Proof.
  destruct l as [ | []]; cbn [round_nearest_even]; try lia.
  destruct (Z.even m); lia.
Qed.

(** The shape of every rounding: two shifts around a step that adds at most
    one to the mantissa. *)
Lemma binary_round_aux_shape (sx : bool) (m e : Z) (l : location) :
  0 <= m ->
  exists mr : Z,
    let m1 := m / 2 ^ shift_amount m e in
    let e1 := e + shift_amount m e in
    m1 <= mr <= m1 + 1 /\
    binary_round_aux prec emax sx m e l =
      pack sx (mr / 2 ^ shift_amount mr e1) (e1 + shift_amount mr e1).
Proof.
  intros Hm. unfold binary_round_aux.
  destruct (shr_fexp_spec m e l Hm) as [Hm1 He1].
  destruct (shr_fexp prec emax m e l) as [mrs' e'] eqn:E1.
  cbn [fst snd] in Hm1, He1.
  set (mr := round_nearest_even (shr_m mrs') (loc_of_shr_record mrs')).
  assert (Hmr : shr_m mrs' <= mr <= shr_m mrs' + 1)
    by apply round_nearest_even_bounds.
  assert (H0 : 0 <= shr_m mrs').
  { rewrite Hm1. apply Z.div_pos; [assumption | ].
    apply Z.pow_pos_nonneg; [lia | ]. unfold shift_amount. lia. }
  destruct (shr_fexp_spec mr e' loc_Exact) as [Hm2 He2]; [lia | ].
  destruct (shr_fexp prec emax mr e' loc_Exact) as [mrs'' e''] eqn:E2.
  cbn [fst snd] in Hm2, He2.
  exists mr. cbn zeta. rewrite <- Hm1, <- He1. split; [exact Hmr | ].
  rewrite <- Hm2, <- He2. reflexivity.
Qed.

Lemma pow2_pos (k : Z) : 0 <= k -> 0 < 2 ^ k.
Proof. intros Hk. apply Z.pow_pos_nonneg; lia. Qed.

(** A mantissa that is not zero stays so when it sits at or above the least
    exponent. *)
Lemma shift_keeps_positive (m e : Z) :
  1 <= m -> -1074 <= e ->
  1 <= m / 2 ^ shift_amount m e /\ -1074 <= e + shift_amount m e.
Proof.
  intros Hm He.
  pose proof (Zdigits2_bounds m ltac:(lia)) as [Hlo _].
  pose proof (Zdigits2_pos m ltac:(lia)) as Hd.
  assert (Hn : 0 <= shift_amount m e <= Zdigits2 m - 1).
  { unfold shift_amount. unfold_format. lia. }
  split; [ | lia].
  apply Z.div_le_lower_bound; [apply pow2_pos; lia | ].
  assert (2 ^ shift_amount m e <= 2 ^ (Zdigits2 m - 1))
    by (apply Z.pow_le_mono_r; lia).
  lia.
Qed.

Lemma shift_exponent_bound (m e : Z) :
  e <= 971 -> Zdigits2 m + e <= 1024 -> e + shift_amount m e <= 971.
Proof.
  unfold shift_amount. unfold_format. lia.
Qed.

Lemma Zdigits2_div_pow2 (m n : Z) :
  0 <= m -> 0 <= n -> Zdigits2 (m / 2 ^ n) <= Z.max 0 (Zdigits2 m - n).
Proof.
  intros Hm Hn. pose proof (pow2_pos n Hn) as H2n.
  assert (Hq : 0 <= m / 2 ^ n) by (apply Z.div_pos; lia).
  destruct (Z.eq_dec (m / 2 ^ n) 0) as [-> | Hnz]; [cbn; lia | ].
  assert (Hm1 : 2 ^ n <= m).
  { destruct (Z_lt_le_dec m (2 ^ n)) as [Hlt | ]; [ | assumption].
    rewrite Z.div_small in Hnz by lia. lia. }
  pose proof (Zdigits2_bounds m ltac:(lia)) as [_ Hhi].
  assert (Hnd : n < Zdigits2 m).
  { apply (Z.pow_lt_mono_r_iff 2); [lia | apply Zdigits2_nonneg | lia]. }
  replace (Z.max 0 (Zdigits2 m - n)) with (Zdigits2 m - n) by lia.
  apply Zdigits2_le; [lia | ]. split; [assumption | ].
  apply Z.div_lt_upper_bound; [assumption | ].
  rewrite <- Z.pow_add_r by lia.
  replace (n + (Zdigits2 m - n)) with (Zdigits2 m) by lia. assumption.
Qed.

Lemma Zdigits2_succ (m mr : Z) :
  0 <= m -> m <= mr <= m + 1 -> Zdigits2 mr <= Zdigits2 m + 1.
Proof.
  intros Hm Hmr. pose proof (Zdigits2_nonneg m) as Hd.
  apply Zdigits2_le; [lia | ]. split; [lia | ].
  rewrite Z.pow_add_r, Z.pow_1_r by lia.
  destruct (Z.eq_dec m 0) as [-> | Hnz]; [cbn in *; lia | ].
  pose proof (Zdigits2_bounds m ltac:(lia)) as [_ Hhi]. lia.
Qed.

(** Rounding a mantissa of at least one, at or above the least exponent,
    does not underflow to zero. *)
Lemma binary_round_aux_nonzero (sx : bool) (m e : Z) (l : location) :
  1 <= m -> -1074 <= e ->
  binary_round_aux prec emax sx m e l = S754_infinity sx \/
  exists p e', binary_round_aux prec emax sx m e l = S754_finite sx p e'.
Proof.
  intros Hm He.
  destruct (binary_round_aux_shape sx m e l ltac:(lia)) as (mr & Hmr & ->).
  cbn zeta in Hmr.
  destruct (shift_keeps_positive m e Hm He) as [H1 He1].
  set (e1 := e + shift_amount m e) in *.
  destruct (shift_keeps_positive mr e1 ltac:(lia) He1) as [H2 _].
  unfold pack. destruct (mr / 2 ^ shift_amount mr e1) as [ | p | p]; try lia.
  destruct (_ <=? _); eauto.
Qed.

(** Rounding does not overflow when the value is below 2^1023. *)
Lemma binary_round_aux_finite (sx : bool) (m e : Z) (l : location) :
  0 <= m -> e <= 971 -> Zdigits2 m + e <= 1023 ->
  binary_round_aux prec emax sx m e l = S754_zero sx \/
  exists p e', binary_round_aux prec emax sx m e l = S754_finite sx p e'.
Proof.
  intros Hm He Hd.
  destruct (binary_round_aux_shape sx m e l Hm) as (mr & Hmr & ->).
  cbn zeta in Hmr.
  assert (Hn1 : 0 <= shift_amount m e) by (unfold shift_amount; lia).
  pose proof (Zdigits2_div_pow2 m (shift_amount m e) Hm Hn1) as Hd1.
  assert (H1 : 0 <= m / 2 ^ shift_amount m e)
    by (apply Z.div_pos; [assumption | apply pow2_pos; assumption]).
  pose proof (Zdigits2_succ _ mr H1 Hmr) as Hdr.
  pose proof (shift_exponent_bound m e He ltac:(lia)) as He1.
  set (e1 := e + shift_amount m e) in *.
  assert (He2 : e1 + shift_amount mr e1 <= 971).
  { apply shift_exponent_bound; [assumption | ]. unfold e1. lia. }
  assert (H2 : 0 <= mr / 2 ^ shift_amount mr e1).
  { apply Z.div_pos; [lia | apply pow2_pos; unfold shift_amount; lia]. }
  unfold pack. destruct (mr / 2 ^ shift_amount mr e1) as [ | p | p]; try lia.
  - left; reflexivity.
  - right. exists p, (e1 + shift_amount mr e1).
    replace (_ <=? _) with true; [reflexivity | ].
    symmetry. apply Z.leb_le. unfold emax, prec. lia.
Qed.

(** Rounding does not overflow either when the value is below the largest
    finite number. *)
Lemma binary_round_aux_below_max (sx : bool) (m e : Z) (l : location) :
  0 <= m -> e <= 971 -> m < (2 ^ 53 - 1) * 2 ^ (971 - e) ->
  binary_round_aux prec emax sx m e l = S754_zero sx \/
  exists p e', binary_round_aux prec emax sx m e l = S754_finite sx p e'.
Proof.
  intros Hm He Hmax.
  destruct (Z_le_gt_dec (Zdigits2 m + e) 1023) as [Hd | Hd];
    [apply binary_round_aux_finite; assumption | ].
  pose proof (pow2_pos (971 - e) ltac:(lia)) as H2.
  assert (Hd' : Zdigits2 m <= 1024 - e).
  { apply Zdigits2_le; [lia | ]. split; [assumption | ].
    replace (1024 - e) with (53 + (971 - e)) by lia.
    rewrite Z.pow_add_r by lia. nia. }
  assert (Hn1 : shift_amount m e = 971 - e).
  { unfold shift_amount. replace (Zdigits2 m + e) with 1024 by lia.
    unfold_format. lia. }
  destruct (binary_round_aux_shape sx m e l Hm) as (mr & Hmr & ->).
  cbn zeta in Hmr. rewrite Hn1 in *.
  replace (e + (971 - e)) with 971 by lia.
  assert (H1 : 0 <= m / 2 ^ (971 - e) < 2 ^ 53 - 1).
  { split; [apply Z.div_pos; lia | ].
    apply Z.div_lt_upper_bound; [assumption | lia]. }
  assert (Hdr : Zdigits2 mr <= 53) by (apply Zdigits2_le; lia).
  assert (Hn2 : shift_amount mr 971 = 0).
  { unfold shift_amount. unfold_format. lia. }
  rewrite Hn2, Z.pow_0_r, Z.div_1_r, Z.add_0_r.
  unfold pack. destruct mr as [ | p | p]; try lia.
  - left; reflexivity.
  - right. exists p, 971. reflexivity.
Qed.

End Rounding.

(** * Division *)

Section Division.

Local Open Scope Z_scope.

(** The quotient mantissa, exponent and remainder location handed to the
    rounding step by a division of finite numbers. *)
Lemma SFdiv_core_binary_spec (mx : positive) (ex : Z) (my : positive) (ey : Z) :
  let e' := Z.min (fexp prec emax ((Zpos (digits2_pos mx) + ex)
                                   - (Zpos (digits2_pos my) + ey))) (ex - ey) in
  let m' := Zpos mx * 2 ^ (ex - ey - e') in
  SFdiv_core_binary prec emax (Zpos mx) ex (Zpos my) ey =
    (m' / Zpos my, e', new_location (Zpos my) (m' mod Zpos my)).
Proof.
  intros e' m'. unfold SFdiv_core_binary. cbn [Zdigits2]. fold e'.
  assert (Hs : 0 <= ex - ey - e') by (unfold e'; lia).
  assert (Hm' : match ex - ey - e' with
                | Zpos _ => Z.shiftl (Zpos mx) (ex - ey - e')
                | Z0 => Zpos mx
                | Zneg _ => 0
                end = m').
  { unfold m'. destruct (ex - ey - e') as [ | s | s] eqn:E.
    - cbn. lia.
    - rewrite Z.shiftl_mul_pow2 by lia. reflexivity.
    - lia. }
  rewrite Hm'. unfold Z.div, Z.modulo.
  destruct (Z.div_eucl m' (Zpos my)) as [q r]. reflexivity.
Qed.

Lemma SFdiv_finite_eq (sx : bool) (mx : positive) (ex : Z)
    (sy : bool) (my : positive) (ey : Z) :
  let e' := Z.min (fexp prec emax ((Zpos (digits2_pos mx) + ex)
                                   - (Zpos (digits2_pos my) + ey))) (ex - ey) in
  let m' := Zpos mx * 2 ^ (ex - ey - e') in
  SFdiv prec emax (S754_finite sx mx ex) (S754_finite sy my ey) =
    binary_round_aux prec emax (xorb sx sy) (m' / Zpos my) e'
      (new_location (Zpos my) (m' mod Zpos my)).
Proof.
  intros e' m'. cbn [SFdiv].
  rewrite SFdiv_core_binary_spec. reflexivity.
Qed.

Lemma Zdigits2_quotient (a b : Z) :
  0 <= a -> 0 < b -> Zdigits2 (a / b) <= Z.max 0 (Zdigits2 a - Zdigits2 b + 1).
Proof.
  intros Ha Hb.
  assert (Hq : 0 <= a / b) by (apply Z.div_pos; lia).
  destruct (Z.eq_dec (a / b) 0) as [-> | Hnz]; [cbn; lia | ].
  assert (Hab : b <= a).
  { destruct (Z_lt_le_dec a b) as [Hlt | ]; [ | assumption].
    rewrite Z.div_small in Hnz by lia. lia. }
  pose proof (Zdigits2_bounds a ltac:(lia)) as [_ Hahi].
  pose proof (Zdigits2_bounds b Hb) as [Hblo _].
  pose proof (Zdigits2_pos b Hb) as Hdb.
  assert (Hd : Zdigits2 b - 1 < Zdigits2 a).
  { apply (Z.pow_lt_mono_r_iff 2); [lia | apply Zdigits2_nonneg | lia]. }
  replace (Z.max 0 (Zdigits2 a - Zdigits2 b + 1))
    with (Zdigits2 a - Zdigits2 b + 1) by lia.
  apply Zdigits2_le; [lia | ]. split; [assumption | ].
  apply Z.div_lt_upper_bound; [assumption | ].
  assert (2 ^ Zdigits2 a = 2 ^ (Zdigits2 b - 1) * 2 ^ (Zdigits2 a - Zdigits2 b + 1)).
  { rewrite <- Z.pow_add_r by lia. f_equal. lia. }
  assert (0 < 2 ^ (Zdigits2 a - Zdigits2 b + 1)) by (apply pow2_pos; lia).
  nia.
Qed.

(** A quotient of finite numbers whose dividend is at least 1 in magnitude
    does not underflow to zero. *)
Lemma SFdiv_nonzero (sx : bool) (mx : positive) (ex : Z)
    (sy : bool) (my : positive) (ey : Z) :
  bounded prec emax mx ex = true -> bounded prec emax my ey = true ->
  1 <= Zpos (digits2_pos mx) + ex ->
  SFdiv prec emax (S754_finite sx mx ex) (S754_finite sy my ey)
    = S754_infinity (xorb sx sy) \/
  exists p e', SFdiv prec emax (S754_finite sx mx ex) (S754_finite sy my ey)
               = S754_finite (xorb sx sy) p e'.
Proof.
  intros Hbx Hby Hx. rewrite SFdiv_finite_eq.
  apply bounded_inv in Hbx, Hby.
  set (dx := Zpos (digits2_pos mx)) in *. set (dy := Zpos (digits2_pos my)) in *.
  set (e' := Z.min _ _).
  assert (He' : -1074 <= e' <= dx + ex - (dy + ey) - 1).
  { unfold e'. unfold_format. lia. }
  apply binary_round_aux_nonzero; [ | lia].
  apply Z.div_le_lower_bound; [lia | ].
  pose proof (digits2_pos_bounds mx) as [Hxlo _].
  pose proof (digits2_pos_bounds my) as [_ Hyhi].
  fold dx in Hxlo. fold dy in Hyhi.
  assert (Hs : 0 <= ex - ey - e') by lia.
  assert (Hp : 2 ^ dy <= 2 ^ (dx - 1) * 2 ^ (ex - ey - e')).
  { rewrite <- Z.pow_add_r by (unfold dx; lia).
    apply Z.pow_le_mono_r; lia. }
  pose proof (pow2_pos (ex - ey - e') Hs). nia.
Qed.

(** A quotient of finite numbers whose divisor is at least 2 in magnitude
    does not overflow. *)
Lemma SFdiv_no_overflow (sx : bool) (mx : positive) (ex : Z)
    (sy : bool) (my : positive) (ey : Z) :
  bounded prec emax mx ex = true -> bounded prec emax my ey = true ->
  2 <= Zpos (digits2_pos my) + ey ->
  SFdiv prec emax (S754_finite sx mx ex) (S754_finite sy my ey)
    = S754_zero (xorb sx sy) \/
  exists p e', SFdiv prec emax (S754_finite sx mx ex) (S754_finite sy my ey)
               = S754_finite (xorb sx sy) p e'.
Proof.
  intros Hbx Hby Hy. rewrite SFdiv_finite_eq.
  apply bounded_inv in Hbx, Hby.
  set (dx := Zpos (digits2_pos mx)) in *. set (dy := Zpos (digits2_pos my)) in *.
  set (e' := Z.min _ _).
  assert (He' : e' <= 971 /\ e' <= ex - ey).
  { unfold e'. unfold_format. lia. }
  set (m' := Zpos mx * 2 ^ (ex - ey - e')).
  assert (Hs : 0 <= ex - ey - e') by lia.
  pose proof (pow2_pos _ Hs) as H2s.
  assert (Hm' : 0 <= m') by (unfold m'; lia).
  assert (Hdm' : Zdigits2 m' <= dx + (ex - ey - e')).
  { apply Zdigits2_le; [unfold dx; lia | ]. split; [assumption | ].
    unfold m'. rewrite Z.pow_add_r by (unfold dx; lia).
    pose proof (digits2_pos_bounds mx) as [_ Hxhi]. fold dx in Hxhi. nia. }
  pose proof (Zdigits2_quotient m' (Zpos my) Hm' ltac:(lia)) as Hq.
  cbn [Zdigits2] in Hq. fold dy in Hq.
  apply binary_round_aux_finite; [apply Z.div_pos; lia | lia | lia].
Qed.

(** A quotient of finite numbers whose divisor is above 1 in magnitude, with
    an exponent that is not positive, does not overflow. *)
Lemma SFdiv_above_one (sx : bool) (mx : positive) (ex : Z)
    (sy : bool) (my : positive) (ey : Z) :
  bounded prec emax mx ex = true -> bounded prec emax my ey = true ->
  ey <= 0 -> 2 ^ (- ey) < Zpos my ->
  SFdiv prec emax (S754_finite sx mx ex) (S754_finite sy my ey)
    = S754_zero (xorb sx sy) \/
  exists p e', SFdiv prec emax (S754_finite sx mx ex) (S754_finite sy my ey)
               = S754_finite (xorb sx sy) p e'.
Proof.
  intros Hbx Hby Hey Hy. rewrite SFdiv_finite_eq.
  apply bounded_inv in Hbx, Hby.
  set (dx := Zpos (digits2_pos mx)) in *. set (dy := Zpos (digits2_pos my)) in *.
  set (e' := Z.min _ _).
  assert (He' : e' <= 970 /\ e' <= ex - ey).
  { assert (1 <= dy + ey).
    { assert (- ey < dy); [ | lia].
      apply (Z.pow_lt_mono_r_iff 2); [lia | unfold dy; lia | ].
      pose proof (digits2_pos_bounds my) as [_ Hhi]. fold dy in Hhi. lia. }
    unfold e'. unfold_format. lia. }
  set (s := ex - ey - e').
  assert (Hs : 0 <= s) by (unfold s; lia).
  pose proof (pow2_pos s Hs) as H2s.
  pose proof (pow2_pos (- ey) ltac:(lia)) as H2y.
  pose proof (pow2_pos (971 - e') ltac:(lia)) as H2e.
  set (q := Zpos mx * 2 ^ s / Zpos my).
  assert (Hq : 0 <= q) by (apply Z.div_pos; lia).
  apply binary_round_aux_below_max; [assumption | lia | ].
  pose proof (Z.mul_div_le (Zpos mx * 2 ^ s) (Zpos my) ltac:(lia)) as Hle.
  fold q in Hle.
  pose proof (digits2_pos_bounds mx) as [_ Hxhi]. fold dx in Hxhi.
  assert (Hmx : Zpos mx <= 2 ^ 53 - 1).
  { assert (2 ^ dx <= 2 ^ 53) by (apply Z.pow_le_mono_r; lia). lia. }
  assert (Hpow : 2 ^ s <= 2 ^ (971 - e') * 2 ^ (- ey)).
  { rewrite <- Z.pow_add_r by lia. apply Z.pow_le_mono_r; unfold s; lia. }
  destruct (Z.eq_dec q 0) as [-> | Hq0]; [lia | ].
  assert (q * 2 ^ (- ey) < (2 ^ 53 - 1) * 2 ^ (971 - e') * 2 ^ (- ey)) by nia.
  nia.
Qed.

(** Dividing by one changes nothing. *)
Lemma binary_round_aux_double (s : bool) (m : positive) (e : Z) :
  bounded prec emax m e = true -> Zpos (digits2_pos m) = 53 -> -1074 < e ->
  binary_round_aux prec emax s (Zpos m~0) (e - 1) loc_Exact = S754_finite s m e.
Proof.
  intros Hb Hd He. pose proof (bounded_inv _ _ Hb) as (_ & Hr & _).
  unfold binary_round_aux, shr_fexp. cbn [Zdigits2 digits2_pos shr_record_of_loc].
  rewrite Pos2Z.inj_succ, Hd.
  replace (fexp prec emax (Z.succ 53 + (e - 1)) - (e - 1)) with 1
    by (unfold_format; lia).
  cbn [shr iter_pos shr_1 shr_m loc_of_shr_record orb round_nearest_even].
  cbn [Zdigits2]. rewrite Hd.
  replace (e - 1 + 1) with e by lia.
  replace (fexp prec emax (53 + e) - e) with 0
    by (unfold_format; lia).
  cbn [shr shr_m shr_record_of_loc].
  replace (e <=? emax - prec) with true; [reflexivity | ].
  symmetry. apply Z.leb_le. unfold emax, prec. lia.
Qed.

Lemma SFdiv_one (x : spec_float) :
  valid_binary x = true ->
  SFdiv prec emax x (S754_finite false 4503599627370496 (-52)) = x.
Proof.
  intros Hv. destruct x as [s | s | | s m e]; cbn [SFdiv].
  - rewrite xorb_false_r. reflexivity.
  - rewrite xorb_false_r. reflexivity.
  - reflexivity.
  - cbn [valid_binary] in Hv. pose proof (bounded_inv _ _ Hv) as (Hd & Hr & Hc).
    rewrite SFdiv_core_binary_spec. rewrite xorb_false_r.
    change (Zpos (digits2_pos 4503599627370496)) with 53.
    destruct (Z.eq_dec e (-1074)) as [-> | Hne].
    + replace (Z.min _ _) with (-1074)
        by (unfold_format; lia).
      change (-1074 - -52 - -1074) with 52.
      replace (Zpos m * 2 ^ 52 / 4503599627370496) with (Zpos m)
        by (change 4503599627370496 with (2 ^ 52); rewrite Z.div_mul; lia).
      replace ((Zpos m * 2 ^ 52) mod 4503599627370496) with 0
        by (change 4503599627370496 with (2 ^ 52); rewrite Z.mod_mul; lia).
      change (new_location 4503599627370496 0) with loc_Exact.
      apply binary_round_aux_canonical, Hv.
    + assert (Hd53 : Zpos (digits2_pos m) = 53) by lia.
      replace (Z.min _ _) with (e - 1)
        by (unfold_format; lia).
      replace (e - -52 - (e - 1)) with 53 by lia.
      replace (Zpos m * 2 ^ 53 / 4503599627370496) with (Zpos m~0).
      2:{ change (2 ^ 53) with (2 * 2 ^ 52). change 4503599627370496 with (2 ^ 52).
          rewrite Z.mul_assoc, Z.div_mul; lia. }
      replace ((Zpos m * 2 ^ 53) mod 4503599627370496) with 0.
      2:{ change (2 ^ 53) with (2 * 2 ^ 52). change 4503599627370496 with (2 ^ 52).
          rewrite Z.mul_assoc, Z.mod_mul; lia. }
      change (new_location 4503599627370496 0) with loc_Exact.
      apply binary_round_aux_double; [exact Hv | exact Hd53 | lia].
Qed.

End Division.

(** * Arithmetic on numbers *)

Section Arithmetic.

(** [x / 1] is [x], whatever [x] is. *)
Lemma div_one (x : number) : x / 1 = x.
Proof.
  apply Prim2SF_inj. rewrite div_spec, Prim2SF_1.
  apply SFdiv_one, Prim2SF_valid.
Qed.

(** A zero times a finite number is a zero. *)
Lemma mul_zero_l (a b : number) :
  (a =? 0) = true -> Number_isFinite b = true -> (a * b =? 0) = true.
Proof.
  rewrite !eqb_zero_cases, is_finite_cases, mul_spec.
  intros [sa Ha] [[sb Hb] | (sb & mb & eb & Hb)]; rewrite Ha, Hb;
    cbn; eauto.
Qed.

Lemma mul_zero_r (a b : number) :
  Number_isFinite a = true -> (b =? 0) = true -> (a * b =? 0) = true.
Proof.
  rewrite !eqb_zero_cases, is_finite_cases, mul_spec.
  intros [[sa Ha] | (sa & ma & ea & Ha)] [sb Hb]; rewrite Ha, Hb;
    cbn; eauto.
Qed.

(** A product with a zero factor is a zero or NaN. *)
Lemma mul_zero_or_nan_r (a b : number) :
  (b =? 0) = true -> (a * b =? 0) = true \/ is_nan (a * b) = true.
Proof.
  rewrite !eqb_zero_cases, is_nan_cases, mul_spec.
  intros [sb Hb]. rewrite Hb.
  destruct (Prim2SF a) as [sa | sa | | sa ma ea]; cbn; eauto.
Qed.

(** A product with a factor that is a zero or NaN is a zero or NaN. *)
Lemma mul_zero_or_nan_l (a b : number) :
  (a =? 0) = true \/ is_nan a = true ->
  (a * b =? 0) = true \/ is_nan (a * b) = true.
Proof.
  rewrite !eqb_zero_cases, !is_nan_cases, mul_spec.
  intros [[sa Ha] | Ha]; rewrite Ha;
    destruct (Prim2SF b) as [sb | sb | | sb mb eb]; cbn; eauto.
Qed.

(** Zero percent is a zero rate. *)
Lemma zero_percent (pct : number) : (pct =? 0) = true -> (pct / 100 =? 0) = true.
Proof.
  rewrite !eqb_zero_cases, div_spec, Prim2SF_100.
  intros [s Hs]. rewrite Hs. cbn. eauto.
Qed.

(** A finite percentage is a finite rate. *)
Lemma finite_percent (pct : number) :
  Number_isFinite pct = true -> Number_isFinite (pct / 100) = true.
Proof.
  rewrite !is_finite_cases, div_spec, Prim2SF_100. unfold SF64div.
  intros [[s Hs] | (s & m & e & Hs)]; rewrite Hs.
  - cbn. eauto.
  - pose proof (Prim2SF_bounded _ _ _ _ Hs) as Hb.
    destruct (SFdiv_no_overflow s m e false 7036874417766400 (-46) Hb)
      as [H | (p & e' & H)]; [reflexivity | cbn; lia | | ]; rewrite H; eauto.
Qed.

End Arithmetic.

(** * [Math.ceil] and [Math.round] *)

Section CeilRound.

Local Open Scope Z_scope.

Lemma signed_bound (s : bool) (m : positive) (e : Z) :
  bounded prec emax m e = true -> Z.abs (signed s m) < 2 ^ 53.
Proof.
  intros Hb. apply bounded_inv in Hb. destruct Hb as (Hd & _).
  pose proof (digits2_pos_bounds m) as [_ Hhi].
  assert (2 ^ Zpos (digits2_pos m) <= 2 ^ 53) by (apply Z.pow_le_mono_r; lia).
  unfold signed. destruct s; cbn [cond_Zopp]; lia.
Qed.

(** The integer ceiling of [v / 2^k]. *)
Lemma ceiling_spec (v k : Z) :
  0 < k ->
  let n := - ((- v) / 2 ^ k) in
  (n - 1) * 2 ^ k < v <= n * 2 ^ k.
Proof.
  intros Hk n. pose proof (pow2_pos k ltac:(lia)) as HD.
  pose proof (Z.mul_div_le (- v) (2 ^ k) HD).
  pose proof (Z.mul_succ_div_gt (- v) (2 ^ k) HD).
  unfold n. lia.
Qed.

(** The integer nearest to [v / 2^k], ties going up. *)
Lemma rounding_spec (v k : Z) :
  0 < k ->
  let n := (2 * v + 2 ^ k) / (2 * 2 ^ k) in
  2 * n * 2 ^ k - 2 ^ k <= 2 * v < 2 * n * 2 ^ k + 2 ^ k.
Proof.
  intros Hk n. pose proof (pow2_pos k ltac:(lia)) as HD.
  pose proof (Z.mul_div_le (2 * v + 2 ^ k) (2 * 2 ^ k) ltac:(lia)).
  pose proof (Z.mul_succ_div_gt (2 * v + 2 ^ k) (2 * 2 ^ k) ltac:(lia)).
  unfold n. lia.
Qed.

Lemma pow2_ge_2 (k : Z) : 0 < k -> 2 <= 2 ^ k.
Proof.
  intros Hk. change 2 with (2 ^ 1) at 1. apply Z.pow_le_mono_r; lia.
Qed.

Lemma ceiling_bound (v k : Z) :
  0 < k -> Z.abs v < 2 ^ 53 -> Z.abs (- ((- v) / 2 ^ k)) <= 2 ^ 53 - 1.
Proof.
  intros Hk Hv. pose proof (ceiling_spec v k Hk) as H. cbn zeta in H.
  pose proof (pow2_ge_2 k Hk) as HD.
  set (n := - ((- v) / 2 ^ k)) in *. set (D := 2 ^ k) in *.
  assert (n <= 2 ^ 52) by nia.
  assert (- 2 ^ 52 <= n) by nia.
  lia.
Qed.

Lemma rounding_bound (v k : Z) :
  0 < k -> Z.abs v < 2 ^ 53 ->
  Z.abs ((2 * v + 2 ^ k) / (2 * 2 ^ k)) <= 2 ^ 53 - 1.
Proof.
  intros Hk Hv. pose proof (rounding_spec v k Hk) as H. cbn zeta in H.
  pose proof (pow2_ge_2 k Hk) as HD.
  set (n := (2 * v + 2 ^ k) / (2 * 2 ^ k)) in *. set (D := 2 ^ k) in *.
  assert (n <= 2 ^ 52) by nia.
  assert (- 2 ^ 52 <= n) by nia.
  lia.
Qed.

(** On a finite number with a fractional part, [Math.ceil] returns the
    number whose value is the integer ceiling. *)
Lemma Math_ceil_fractional (x : number) (s : bool) (m : positive) (e : Z) :
  Prim2SF x = S754_finite s m e -> e < 0 ->
  let n := - ((- signed s m) / 2 ^ (- e)) in
  Prim2SF (Math_ceil x) = SFint n s /\
  Z.abs n <= 2 ^ 53 - 1 /\
  (n - 1) * 2 ^ (- e) < signed s m <= n * 2 ^ (- e).
Proof.
  intros Hx He n. pose proof (Prim2SF_bounded _ _ _ _ Hx) as Hb.
  assert (Hn : Z.abs n <= 2 ^ 53 - 1).
  { apply ceiling_bound; [lia | ]. eapply signed_bound, Hb. }
  unfold Math_ceil. rewrite Hx.
  exponent_negative e.
  fold n. split; [apply Prim2SF_of_Z, Hn | ].
  split; [exact Hn | ]. apply ceiling_spec. lia.
Qed.

Lemma Math_round_fractional (x : number) (s : bool) (m : positive) (e : Z) :
  Prim2SF x = S754_finite s m e -> e < 0 ->
  let n := (2 * signed s m + 2 ^ (- e)) / (2 * 2 ^ (- e)) in
  Prim2SF (Math_round x) = SFint n s /\
  Z.abs n <= 2 ^ 53 - 1 /\
  2 * n * 2 ^ (- e) - 2 ^ (- e) <= 2 * signed s m < 2 * n * 2 ^ (- e) + 2 ^ (- e).
Proof.
  intros Hx He n. pose proof (Prim2SF_bounded _ _ _ _ Hx) as Hb.
  assert (Hn : Z.abs n <= 2 ^ 53 - 1).
  { apply rounding_bound; [lia | ]. eapply signed_bound, Hb. }
  unfold Math_round. rewrite Hx.
  exponent_negative e.
  fold n. split; [apply Prim2SF_of_Z, Hn | ].
  split; [exact Hn | ]. apply rounding_spec. lia.
Qed.

(** The canonical form of a positive integer is a positive number of
    magnitude at least 1. *)
Lemma SFint_positive (n : Z) (szero : bool) :
  1 <= n <= 2 ^ 53 - 1 ->
  exists m e, SFint n szero = S754_finite false m e /\
              1 <= Zpos (digits2_pos m) + e.
Proof.
  intros Hn. destruct n as [ | p | p]; try lia. cbn [SFint].
  destruct (SFint_pos_facts false p ltac:(lia)) as (m & Hm & _ & Hd & _).
  exists m, (Zpos (digits2_pos p) - 53). split; [exact Hm | ].
  pose proof (Pos2Z.is_pos (digits2_pos p)). lia.
Qed.

Lemma SFint_nonpositive (n : Z) :
  - (2 ^ 53 - 1) <= n <= 0 ->
  SFint n true = S754_zero true \/ exists m e, SFint n true = S754_finite true m e.
Proof.
  intros Hn. destruct n as [ | p | p]; try lia; cbn [SFint].
  - left; reflexivity.
  - destruct (SFint_pos_facts true p ltac:(lia)) as (m & Hm & _). eauto.
Qed.

Lemma SFint_finite (n : Z) (szero : bool) :
  Z.abs n <= 2 ^ 53 - 1 ->
  SFint n szero = S754_zero szero \/ exists s m e, SFint n szero = S754_finite s m e.
Proof.
  intros Hn. destruct n as [ | p | p]; cbn [SFint].
  - left; reflexivity.
  - destruct (SFint_pos_facts false p ltac:(lia)) as (m & Hm & _). eauto.
  - destruct (SFint_pos_facts true p ltac:(lia)) as (m & Hm & _). eauto.
Qed.

Lemma integral_SFint (x : number) (n : Z) (szero : bool) :
  Z.abs n <= 2 ^ 53 - 1 -> Prim2SF x = SFint n szero -> integral x = true.
Proof.
  intros Hn Hx. unfold integral. rewrite Hx.
  assert (Hpos : forall s p, Zpos p <= 2 ^ 53 - 1 ->
            match SFint_pos s p with
            | S754_zero _ => true
            | S754_finite _ m e => (0 <=? e) || (Zpos m mod 2 ^ (- e) =? 0)
            | _ => false
            end = true).
  { intros s p Hp.
    destruct (SFint_pos_facts s p Hp) as (m & -> & Hv & _).
    apply orb_true_iff. right. apply Z.eqb_eq.
    rewrite Hv. replace (- (Zpos (digits2_pos p) - 53))
      with (53 - Zpos (digits2_pos p)) by lia.
    apply Z.mod_mul. apply Z.pow_nonzero; [lia | ].
    assert (Zpos (digits2_pos p) <= 53) by (apply digits2_pos_le; lia). lia. }
  destruct n as [ | p | p]; cbn [SFint].
  - reflexivity.
  - apply Hpos. lia.
  - apply Hpos. lia.
Qed.

End CeilRound.

(** * Sign and finiteness of the results of [Math.ceil] and [Math.round] *)

Section CeilRoundNumbers.

Lemma gt_zero_SF (x : number) :
  gt x 0 = match Prim2SF x with
           | S754_finite false _ _ | S754_infinity false => true
           | _ => false
           end.
Proof.
  unfold gt. rewrite ltb_spec, Prim2SF_0.
  destruct (Prim2SF x) as [[]|[]| |[] m e]; reflexivity.
Qed.

Lemma isFinite_SF (x : number) :
  Number_isFinite x = match Prim2SF x with
                      | S754_zero _ | S754_finite _ _ _ => true
                      | _ => false
                      end.
Proof.
  destruct (Number_isFinite x) eqn:E.
  - apply is_finite_cases in E.
    destruct E as [[s ->] | (s & m & e & ->)]; reflexivity.
  - destruct (Prim2SF x) as [s | s | | s m e] eqn:Hx; try reflexivity.
    + assert (Number_isFinite x = true) by (apply is_finite_cases; eauto).
      congruence.
    + assert (Number_isFinite x = true) by (apply is_finite_cases; eauto 6).
      congruence.
Qed.

(** [Math.ceil] computes the ceiling and [Math.round] the rounding. *)
Lemma Math_ceil_ceiling (q : number) : ceiling_of q (Math_ceil q).
Proof.
  unfold ceiling_of.
  destruct (Prim2SF q) as [s | s | | s m e] eqn:Hq;
    try (unfold Math_ceil; rewrite Hq; reflexivity).
  destruct (Z.leb_spec 0 e) as [He | He].
  - unfold Math_ceil. rewrite Hq.
    exponent_nonneg e.
    reflexivity.
  - eexists. apply (Math_ceil_fractional q s m e Hq He).
Qed.

Lemma Math_round_rounding (q : number) : rounding_of q (Math_round q).
Proof.
  unfold rounding_of.
  destruct (Prim2SF q) as [s | s | | s m e] eqn:Hq;
    try (unfold Math_round; rewrite Hq; reflexivity).
  destruct (Z.leb_spec 0 e) as [He | He].
  - unfold Math_round. rewrite Hq.
    exponent_nonneg e.
    reflexivity.
  - eexists. apply (Math_round_fractional q s m e Hq He).
Qed.

(** The ceiling of a number is positive exactly when the number is. *)
Lemma Math_ceil_gt_zero (x : number) : gt (Math_ceil x) 0 = gt x 0.
Proof.
  rewrite !gt_zero_SF.
  destruct (Prim2SF x) as [s | s | | s m e] eqn:Hx;
    try (unfold Math_ceil; rewrite Hx, Hx; reflexivity).
  destruct (Z.leb_spec 0 e) as [He | He].
  - unfold Math_ceil. rewrite Hx.
    exponent_nonneg e.
    rewrite Hx. reflexivity.
  - destruct (Math_ceil_fractional x s m e Hx He) as (Hc & Hn & Hlo & Hhi).
    rewrite Hc. pose proof (pow2_pos (- e) ltac:(lia)) as HD.
    set (n := (- (- signed s m / 2 ^ (- e)))%Z) in *.
    destruct s; unfold signed in Hlo, Hhi; cbn [cond_Zopp] in Hlo, Hhi.
    + destruct (SFint_nonpositive n) as [-> | (p & e' & ->)];
        [ | reflexivity | reflexivity]. nia.
    + destruct (SFint_positive n false) as (p & e' & -> & _);
        [ | reflexivity]. nia.
Qed.

(** The ceiling of a positive number is infinite or at least 1. *)
Lemma Math_ceil_positive (x : number) :
  gt x 0 = true ->
  Prim2SF (Math_ceil x) = S754_infinity false \/
  exists m e, Prim2SF (Math_ceil x) = S754_finite false m e /\
              (1 <= Zpos (digits2_pos m) + e)%Z.
Proof.
  rewrite gt_zero_SF.
  destruct (Prim2SF x) as [s | [] | | [] m e] eqn:Hx; try discriminate; intros _.
  - left. unfold Math_ceil. rewrite Hx. exact Hx.
  - right. destruct (Z.leb_spec 0 e) as [He | He].
    + unfold Math_ceil. rewrite Hx.
      exponent_nonneg e.
      exists m, e. split; [exact Hx | ].
      pose proof (Pos2Z.is_pos (digits2_pos m)). lia.
    + destruct (Math_ceil_fractional x false m e Hx He) as (Hc & Hn & Hlo & Hhi).
      rewrite Hc. pose proof (pow2_pos (- e) ltac:(lia)) as HD.
      set (n := (- (- signed false m / 2 ^ (- e)))%Z) in *.
      unfold signed in Hlo, Hhi; cbn [cond_Zopp] in Hlo, Hhi.
      apply SFint_positive. nia.
Qed.

(** [Math.ceil] keeps finite numbers finite, and only those. *)
Lemma Math_ceil_isFinite (x : number) :
  Number_isFinite (Math_ceil x) = Number_isFinite x.
Proof.
  rewrite !isFinite_SF.
  destruct (Prim2SF x) as [s | s | | s m e] eqn:Hx;
    try (unfold Math_ceil; rewrite Hx, Hx; reflexivity).
  destruct (Z.leb_spec 0 e) as [He | He].
  - unfold Math_ceil. rewrite Hx.
    exponent_nonneg e.
    rewrite Hx. reflexivity.
  - destruct (Math_ceil_fractional x s m e Hx He) as (Hc & Hn & _).
    rewrite Hc.
    destruct (SFint_finite _ s Hn) as [-> | (s' & p & e' & ->)]; reflexivity.
Qed.

(** The ceiling and the rounding of a finite number are integers. *)
Lemma integral_Math_ceil (x : number) :
  Number_isFinite x = true -> integral (Math_ceil x) = true.
Proof.
  rewrite isFinite_SF.
  destruct (Prim2SF x) as [s | s | | s m e] eqn:Hx; try discriminate; intros _.
  - unfold Math_ceil, integral. rewrite Hx, Hx. reflexivity.
  - destruct (Z.leb_spec 0 e) as [He | He].
    + unfold Math_ceil, integral. rewrite Hx.
      exponent_nonneg e.
      rewrite Hx.
      exponent_nonneg e.
      reflexivity.
    + destruct (Math_ceil_fractional x s m e Hx He) as (Hc & Hn & _).
      eapply integral_SFint; eassumption.
Qed.

Lemma integral_Math_round (x : number) :
  Number_isFinite x = true -> integral (Math_round x) = true.
Proof.
  rewrite isFinite_SF.
  destruct (Prim2SF x) as [s | s | | s m e] eqn:Hx; try discriminate; intros _.
  - unfold Math_round, integral. rewrite Hx, Hx. reflexivity.
  - destruct (Z.leb_spec 0 e) as [He | He].
    + unfold Math_round, integral. rewrite Hx.
      exponent_nonneg e.
      rewrite Hx.
      exponent_nonneg e.
      reflexivity.
    + destruct (Math_round_fractional x s m e Hx He) as (Hc & Hn & _).
      eapply integral_SFint; eassumption.
Qed.

(** A number strictly between 0 and one half rounds to +0. *)
Lemma Math_round_small (x : number) :
  gt x 0 = true -> (x <? 0.5) = true -> Math_round x = 0.
Proof.
  rewrite gt_zero_SF, ltb_spec, Prim2SF_half.
  destruct (Prim2SF x) as [s | [] | | [] m e] eqn:Hx; try discriminate.
  intros _ Hlt. pose proof (Prim2SF_bounded _ _ _ _ Hx) as Hb.
  pose proof (signed_bound false m e Hb) as Hm.
  unfold signed in Hm. cbn [cond_Zopp] in Hm.
  assert (Hcases : (e < -53 \/ (e = -53 /\ Zpos m < 2 ^ 52))%Z).
  { unfold SFltb in Hlt. cbn [SFcompare] in Hlt.
    destruct (Z.compare_spec e (-53)) as [-> | | ].
    - right. split; [reflexivity | ].
      rewrite Pos.compare_cont_spec in Hlt.
      destruct (Pos.compare_spec m 4503599627370496) as [ | Hlt' | ];
        [discriminate Hlt | | discriminate Hlt].
      apply Pos2Z.pos_lt_pos in Hlt'. clear - Hlt'. lia.
    - left. assumption.
    - discriminate Hlt. }
  assert (Hsmall : (2 * Zpos m < 2 ^ (- e))%Z).
  { destruct Hcases as [He | [-> Hm52]].
    - assert (2 ^ 54 <= 2 ^ (- e))%Z by (apply Z.pow_le_mono_r; lia). lia.
    - change (2 ^ (- -53))%Z with (2 * 2 ^ 52)%Z. lia. }
  unfold Math_round. rewrite Hx.
  exponent_negative e.
  unfold signed. cbn [cond_Zopp].
  rewrite Z.div_small by lia. reflexivity.
Qed.

End CeilRoundNumbers.

(** * Products, quotients and the guard of [monthsToGoal] *)

Section Guard.

(** Both factors of a finite product are finite. *)
Lemma mul_finite_inv (a b : number) :
  Number_isFinite (a * b) = true ->
  Number_isFinite a = true /\ Number_isFinite b = true.
Proof.
  rewrite !isFinite_SF, mul_spec.
  destruct (Prim2SF a) as [sa | sa | | sa ma ea];
    destruct (Prim2SF b) as [sb | sb | | sb mb eb]; cbn; intros H;
    try discriminate; split; reflexivity.
Qed.

(** Neither a zero nor NaN is greater than zero. *)
Lemma gt_zero_false (x : number) :
  (x =? 0) = true \/ is_nan x = true -> gt x 0 = false.
Proof.
  rewrite eqb_zero_cases, is_nan_cases, gt_zero_SF.
  intros [[s ->] | ->]; reflexivity.
Qed.

Lemma leb_zero_not_gt (x : number) : (x <=? 0) = true -> gt x 0 = false.
Proof.
  rewrite leb_zero_cases, gt_zero_SF.
  intros [[s ->] | [(m & e & ->) | ->]]; reflexivity.
Qed.

(** A quotient of a positive number that is at least 1 by a positive finite
    number is positive. *)
Lemma div_positive (c n : number) :
  Prim2SF c = S754_infinity false \/
  (exists m e, Prim2SF c = S754_finite false m e /\
               (1 <= Zpos (digits2_pos m) + e)%Z) ->
  gt n 0 = true -> Number_isFinite n = true ->
  gt (c / n) 0 = true.
Proof.
  intros Hc Hn Hf. rewrite gt_zero_SF in Hn. rewrite isFinite_SF in Hf.
  rewrite gt_zero_SF, div_spec. unfold SF64div.
  destruct (Prim2SF n) as [sn | sn | | [] mn en] eqn:En; try discriminate.
  pose proof (Prim2SF_bounded _ _ _ _ En) as Hbn.
  destruct Hc as [-> | (m & e & Ec & Hd)]; [reflexivity | ].
  pose proof (Prim2SF_bounded _ _ _ _ Ec) as Hbc. rewrite Ec.
  destruct (SFdiv_nonzero false m e false mn en Hbc Hbn Hd)
    as [-> | (p & e' & ->)]; reflexivity.
Qed.

(** The months needed for a positive client count at a positive finite pace
    are positive. *)
Lemma months_positive (t n : number) :
  gt (Math_ceil t) 0 = true -> gt n 0 = true -> Number_isFinite n = true ->
  gt (Math_ceil (Math_ceil t / n)) 0 = true.
Proof.
  intros Ht Hn Hf. rewrite Math_ceil_gt_zero in Ht |- *.
  apply div_positive; [ | assumption | assumption].
  apply Math_ceil_positive, Ht.
Qed.

Lemma ltb_leb (x y : number) : (x <? y) = true -> (x <=? y) = true.
Proof.
  rewrite ltb_spec, leb_spec. unfold SFltb, SFleb.
  destruct (SFcompare (Prim2SF x) (Prim2SF y)) as [[] | ]; congruence.
Qed.

(** A finite number divided by a finite number that is at least 1 is
    finite. *)
Lemma div_at_least_one_finite (x y : number) :
  Number_isFinite x = true -> Number_isFinite y = true -> (1 <=? y) = true ->
  Number_isFinite (x / y) = true.
Proof.
  rewrite !isFinite_SF, leb_spec, Prim2SF_1, div_spec. unfold SF64div.
  destruct (Prim2SF y) as [sy | sy | | [] my ey] eqn:Ey; try discriminate.
  intros Hx _ Hy. pose proof (Prim2SF_bounded _ _ _ _ Ey) as Hby.
  destruct (Prim2SF x) as [sx | sx | | sx mx ex] eqn:Ex; try discriminate;
    [reflexivity | ].
  pose proof (Prim2SF_bounded _ _ _ _ Ex) as Hbx.
  assert (Hfin : forall r : spec_float,
            r = S754_zero (xorb sx false) \/
            (exists p e', r = S754_finite (xorb sx false) p e') ->
            match r with
            | S754_zero _ | S754_finite _ _ _ => true
            | _ => false
            end = true).
  { intros r [-> | (p & e' & ->)]; reflexivity. }
  destruct (Z_le_gt_dec 2 (Zpos (digits2_pos my) + ey)) as [Hbig | Hsmall].
  - apply Hfin, SFdiv_no_overflow; assumption.
  - pose proof (bounded_inv _ _ Hby) as (Hd & Hr & Hc).
    unfold SFleb in Hy. cbn [SFcompare] in Hy.
    destruct (Z.compare_spec (-52) ey) as [<- | Hlt | Hgt];
      [ | lia | discriminate Hy].
    rewrite Pos.compare_cont_spec in Hy.
    destruct (Pos.compare_spec 4503599627370496 my) as [<- | Hlt | Hgt];
      [ | | discriminate Hy].
    + rewrite SFdiv_one; [reflexivity | exact Hbx].
    + apply Hfin, SFdiv_above_one; [exact Hbx | exact Hby | lia | ].
      apply Pos2Z.pos_lt_pos in Hlt. exact Hlt.
Qed.

(** For a price that is a number, the divisor of [clientsNeeded] is the
    larger of 1 and the price, hence at least 1. *)
Lemma price_floor (p : number) :
  is_nan p = false ->
  Math_max [1; p] = (if 1 <? p then p else 1) /\
  (1 <=? Math_max [1; p]) = true.
Proof.
  intros Hp. rewrite Math_max_one, Hp. split; [reflexivity | ].
  destruct (1 <? p) eqn:E; [apply ltb_leb, E | reflexivity].
Qed.

Lemma finite_not_nan (x : number) : Number_isFinite x = true -> is_nan x = false.
Proof.
  unfold Number_isFinite, is_finite. destruct (is_nan x); [discriminate | reflexivity].
Qed.

(** For a finite target and a finite price, the clients needed are a
    finite integer. *)
Lemma clientsNeeded_finite (target price : number) :
  Number_isFinite target = true -> Number_isFinite price = true ->
  Number_isFinite (Math_ceil (target / Math_max [1; price])) = true /\
  integral (Math_ceil (target / Math_max [1; price])) = true.
Proof.
  intros Ht Hp.
  destruct (price_floor price (finite_not_nan _ Hp)) as [Hmax Hge].
  assert (Hq : Number_isFinite (target / Math_max [1; price]) = true).
  { apply div_at_least_one_finite; [exact Ht | | exact Hge].
    rewrite Hmax. destruct (1 <? price); [exact Hp | reflexivity]. }
  split; [rewrite Math_ceil_isFinite; exact Hq | apply integral_Math_ceil, Hq].
Qed.

(** A price that is at most zero is replaced by 1. *)
Lemma price_floor_nonpositive (p : number) :
  (p <=? 0) = true -> Math_max [1; p] = 1.
Proof.
  intros Hp. rewrite Math_max_one.
  assert (Hnan : is_nan p = false).
  { destruct (is_nan p) eqn:E; [ | reflexivity].
    apply is_nan_cases in E. apply leb_zero_cases in Hp.
    destruct Hp as [[s H] | [(m & e & H) | H]]; congruence. }
  rewrite Hnan. rewrite ltb_spec, Prim2SF_1.
  apply leb_zero_cases in Hp.
  destruct Hp as [[s ->] | [(m & e & ->) | ->]]; reflexivity.
Qed.

End Guard.

(** * The projection engine *)

Section Engine.

(** A number read from the address is finite when its fallback is. *)
Lemma numberFromQuery_finite (ToNumber : string -> number)
    (q : URLSearchParams) (key : string) (fallback : number) :
  Number_isFinite fallback = true ->
  Number_isFinite (numberFromQuery ToNumber q key fallback) = true.
Proof.
  intros Hf. unfold numberFromQuery.
  destruct (URLSearchParams_get q key) as [[ | c raw] | ]; try exact Hf.
  cbn zeta. destruct (Number_isFinite (ToNumber (String c raw))) eqn:E;
    [exact E | exact Hf].
Qed.

(** Both pages start from seven finite numbers, the defaults when the
    address carries no query. *)
Lemma initialState_finite (ToNumber : string -> number) (q : URLSearchParams) :
  finite_state (initialState_aligned ToNumber q) = true /\
  finite_state (initialState_unrounded ToNumber q) = true /\
  initialState_aligned ToNumber [] = defaults_aligned /\
  initialState_unrounded ToNumber [] = defaults_unrounded.
Proof.
  unfold finite_state, initialState_aligned, initialState_unrounded.
  cbn [targetMonthlyRevenue pricePerClient videosPerMonth avgViewsPerVideo
       viewToBookingRatePct showRatePct closeRatePct].
  rewrite !numberFromQuery_finite by reflexivity.
  repeat split.
Qed.

(** Two numbers with different binary64 representations are different. *)
Lemma number_neq (x y : number) : Prim2SF x <> Prim2SF y -> x <> y.
Proof. intros H E. apply H. rewrite E. reflexivity. Qed.

(** Claim C1.  For every record of seven finite numbers, both versions compute
    clientsNeeded = ceil(targetMonthlyRevenue / max(1, pricePerClient)),
    monthlyReach = videosPerMonth * avgViewsPerVideo, bookingsPerMonth =
    monthlyReach * (viewToBookingRatePct / 100), showsPerMonth =
    bookingsPerMonth * (showRatePct / 100) and newClientsPerMonth =
    showsPerMonth * (closeRatePct / 100), the last one left unrounded.  The
    operations are those of binary64 numbers; the divisor max(1,
    pricePerClient) is the larger of 1 and the price, hence at least 1, and
    clientsNeeded is the ceiling of the quotient: a finite integer, the least
    one not below the quotient. *)
Theorem computeProjection_derivation (s : CalculatorState) :
  finite_state s = true ->
  derivation s (Aligned.computeProjection s) /\
  derivation s (Unrounded.computeProjection s) /\
  Math_max [1; pricePerClient s]
    = (if 1 <? pricePerClient s then pricePerClient s else 1) /\
  (1 <=? Math_max [1; pricePerClient s]) = true /\
  ceiling_of (targetMonthlyRevenue s / Math_max [1; pricePerClient s])
             (clientsNeeded (Aligned.computeProjection s)) /\
  ceiling_of (targetMonthlyRevenue s / Math_max [1; pricePerClient s])
             (clientsNeeded (Unrounded.computeProjection s)) /\
  Number_isFinite (clientsNeeded (Aligned.computeProjection s)) = true /\
  integral (clientsNeeded (Aligned.computeProjection s)) = true /\
  Number_isFinite (clientsNeeded (Unrounded.computeProjection s)) = true /\
  integral (clientsNeeded (Unrounded.computeProjection s)) = true.
Proof.
  intros Hfin. unfold finite_state in Hfin.
  repeat (apply andb_true_iff in Hfin; destruct Hfin as [Hfin ?]).
  assert (Hneeded := clientsNeeded_finite (targetMonthlyRevenue s)
                       (pricePerClient s) ltac:(assumption) ltac:(assumption)).
  split; [repeat split | split; [repeat split | ]].
  rewrite <- and_assoc. split; [apply price_floor, finite_not_nan; assumption | ].
  split; [apply Math_ceil_ceiling | ]. split; [apply Math_ceil_ceiling | ].
  split; [apply Hneeded | ]. split; [apply Hneeded | ]. exact Hneeded.
Qed.

Lemma computeProjection_derivation_witness :
  finite_state defaults_aligned = true /\
  derivation defaults_aligned (Aligned.computeProjection defaults_aligned) /\
  newClientsPerMonth (Aligned.computeProjection defaults_aligned) = 23.04 /\
  integral (newClientsPerMonth (Aligned.computeProjection defaults_aligned)) = false.
Proof.
  split; [reflexivity | ]. split; [ | split; reflexivity].
  apply (computeProjection_derivation defaults_aligned). reflexivity.
Defined.

(** Claim C2, as the code has it.  When newClientsPerMonth > 0, monthsToGoal is
    ceil(clientsNeeded / newClientsPerMonth); otherwise it is the marker
    Infinity, which is not zero, not an integer and not a finite number.  When
    one of the three percentages is zero, monthsToGoal is that marker and
    newClientsPerMonth is a zero or NaN; it is a zero whenever the inputs are
    finite and showsPerMonth is finite, that is, when no product overflowed,
    and it is NaN when monthlyReach, bookingsPerMonth or showsPerMonth is not
    finite, as when monthlyReach overflowed to Infinity. *)
Theorem monthsToGoal_cases (s : CalculatorState) :
  months_guarded (Aligned.computeProjection s) /\
  months_guarded (Unrounded.computeProjection s) /\
  (some_rate_zero s = true ->
   zero_rate_outcome s (Aligned.computeProjection s) /\
   zero_rate_outcome s (Unrounded.computeProjection s)) /\
  Number_isFinite Infinity = false /\
  (Infinity =? 0) = false /\
  integral Infinity = false.
Proof.
  assert (Hg : months_guarded (Aligned.computeProjection s)).
  { unfold months_guarded. cbn [Aligned.computeProjection monthsToGoal
      newClientsPerMonth clientsNeeded].
    split; intros H; rewrite H; reflexivity. }
  split; [exact Hg | ]. split; [exact Hg | ].
  split; [ | repeat split].
  intros Hz.
  assert (Ho : zero_rate_outcome s (Aligned.computeProjection s));
    [ | split; exact Ho].
  unfold zero_rate_outcome, some_product_overflowed.
  cbn [Aligned.computeProjection monthsToGoal newClientsPerMonth showsPerMonth
       bookingsPerMonth monthlyReach].
  set (reach := videosPerMonth s * avgViewsPerVideo s).
  set (vb := viewToBookingRatePct s / 100).
  set (sh := showRatePct s / 100).
  set (cl := closeRatePct s / 100).
  assert (Hcases : (reach * vb * sh * cl =? 0) = true \/
                   is_nan (reach * vb * sh * cl) = true).
  { unfold some_rate_zero in Hz.
    apply orb_true_iff in Hz. destruct Hz as [Hz | Hz];
      [apply orb_true_iff in Hz; destruct Hz as [Hz | Hz] | ].
    - apply mul_zero_or_nan_l, mul_zero_or_nan_l, mul_zero_or_nan_r.
      apply zero_percent, Hz.
    - apply mul_zero_or_nan_l, mul_zero_or_nan_r. apply zero_percent, Hz.
    - apply mul_zero_or_nan_r. apply zero_percent, Hz. }
  split; [rewrite (gt_zero_false _ Hcases); reflexivity | ].
  split; [exact Hcases | ].
  split.
  2: { intros Hover.
       assert (Hpace : Number_isFinite (reach * vb * sh * cl) = false).
       { destruct (Number_isFinite (reach * vb * sh * cl)) eqn:Hp; [ | reflexivity].
         destruct (mul_finite_inv _ _ Hp) as [Hshows _].
         destruct (mul_finite_inv _ _ Hshows) as [Hbook _].
         destruct (mul_finite_inv _ _ Hbook) as [Hreach _].
         destruct Hover as [H | [H | H]]; congruence. }
       destruct Hcases as [Hzero | Hnan]; [ | exact Hnan].
       apply eqb_zero_cases in Hzero. destruct Hzero as [z Hzero].
       rewrite isFinite_SF, Hzero in Hpace. discriminate. }
  intros Hfin Hshows.
  destruct (mul_finite_inv _ _ Hshows) as [Hbook Hsh].
  destruct (mul_finite_inv _ _ Hbook) as [Hreach Hvb].
  assert (Hcl : Number_isFinite cl = true).
  { apply finite_percent. unfold finite_state in Hfin.
    apply andb_true_iff in Hfin. apply Hfin. }
  unfold some_rate_zero in Hz.
  apply orb_true_iff in Hz. destruct Hz as [Hz | Hz];
    [apply orb_true_iff in Hz; destruct Hz as [Hz | Hz] | ].
  - apply mul_zero_l; [ | exact Hcl]. apply mul_zero_l; [ | exact Hsh].
    apply mul_zero_r; [exact Hreach | ]. apply zero_percent, Hz.
  - apply mul_zero_l; [ | exact Hcl].
    apply mul_zero_r; [exact Hbook | ]. apply zero_percent, Hz.
  - apply mul_zero_r; [exact Hshows | ]. apply zero_percent, Hz.
Qed.

Lemma monthsToGoal_cases_witness :
  monthsToGoal (Aligned.computeProjection defaults_aligned) = 5 /\
  monthsToGoal (Aligned.computeProjection negative_close) = Infinity /\
  monthsToGoal (Aligned.computeProjection never_closing) = Infinity /\
  (newClientsPerMonth (Aligned.computeProjection never_closing) =? 0) = true /\
  some_rate_zero overflowing_reach = true /\
  Number_isFinite (monthlyReach (Unrounded.computeProjection overflowing_reach))
    = false /\
  monthsToGoal (Unrounded.computeProjection overflowing_reach) = Infinity /\
  is_nan (newClientsPerMonth (Unrounded.computeProjection overflowing_reach)) = true.
Proof.
  destruct (monthsToGoal_cases defaults_aligned) as ((Hpos & _) & _).
  destruct (monthsToGoal_cases negative_close) as ((_ & Hneg) & _).
  destruct (monthsToGoal_cases never_closing) as (_ & _ & Hzero & _).
  destruct (Hzero eq_refl) as ((Hmarker & _ & Hpace & _) & _).
  destruct (monthsToGoal_cases overflowing_reach) as (_ & _ & Hover & _).
  destruct (Hover eq_refl) as (_ & (Hnever & _ & _ & Hnan)).
  split; [rewrite (Hpos eq_refl); reflexivity | ].
  split; [exact (Hneg eq_refl) | ].
  split; [exact Hmarker | ].
  split; [exact (Hpace eq_refl eq_refl) | ].
  split; [reflexivity | ]. split; [reflexivity | ].
  split; [exact Hnever | ].
  apply Hnan. left. reflexivity.
Defined.

(** Against claim C2 as stated: with finite inputs and a zero percentage,
    newClientsPerMonth is NaN, not zero, once monthlyReach overflows. *)
Lemma zero_rate_pace_is_nan :
  finite_state overflowing_reach = true /\
  (viewToBookingRatePct overflowing_reach =? 0) = true /\
  monthlyReach (Aligned.computeProjection overflowing_reach) = Infinity /\
  newClientsPerMonth (Aligned.computeProjection overflowing_reach) = NaN /\
  (newClientsPerMonth (Aligned.computeProjection overflowing_reach) =? 0) = false /\
  (newClientsPerMonth (Unrounded.computeProjection overflowing_reach) =? 0) = false.
Proof. repeat split. Qed.

(** The numeric branch can return the marker as well: the quotient
    overflows when the goal is huge and the pace tiny. *)
Lemma numeric_branch_returns_marker :
  finite_state overflowing_months = true /\
  gt (newClientsPerMonth (Aligned.computeProjection overflowing_months)) 0 = true /\
  monthsToGoal (Aligned.computeProjection overflowing_months) = Infinity.
Proof. repeat split. Qed.

(** Claim C3, as the code has it.  For finite inputs with pricePerClient <= 0
    the divisor max(1, pricePerClient) is 1, never zero or negative, so
    clientsNeeded = ceil(targetMonthlyRevenue / 1) = ceil(targetMonthlyRevenue):
    the division does not fail and the result is a finite integer, which is
    positive exactly when targetMonthlyRevenue is. *)
Theorem clientsNeeded_unit_divisor (s : CalculatorState) :
  finite_state s = true -> (pricePerClient s <=? 0) = true ->
  Math_max [1; pricePerClient s] = 1 /\
  targetMonthlyRevenue s / 1 = targetMonthlyRevenue s /\
  unit_divisor_outcome s (Aligned.computeProjection s) /\
  unit_divisor_outcome s (Unrounded.computeProjection s).
Proof.
  intros Hfin Hprice.
  assert (Htarget : Number_isFinite (targetMonthlyRevenue s) = true).
  { unfold finite_state in Hfin.
    repeat (apply andb_true_iff in Hfin; destruct Hfin as [Hfin _]).
    exact Hfin. }
  pose proof (price_floor_nonpositive _ Hprice) as Hmax.
  split; [exact Hmax | ]. split; [apply div_one | ].
  assert (Ho : unit_divisor_outcome s (Aligned.computeProjection s));
    [ | split; exact Ho].
  unfold unit_divisor_outcome. cbn [Aligned.computeProjection clientsNeeded].
  rewrite Hmax, div_one. repeat split.
  - rewrite Math_ceil_isFinite. exact Htarget.
  - apply integral_Math_ceil, Htarget.
  - apply Math_ceil_gt_zero.
Qed.

Lemma clientsNeeded_unit_divisor_witness :
  clientsNeeded (Aligned.computeProjection (with_goal 50000 0)) = 50000 /\
  clientsNeeded (Unrounded.computeProjection (with_goal 50000.5 (-20))) = 50001.
Proof.
  destruct (clientsNeeded_unit_divisor (with_goal 50000 0) eq_refl eq_refl)
    as (_ & _ & (_ & H1 & _) & _).
  destruct (clientsNeeded_unit_divisor (with_goal 50000.5 (-20)) eq_refl eq_refl)
    as (_ & _ & _ & (_ & H2 & _)).
  split; [rewrite H1 | rewrite H2]; reflexivity.
Defined.

(** Against claim C3 as stated: with a price of zero, a target of zero gives
    zero clients needed and a negative target a negative count. *)
Lemma clientsNeeded_zero_or_negative :
  finite_state (with_goal 0 0) = true /\
  (pricePerClient (with_goal 0 0) <=? 0) = true /\
  clientsNeeded (Aligned.computeProjection (with_goal 0 0)) = 0 /\
  clientsNeeded (Unrounded.computeProjection (with_goal 0 0)) = 0 /\
  finite_state (with_goal (-50000) 0) = true /\
  clientsNeeded (Aligned.computeProjection (with_goal (-50000) 0)) = -50000 /\
  (-50000 <? 0) = true.
Proof. repeat split. Qed.

(** Claim C4.  The two versions agree on clientsNeeded, monthlyReach,
    bookingsPerMonth, showsPerMonth, newClientsPerMonth and monthsToGoal for
    every input; the aligned one has newMRR = round(newClientsPerMonth) *
    pricePerClient, the other newMRR = newClientsPerMonth * pricePerClient, and
    on the default inputs the two values of newMRR differ. *)
Theorem variants_agree_except_newMRR :
  (forall s : CalculatorState,
     clientsNeeded (Aligned.computeProjection s)
       = clientsNeeded (Unrounded.computeProjection s) /\
     monthlyReach (Aligned.computeProjection s)
       = monthlyReach (Unrounded.computeProjection s) /\
     bookingsPerMonth (Aligned.computeProjection s)
       = bookingsPerMonth (Unrounded.computeProjection s) /\
     showsPerMonth (Aligned.computeProjection s)
       = showsPerMonth (Unrounded.computeProjection s) /\
     newClientsPerMonth (Aligned.computeProjection s)
       = newClientsPerMonth (Unrounded.computeProjection s) /\
     monthsToGoal (Aligned.computeProjection s)
       = monthsToGoal (Unrounded.computeProjection s) /\
     newMRR (Aligned.computeProjection s)
       = Math_round (newClientsPerMonth (Aligned.computeProjection s))
         * pricePerClient s /\
     newMRR (Unrounded.computeProjection s)
       = newClientsPerMonth (Unrounded.computeProjection s) * pricePerClient s) /\
  (exists s : CalculatorState,
     finite_state s = true /\
     newMRR (Aligned.computeProjection s) = 11500 /\
     newMRR (Unrounded.computeProjection s) = 11520 /\
     newMRR (Aligned.computeProjection s)
       <> newMRR (Unrounded.computeProjection s)).
Proof.
  split.
  - intros s. repeat split.
  - exists defaults_aligned. repeat split.
    apply number_neq. vm_compute. discriminate.
Qed.

(** Claim C5, as the code computes it.  On (50000, 500, 12, 1000, 0.8, 60, 40)
    the result is clientsNeeded 100, monthlyReach 12000, bookingsPerMonth 96,
    showsPerMonth 57.599999999999994, newClientsPerMonth 23.04, newMRR 11500
    in the aligned version (11520 in the other) and monthsToGoal 5.  On
    (50000, 2000, 12, 1500, 2, 70, 25) it is clientsNeeded 25, monthlyReach
    18000, bookingsPerMonth 360, showsPerMonth 251.99999999999997,
    newClientsPerMonth 62.99999999999999, newMRR 126000 in the aligned version
    (125999.99999999999 in the other) and monthsToGoal 1.  The values that
    are not the decimal ones of the examples are the binary64 numbers just
    below 57.6, 252, 63 and 126000. *)
Theorem worked_examples :
  Aligned.computeProjection defaults_aligned =
    {| clientsNeeded := 100; monthlyReach := 12000; bookingsPerMonth := 96;
       showsPerMonth := 57.599999999999994; newClientsPerMonth := 23.04;
       newMRR := 11500; monthsToGoal := 5 |} /\
  Unrounded.computeProjection defaults_aligned =
    {| clientsNeeded := 100; monthlyReach := 12000; bookingsPerMonth := 96;
       showsPerMonth := 57.599999999999994; newClientsPerMonth := 23.04;
       newMRR := 11520; monthsToGoal := 5 |} /\
  Aligned.computeProjection defaults_unrounded =
    {| clientsNeeded := 25; monthlyReach := 18000; bookingsPerMonth := 360;
       showsPerMonth := 251.99999999999997;
       newClientsPerMonth := 62.99999999999999;
       newMRR := 126000; monthsToGoal := 1 |} /\
  Unrounded.computeProjection defaults_unrounded =
    {| clientsNeeded := 25; monthlyReach := 18000; bookingsPerMonth := 360;
       showsPerMonth := 251.99999999999997;
       newClientsPerMonth := 62.99999999999999;
       newMRR := 125999.99999999999; monthsToGoal := 1 |} /\
  next_up 57.599999999999994 = 57.6 /\
  next_up 251.99999999999997 = 252 /\
  next_up 62.99999999999999 = 63 /\
  next_up 125999.99999999999 = 126000.
Proof. repeat split. Qed.

(** Against claim C5 as stated: showsPerMonth of the first example is below
    57.6, and showsPerMonth and newClientsPerMonth of the second are below
    252 and 63. *)
Lemma worked_examples_not_decimal :
  (showsPerMonth (Aligned.computeProjection defaults_aligned) <? 57.6) = true /\
  (showsPerMonth (Aligned.computeProjection defaults_unrounded) <? 252) = true /\
  (newClientsPerMonth (Aligned.computeProjection defaults_unrounded) <? 63) = true /\
  (showsPerMonth (Unrounded.computeProjection defaults_unrounded) <? 252) = true /\
  (newClientsPerMonth (Unrounded.computeProjection defaults_unrounded) <? 63) = true /\
  (newMRR (Unrounded.computeProjection defaults_unrounded) <? 126000) = true.
Proof. repeat split. Qed.

(** A positive number below one half is finite. *)
Lemma small_positive_finite (x : number) :
  gt x 0 = true -> (x <? 0.5) = true -> Number_isFinite x = true.
Proof.
  rewrite gt_zero_SF, isFinite_SF, ltb_spec, Prim2SF_half.
  destruct (Prim2SF x) as [s | [] | | [] m e]; try discriminate; reflexivity.
Qed.

Lemma strict_guard_aligned (s : CalculatorState) :
  strict_guard (Aligned.computeProjection s).
Proof.
  unfold strict_guard.
  cbn [Aligned.computeProjection monthsToGoal newClientsPerMonth clientsNeeded].
  set (pace := videosPerMonth s * avgViewsPerVideo s
               * (viewToBookingRatePct s / 100) * (showRatePct s / 100)
               * (closeRatePct s / 100)).
  split; [ | split].
  - intros H. rewrite (leb_zero_not_gt _ H). reflexivity.
  - intros H. rewrite (gt_zero_false pace (or_intror H)). reflexivity.
  - intros Hpos Hfin Hneeded. rewrite Hpos.
    apply months_positive; assumption.
Qed.

(** Claim C10, as the code has it.  The guard of monthsToGoal is strict
    positivity: whenever newClientsPerMonth <= 0, negative values included, or
    newClientsPerMonth is NaN, monthsToGoal is the marker Infinity.  Past the
    guard, monthsToGoal is positive whenever clientsNeeded is positive and
    newClientsPerMonth is finite. *)
Theorem monthsToGoal_strict_guard (s : CalculatorState) :
  strict_guard (Aligned.computeProjection s) /\
  strict_guard (Unrounded.computeProjection s).
Proof. split; apply strict_guard_aligned. Qed.

Lemma monthsToGoal_strict_guard_witness :
  monthsToGoal (Aligned.computeProjection negative_close) = Infinity /\
  monthsToGoal (Unrounded.computeProjection never_closing) = Infinity /\
  gt (monthsToGoal (Aligned.computeProjection defaults_aligned)) 0 = true.
Proof.
  destruct (monthsToGoal_strict_guard negative_close) as ((Hneg & _) & _).
  destruct (monthsToGoal_strict_guard never_closing) as (_ & (Hzero & _)).
  destruct (monthsToGoal_strict_guard defaults_aligned) as ((_ & _ & Hpos) & _).
  split; [exact (Hneg eq_refl) | ].
  split; [exact (Hzero eq_refl) | exact (Hpos eq_refl eq_refl eq_refl)].
Defined.

(** Against claim C10 as stated: with finite inputs and a positive pace,
    monthsToGoal is the number 0 when the target is 0 and a negative number
    when the target is negative; it is 0 as well when the pace overflowed to
    Infinity. *)
Lemma monthsToGoal_zero_or_negative :
  finite_state (with_goal 0 500) = true /\
  gt (newClientsPerMonth (Aligned.computeProjection (with_goal 0 500))) 0 = true /\
  monthsToGoal (Aligned.computeProjection (with_goal 0 500)) = 0 /\
  monthsToGoal (Unrounded.computeProjection (with_goal 0 500)) = 0 /\
  finite_state (with_goal (-50000) 500) = true /\
  monthsToGoal (Aligned.computeProjection (with_goal (-50000) 500)) = -4 /\
  (-4 <? 0) = true /\
  finite_state overflowing_pace = true /\
  newClientsPerMonth (Aligned.computeProjection overflowing_pace) = Infinity /\
  monthsToGoal (Aligned.computeProjection overflowing_pace) = 0.
Proof. repeat split. Qed.

(** Claim C9, as the code has it.  In the aligned version newMRR =
    round(newClientsPerMonth) * pricePerClient, where the rounded count is an
    integer whenever newClientsPerMonth is finite.  For every input with a
    finite price and 0 < newClientsPerMonth < 0.5, newMRR is zero although
    newClientsPerMonth is positive, and monthsToGoal is positive as well
    whenever clientsNeeded is. *)
Theorem aligned_newMRR (s : CalculatorState) :
  newMRR (Aligned.computeProjection s)
    = Math_round (newClientsPerMonth (Aligned.computeProjection s))
      * pricePerClient s /\
  rounding_of (newClientsPerMonth (Aligned.computeProjection s))
              (Math_round (newClientsPerMonth (Aligned.computeProjection s))) /\
  (Number_isFinite (newClientsPerMonth (Aligned.computeProjection s)) = true ->
   integral (Math_round (newClientsPerMonth (Aligned.computeProjection s))) = true) /\
  (Number_isFinite (pricePerClient s) = true ->
   gt (newClientsPerMonth (Aligned.computeProjection s)) 0 = true ->
   (newClientsPerMonth (Aligned.computeProjection s) <? 0.5) = true ->
   (newMRR (Aligned.computeProjection s) =? 0) = true /\
   (gt (clientsNeeded (Aligned.computeProjection s)) 0 = true ->
    gt (monthsToGoal (Aligned.computeProjection s)) 0 = true)).
Proof.
  split; [reflexivity | ]. split; [apply Math_round_rounding | ].
  split; [apply integral_Math_round | ].
  intros Hprice Hpos Hsmall. split.
  - cbn [Aligned.computeProjection newMRR newClientsPerMonth] in *.
    rewrite (Math_round_small _ Hpos Hsmall).
    apply mul_zero_l; [reflexivity | exact Hprice].
  - intros Hneeded.
    destruct (strict_guard_aligned s) as (_ & _ & H).
    apply H; [exact Hpos | | exact Hneeded].
    apply small_positive_finite; assumption.
Qed.

Lemma aligned_newMRR_witness :
  newClientsPerMonth (Aligned.computeProjection (slow_pace 50000)) = 0.3 /\
  (newMRR (Aligned.computeProjection (slow_pace 50000)) =? 0) = true /\
  gt (monthsToGoal (Aligned.computeProjection (slow_pace 50000))) 0 = true /\
  monthsToGoal (Aligned.computeProjection (slow_pace 50000)) = 334.
Proof.
  destruct (aligned_newMRR (slow_pace 50000)) as (_ & _ & _ & H).
  destruct (H eq_refl eq_refl eq_refl) as [Hmrr Hmonths].
  split; [reflexivity | ]. split; [exact Hmrr | ].
  split; [exact (Hmonths eq_refl) | reflexivity].
Defined.

(** Against claim C9 as stated: with a target of zero and 0.3 new clients a
    month, newMRR is zero and newClientsPerMonth positive, but monthsToGoal is
    zero, not positive. *)
Lemma slow_pace_zero_months :
  finite_state (slow_pace 0) = true /\
  gt (newClientsPerMonth (Aligned.computeProjection (slow_pace 0))) 0 = true /\
  (newClientsPerMonth (Aligned.computeProjection (slow_pace 0)) <? 0.5) = true /\
  (newMRR (Aligned.computeProjection (slow_pace 0)) =? 0) = true /\
  monthsToGoal (Aligned.computeProjection (slow_pace 0)) = 0 /\
  gt (monthsToGoal (Aligned.computeProjection (slow_pace 0))) 0 = false.
Proof. repeat split. Qed.

End Engine.

(** * The subscribe route *)

Section Subscribe.

Import Route.
Local Open Scope string_scope.

Lemma append_assoc (a b c : string) : (a ++ b) ++ c = a ++ (b ++ c).
Proof. induction a as [ | x a IH]; cbn; [reflexivity | rewrite IH; reflexivity]. Qed.

Lemma append_nil_r (a : string) : a ++ EmptyString = a.
Proof. induction a as [ | x a IH]; cbn; [reflexivity | rewrite IH; reflexivity]. Qed.

(** The handler on a body that has no usable email. *)
Lemma handle_invalid_email (w : World) :
  email_is_nonempty_string w = false ->
  exists r, handle w = (Returned r, []) /\ status r = 400%Z.
Proof.
  unfold email_is_nonempty_string, email_of, handle, POST, try_catch, bind.
  destruct (request_json w) as [[ | b | n | e | items | fields] | ]; cbn.
  all: try (intros _; eexists; split; reflexivity).
  destruct (lookup "email" fields) as [[ | b | n | e | items | fields'] | ]; cbn.
  all: try (intros _; eexists; split; reflexivity).
  - destruct b; cbn; intros _; eexists; split; reflexivity.
  - rewrite orb_true_r. intros _; eexists; split; reflexivity.
  - destruct (String.eqb e EmptyString); cbn; [ | discriminate].
    intros _; eexists; split; reflexivity.
Qed.

(** The handler on a body whose email is a non-empty string. *)
Lemma handle_valid_email (w : World) (e : string) :
  email_of w = Some (JString e) -> e <> EmptyString ->
  (webhook_configured w = false ->
   exists r, handle w = (Returned r, []) /\ status r = 500%Z) /\
  (forall u, SUBSCRIBE_WEBHOOK_URL w = Some u -> u <> EmptyString ->
   handle w =
     (if fetch_resolves w (forward_call u e (payload_of w))
      then Returned ok_response
      else Returned {| status := 400;
                       body := JObject [("ok", JBool false);
                                        ("error", JString "Bad request")] |},
      [forward_call u e (payload_of w)])).
Proof.
  unfold email_of, payload_of, webhook_configured, handle, POST, try_catch, bind.
  destruct (request_json w) as [[ | b | n | e' | items | fields] | ];
    try discriminate.
  intros Hemail Hne. cbn. rewrite Hemail. cbn.
  apply String.eqb_neq in Hne. rewrite Hne. cbn.
  split.
  - destruct (SUBSCRIBE_WEBHOOK_URL w) as [[ | c u] | ];
      try discriminate; intros _; eexists; split; reflexivity.
  - intros u -> Hu. destruct u as [ | c u]; [contradiction | ].
    unfold fetch, forward_call, forwarded_body, source_tag, ret. cbn.
    destruct (fetch_resolves w _); reflexivity.
Qed.

Lemma nonempty_string_email (w : World) :
  email_is_nonempty_string w = true ->
  exists e, email_of w = Some (JString e) /\ e <> EmptyString.
Proof.
  unfold email_is_nonempty_string.
  destruct (email_of w) as [[ | b | n | e | items | fields] | ];
    try discriminate.
  intros H. exists e. split; [reflexivity | ].
  apply String.eqb_neq. destruct (String.eqb e EmptyString); [discriminate | reflexivity].
Qed.

(** The three properties of the forwarded object are written in the order
    of the object literal. *)
Lemma own_properties_forwarded {A : Type} (a b c : A) :
  own_properties [("email", a); ("payload", b); ("source", c)]
    = [("email", a); ("payload", b); ("source", c)].
Proof. reflexivity. Qed.

(** The text of a value is the text of what it denotes. *)
Lemma stringify_written :
  forall v : json, SerializeJSONProperty (written v) = SerializeJSONProperty v.
Proof.
  fix IH 1. intros [ | b | n | t | items | fields];
    cbn [written SerializeJSONProperty]; try reflexivity.
  - destruct (Number_isFinite n) eqn:Hn; cbn [SerializeJSONProperty];
      [ | reflexivity].
    destruct (n =? 0)%float eqn:Hz; [ | rewrite Hn; reflexivity].
    apply eqb_zero_cases in Hz. destruct Hz as [z Hz].
    unfold Number_toString. rewrite Hz. reflexivity.
  - f_equal. f_equal. f_equal.
    induction items as [ | x items IHitems]; [reflexivity | ].
    cbn [map]. rewrite IH, IHitems. reflexivity.
  - f_equal. f_equal. f_equal. f_equal. f_equal.
    induction fields as [ | [k w] fields IHfields]; [reflexivity | ].
    cbn [map]. rewrite IH, IHfields. reflexivity.
Qed.

(** The text that is forwarded, member by member. *)
Lemma forwarded_text (u e : string) (payload : value) :
  fetch_body (forward_call u e payload) =
    "{" ++ QuoteJSONString "email" ++ ":" ++ QuoteJSONString e ++ "," ++
    QuoteJSONString "payload" ++ ":" ++
    JSON_stringify (nullish_or_null payload) ++ "," ++
    QuoteJSONString "source" ++ ":" ++
    QuoteJSONString "prjct-zenith-calculator" ++ "}".
Proof.
  unfold forward_call, JSON_stringify, fetch_body.
  cbn [SerializeJSONProperty map].
  rewrite own_properties_forwarded. unfold comma_separated.
  cbn [map fst snd String.concat].
  rewrite !append_assoc. reflexivity.
Qed.

(** Claim C6, as the code has it.  A request whose email is missing, not a
    string, or the empty string is answered with status 400 and nothing is
    forwarded.  Otherwise, when the webhook URL is absent from the environment
    or empty, the answer has status 500 and nothing is forwarded.  Otherwise
    exactly one call is made: a POST to the configured URL, with the JSON
    content type, whose body is the text that JSON.stringify writes for the
    email, the payload (null when there is none) and the source tag, in that
    order; in that text a number that is not finite is written null and a
    zero of either sign is written 0, at every depth of the payload.  The
    answer is the success response when that call completes and status 400
    when it fails. *)
Theorem POST_outcomes (w : World) :
  (email_is_nonempty_string w = false ->
   exists r, handle w = (Returned r, []) /\ status r = 400%Z) /\
  (email_is_nonempty_string w = true -> webhook_configured w = false ->
   exists r, handle w = (Returned r, []) /\ status r = 500%Z) /\
  (forall e u,
     email_of w = Some (JString e) -> e <> EmptyString ->
     SUBSCRIBE_WEBHOOK_URL w = Some u -> u <> EmptyString ->
     snd (handle w) = [forward_call u e (payload_of w)] /\
     (fetch_resolves w (forward_call u e (payload_of w)) = true ->
      fst (handle w) = Returned ok_response) /\
     (fetch_resolves w (forward_call u e (payload_of w)) = false ->
      exists r, fst (handle w) = Returned r /\ status r = 400%Z) /\
     fetch_url (forward_call u e (payload_of w)) = u /\
     fetch_method (forward_call u e (payload_of w)) = "POST" /\
     fetch_headers (forward_call u e (payload_of w))
       = [("Content-Type", "application/json")] /\
     fetch_body (forward_call u e (payload_of w)) =
       "{" ++ QuoteJSONString "email" ++ ":" ++ QuoteJSONString e ++ "," ++
       QuoteJSONString "payload" ++ ":" ++
       JSON_stringify (nullish_or_null (payload_of w)) ++ "," ++
       QuoteJSONString "source" ++ ":" ++
       QuoteJSONString "prjct-zenith-calculator" ++ "}" /\
     (payload_of w = None ->
      JSON_stringify (nullish_or_null (payload_of w)) = "null")) /\
  (forall n, Number_isFinite n = false -> JSON_stringify (JNumber n) = "null") /\
  (forall n, (n =? 0)%float = true -> JSON_stringify (JNumber n) = "0") /\
  (forall u e p,
     fetch_body (forward_call u e (Some (written p)))
       = fetch_body (forward_call u e (Some p))).
Proof.
  split; [apply handle_invalid_email | ]. split; [ | split; [ | split; [ | split]]].
  - intros He Hurl. destruct (nonempty_string_email w He) as (e & Hemail & Hne).
    destruct (handle_valid_email w e Hemail Hne) as [H _]. exact (H Hurl).
  - intros e u Hemail Hne Hurl Hu.
    destruct (handle_valid_email w e Hemail Hne) as [_ H].
    rewrite (H u Hurl Hu). cbn [fst snd]. split; [reflexivity | ].
    split; [intros ->; reflexivity | ].
    split; [intros ->; eexists; split; reflexivity | ].
    split; [reflexivity | ]. split; [reflexivity | ]. split; [reflexivity | ].
    split; [apply forwarded_text | ].
    intros ->. reflexivity.
  - intros n Hn. unfold JSON_stringify. cbn [SerializeJSONProperty].
    rewrite Hn. reflexivity.
  - intros n Hn. apply eqb_zero_cases in Hn. destruct Hn as [z Hn].
    unfold JSON_stringify. cbn [SerializeJSONProperty].
    rewrite isFinite_SF. unfold Number_toString. rewrite Hn. reflexivity.
  - intros u e p. rewrite !forwarded_text. unfold JSON_stringify.
    cbn [nullish_or_null]. rewrite stringify_written. reflexivity.
Qed.

Lemma POST_outcomes_witness :
  handle (subscription (Some "https://hooks.example/subscribe") true)
    = (Returned ok_response,
       [forward_call "https://hooks.example/subscribe" "ada@example.org"
          (Some (JObject [("pricePerClient", JNumber 500)]))]) /\
  (exists r, handle (subscription None true) = (Returned r, [])
             /\ status r = 500%Z) /\
  (exists r, handle missing_email_unconfigured = (Returned r, [])
             /\ status r = 400%Z) /\
  map fetch_body (snd (handle (subscription (Some "https://hooks.example/subscribe") true)))
    = ["{" ++ in_quotes "email" ++ ":" ++ in_quotes "ada@example.org" ++ "," ++
       in_quotes "payload" ++ ":{" ++ in_quotes "pricePerClient" ++ ":500}," ++
       in_quotes "source" ++ ":" ++ in_quotes "prjct-zenith-calculator" ++ "}"] /\
  map fetch_body (snd (handle overflowing_subscription))
    = ["{" ++ in_quotes "email" ++ ":" ++ in_quotes "ada@example.org" ++ "," ++
       in_quotes "payload" ++ ":{" ++ in_quotes "pricePerClient" ++ ":null," ++
       in_quotes "videosPerMonth" ++ ":0}," ++
       in_quotes "source" ++ ":" ++ in_quotes "prjct-zenith-calculator" ++ "}"].
Proof.
  destruct (POST_outcomes (subscription (Some "https://hooks.example/subscribe") true))
    as (_ & _ & Hfwd & _).
  destruct (POST_outcomes (subscription None true)) as (_ & Hurl & _).
  destruct (POST_outcomes missing_email_unconfigured) as (Hemail & _).
  destruct (POST_outcomes overflowing_subscription) as (_ & _ & Hover & _).
  destruct (Hfwd "ada@example.org" "https://hooks.example/subscribe"
              eq_refl ltac:(discriminate) eq_refl ltac:(discriminate))
    as (Hlog & Hok & _ & _ & _ & _ & Hbody & _).
  destruct (Hover "ada@example.org" "https://hooks.example/subscribe"
              eq_refl ltac:(discriminate) eq_refl ltac:(discriminate))
    as (Hlog' & _ & _ & _ & _ & _ & Hbody' & _).
  split; [ | split; [exact (Hurl eq_refl eq_refl) | split; [exact (Hemail eq_refl) | ]]].
  - rewrite (surjective_pairing (handle _)), Hlog, (Hok eq_refl). reflexivity.
  - split.
    + rewrite Hlog. cbn [map]. rewrite Hbody. reflexivity.
    + rewrite Hlog'. cbn [map]. rewrite Hbody'. reflexivity.
Defined.

(** Against claim C6 as stated: an email that is a string, the empty one, is
    answered with status 400 whether or not the webhook is configured; the
    server error is not returned and nothing is forwarded. *)
Lemma empty_email_rejected :
  email_is_string empty_email_unconfigured = true /\
  SUBSCRIBE_WEBHOOK_URL empty_email_unconfigured = None /\
  handle empty_email_unconfigured =
    (Returned {| status := 400;
                 body := JObject [("ok", JBool false);
                                  ("error", JString "Invalid email")] |}, []) /\
  email_is_string empty_email_configured = true /\
  webhook_configured empty_email_configured = true /\
  handle empty_email_configured =
    (Returned {| status := 400;
                 body := JObject [("ok", JBool false);
                                  ("error", JString "Invalid email")] |}, []).
Proof. repeat split. Qed.

(** Claim C8.  The email is checked before the webhook configuration: a
    request whose email is missing or not a string is answered with status
    400, also when the webhook URL is absent, and status 500 is returned only
    to requests whose email is a non-empty string. *)
Theorem email_checked_before_webhook (w : World) :
  exists r log,
    handle w = (Returned r, log) /\
    (email_is_string w = false -> status r = 400%Z /\ log = []) /\
    (status r = 500%Z ->
     email_is_nonempty_string w = true /\ webhook_configured w = false /\
     log = []).
Proof.
  destruct (email_is_nonempty_string w) eqn:Hne.
  - destruct (nonempty_string_email w Hne) as (e & Hemail & Hnee).
    assert (Hstr : email_is_string w = true)
      by (unfold email_is_string; rewrite Hemail; reflexivity).
    destruct (handle_valid_email w e Hemail Hnee) as [H500 Hfwd].
    destruct (webhook_configured w) eqn:Hurl.
    + unfold webhook_configured in Hurl.
      destruct (SUBSCRIBE_WEBHOOK_URL w) as [u | ] eqn:Eu; [ | discriminate].
      assert (Hu : u <> EmptyString) by (destruct u; [discriminate Hurl | discriminate]).
      rewrite (Hfwd u eq_refl Hu).
      destruct (fetch_resolves w _); eexists; eexists;
        (split; [reflexivity | ]); (split; [congruence | cbn; discriminate]).
    + destruct (H500 eq_refl) as (r & Hr & Hst).
      exists r, []. split; [exact Hr | ]. split; [congruence | ].
      intros _. repeat split.
  - destruct (handle_invalid_email w Hne) as (r & Hr & Hst).
    exists r, []. split; [exact Hr | ]. split.
    + intros _. split; [exact Hst | reflexivity].
    + intros H. rewrite Hst in H. discriminate.
Qed.

Lemma email_checked_before_webhook_witness :
  (exists r, handle missing_email_unconfigured = (Returned r, [])
             /\ status r = 400%Z) /\
  email_is_string missing_email_unconfigured = false /\
  SUBSCRIBE_WEBHOOK_URL missing_email_unconfigured = None.
Proof.
  destruct (email_checked_before_webhook missing_email_unconfigured)
    as (r & log & Hr & H400 & _).
  destruct (H400 eq_refl) as [Hst ->].
  split; [exists r; split; assumption | split; reflexivity].
Defined.

End Subscribe.

(** * Signs of products and quotients *)

Section Signs.

Local Open Scope Z_scope.

Lemma pack_sign (sx : bool) (m e : Z) : 0 <= m -> has_sign sx (pack sx m e).
Proof.
  intros Hm. unfold has_sign, pack. destruct m as [ | p | p]; [auto | | lia].
  destruct (_ <=? _); eauto.
Qed.

(** Rounding gives a zero, a finite number or an infinity of the sign it
    was given, never NaN. *)
Lemma binary_round_aux_sign (sx : bool) (m e : Z) (l : location) :
  0 <= m -> has_sign sx (binary_round_aux prec emax sx m e l).
Proof.
  intros Hm.
  destruct (binary_round_aux_shape sx m e l Hm) as (mr & Hmr & ->).
  cbn zeta in Hmr. apply pack_sign.
  assert (0 <= m / 2 ^ shift_amount m e).
  { apply Z.div_pos; [assumption | apply pow2_pos; unfold shift_amount; lia]. }
  apply Z.div_pos; [lia | apply pow2_pos; unfold shift_amount; lia].
Qed.

Lemma SFdiv_sign (sx : bool) (mx : positive) (ex : Z)
    (sy : bool) (my : positive) (ey : Z) :
  has_sign (xorb sx sy)
    (SFdiv prec emax (S754_finite sx mx ex) (S754_finite sy my ey)).
Proof.
  rewrite SFdiv_finite_eq. apply binary_round_aux_sign.
  apply Z.div_pos; [ | lia].
  apply Z.mul_nonneg_nonneg; [lia | ].
  apply Z.pow_nonneg. lia.
Qed.

Lemma SFmul_sign (sx : bool) (mx : positive) (ex : Z)
    (sy : bool) (my : positive) (ey : Z) :
  has_sign (xorb sx sy)
    (SFmul prec emax (S754_finite sx mx ex) (S754_finite sy my ey)).
Proof.
  cbn [SFmul]. apply binary_round_aux_sign. lia.
Qed.

End Signs.

Section NotNegative.

Lemma not_negative_SF (x : number) :
  not_negative x = match Prim2SF x with
                   | S754_finite true _ _ | S754_infinity true => false
                   | _ => true
                   end.
Proof.
  unfold not_negative. rewrite ltb_spec, Prim2SF_0.
  destruct (Prim2SF x) as [[]|[]| |[] m e]; reflexivity.
Qed.

Lemma not_negative_mul (a b : number) :
  not_negative a = true -> not_negative b = true -> not_negative (a * b) = true.
Proof.
  rewrite !not_negative_SF, mul_spec. unfold SF64mul.
  destruct (Prim2SF a) as [sa | [] | | [] ma ea]; try discriminate;
    destruct (Prim2SF b) as [sb | [] | | [] mb eb]; try discriminate;
    intros _ _; try reflexivity;
    try (destruct sa; reflexivity); try (destruct sb; reflexivity);
    try (destruct sa, sb; reflexivity).
  pose proof (SFmul_sign false ma ea false mb eb) as H. cbn [xorb] in H.
  destruct H as [-> | [-> | (p & e & ->)]]; reflexivity.
Qed.

(** A quotient by a positive number or NaN. *)
Lemma not_negative_div (a b : number) :
  not_negative a = true -> gt b 0 = true \/ is_nan b = true ->
  not_negative (a / b) = true.
Proof.
  rewrite !not_negative_SF, gt_zero_SF, is_nan_cases, div_spec. unfold SF64div.
  intros Ha Hb.
  destruct (Prim2SF b) as [sb | [] | | [] mb eb];
    try (destruct Hb as [Hb | Hb]; discriminate Hb);
    destruct (Prim2SF a) as [sa | [] | | [] ma ea]; try discriminate;
    try reflexivity; try (destruct sa; reflexivity).
  pose proof (SFdiv_sign false ma ea false mb eb) as H. cbn [xorb] in H.
  destruct H as [-> | [-> | (p & e & ->)]]; reflexivity.
Qed.

Lemma not_negative_percent (pct : number) :
  not_negative pct = true -> not_negative (pct / 100) = true.
Proof.
  intros H. apply not_negative_div; [exact H | left; reflexivity].
Qed.

Lemma not_negative_Math_ceil (x : number) :
  not_negative x = true -> not_negative (Math_ceil x) = true.
Proof.
  rewrite (not_negative_SF x). intros Hx.
  destruct (Prim2SF x) as [s | [] | | [] m e] eqn:Ex; try discriminate;
    try (unfold Math_ceil; rewrite Ex; rewrite not_negative_SF, Ex; reflexivity).
  destruct (Z.leb_spec 0 e) as [He | He].
  - unfold Math_ceil. rewrite Ex. exponent_nonneg e.
    rewrite not_negative_SF, Ex. reflexivity.
  - destruct (Math_ceil_fractional x false m e Ex He) as (Hc & Hn & Hlo & Hhi).
    pose proof (pow2_pos (- e) ltac:(lia)) as HD.
    set (n := (- (- signed false m / 2 ^ (- e)))%Z) in *.
    unfold signed in Hlo, Hhi; cbn [cond_Zopp] in Hlo, Hhi.
    destruct (SFint_positive n false) as (p & e' & Hp & _); [nia | ].
    rewrite not_negative_SF, Hc, Hp. reflexivity.
Qed.

Lemma not_negative_Math_round (x : number) :
  not_negative x = true -> not_negative (Math_round x) = true.
Proof.
  rewrite (not_negative_SF x). intros Hx.
  destruct (Prim2SF x) as [s | [] | | [] m e] eqn:Ex; try discriminate;
    try (unfold Math_round; rewrite Ex; rewrite not_negative_SF, Ex; reflexivity).
  destruct (Z.leb_spec 0 e) as [He | He].
  - unfold Math_round. rewrite Ex. exponent_nonneg e.
    rewrite not_negative_SF, Ex. reflexivity.
  - destruct (Math_round_fractional x false m e Ex He) as (Hc & Hn & Hlo & Hhi).
    pose proof (pow2_pos (- e) ltac:(lia)) as HD.
    set (n := ((2 * signed false m + 2 ^ (- e)) / (2 * 2 ^ (- e)))%Z) in *.
    unfold signed in Hlo, Hhi; cbn [cond_Zopp] in Hlo, Hhi.
    assert (Hn0 : (0 <= n)%Z) by nia.
    rewrite not_negative_SF, Hc.
    destruct n as [ | p | p]; [reflexivity | | lia].
    destruct (SFint_positive (Zpos p) false) as (q & e' & Hp & _); [lia | ].
    rewrite Hp. reflexivity.
Qed.

(** The divisor of [clientsNeeded] is positive or NaN. *)
Lemma price_floor_positive (p : number) :
  gt (Math_max [1; p]) 0 = true \/ is_nan (Math_max [1; p]) = true.
Proof.
  rewrite Math_max_one. destruct (is_nan p); [right; reflexivity | left].
  destruct (1 <? p) eqn:E; [ | reflexivity].
  rewrite gt_zero_SF. rewrite ltb_spec, Prim2SF_1 in E.
  destruct (Prim2SF p) as [[]|[]| |[] m e]; try discriminate; reflexivity.
Qed.

Lemma not_negative_months (c n : number) :
  not_negative c = true ->
  not_negative (if gt n 0 then Math_ceil (c / n) else Infinity) = true.
Proof.
  intros Hc. destruct (gt n 0) eqn:Hn; [ | reflexivity].
  apply not_negative_Math_ceil, not_negative_div; [exact Hc | left; exact Hn].
Qed.

End NotNegative.

Section WholeMonths.

(** A finite number divided by a positive one is not NaN. *)
Lemma div_not_nan (c n : number) :
  Number_isFinite c = true -> gt n 0 = true -> is_nan (c / n) = false.
Proof.
  rewrite isFinite_SF, gt_zero_SF. intros Hc Hn.
  destruct (is_nan (c / n)) eqn:E; [ | reflexivity].
  apply is_nan_cases in E. rewrite div_spec in E. unfold SF64div in E.
  destruct (Prim2SF n) as [sn | [] | | [] mn en]; try discriminate;
    destruct (Prim2SF c) as [sc | sc | | sc mc ec]; try discriminate.
  destruct (SFdiv_sign sc mc ec false mn en) as [H | [H | (p & e & H)]];
    rewrite H in E; discriminate.
Qed.

Lemma Math_ceil_whole_or_infinite (x : number) :
  is_nan x = false -> whole_or_infinite (Math_ceil x).
Proof.
  intros Hx. unfold whole_or_infinite.
  destruct (Prim2SF x) as [s | [] | | s m e] eqn:Ex.
  - left. apply integral_Math_ceil. rewrite isFinite_SF, Ex. reflexivity.
  - right; right. unfold Math_ceil. rewrite Ex. apply Prim2SF_inj. exact Ex.
  - right; left. unfold Math_ceil. rewrite Ex. apply Prim2SF_inj. exact Ex.
  - apply is_nan_cases in Ex. congruence.
  - left. apply integral_Math_ceil. rewrite isFinite_SF, Ex. reflexivity.
Qed.

(** For a finite client count, the months to the goal are a whole number
    or an infinity. *)
Lemma months_whole_or_infinite (c n : number) :
  Number_isFinite c = true ->
  whole_or_infinite (if gt n 0 then Math_ceil (c / n) else Infinity).
Proof.
  intros Hc. destruct (gt n 0) eqn:Hn.
  - apply Math_ceil_whole_or_infinite, div_not_nan; assumption.
  - right; left; reflexivity.
Qed.

Lemma whole_or_infinite_not_nan (x : number) :
  whole_or_infinite x -> is_nan x = false.
Proof.
  unfold whole_or_infinite, integral.
  intros [H | [-> | ->]]; [ | reflexivity | reflexivity].
  destruct (is_nan x) eqn:E; [ | reflexivity].
  apply is_nan_cases in E. rewrite E in H. discriminate.
Qed.

End WholeMonths.

(** * Whole numbers *)

Section Integral.

Local Open Scope Z_scope.

Lemma Zdigits2_unique (m d : Z) :
  0 < m -> 2 ^ (d - 1) <= m < 2 ^ d -> Zdigits2 m = d.
Proof.
  intros Hm [Hlo Hhi].
  pose proof (Zdigits2_bounds m Hm) as [Dlo Dhi].
  pose proof (Zdigits2_pos m Hm) as HD.
  assert (Hd : 1 <= d).
  { destruct (Z_le_gt_dec 1 d) as [ | Hgt]; [assumption | ].
    assert (2 ^ d <= 2 ^ 0) by (destruct d; cbn; try lia;
      rewrite Z.pow_neg_r; lia). cbn in *. lia. }
  destruct (Z.lt_trichotomy (Zdigits2 m) d) as [Hlt | [Heq | Hgt]].
  - assert (2 ^ Zdigits2 m <= 2 ^ (d - 1)) by (apply Z.pow_le_mono_r; lia). lia.
  - exact Heq.
  - assert (2 ^ d <= 2 ^ (Zdigits2 m - 1)) by (apply Z.pow_le_mono_r; lia). lia.
Qed.

(** The canonical form of a finite number whose value is an integer is the
    canonical form of that integer. *)
Lemma SFint_of_integral (s : bool) (m : positive) (e : Z) :
  bounded prec emax m e = true -> e < 0 -> Zpos m mod 2 ^ (- e) = 0 ->
  SFint (cond_Zopp s (Zpos m / 2 ^ (- e))) s = S754_finite s m e /\
  1 <= Zpos m / 2 ^ (- e) <= 2 ^ 53 - 1.
Proof.
  intros Hb He Hmod. pose proof (bounded_inv _ _ Hb) as (Hd & Hr & Hc).
  pose proof (pow2_pos (- e) ltac:(lia)) as HD.
  pose proof (pow2_ge_2 (- e) ltac:(lia)) as HD2.
  assert (Hm : Zpos m = 2 ^ (- e) * (Zpos m / 2 ^ (- e)))
    by (apply Z.div_exact; lia).
  set (j := Zpos m / 2 ^ (- e)) in *.
  pose proof (digits2_pos_bounds m) as [Mlo Mhi].
  assert (Hj : 1 <= j) by nia.
  assert (Hjm : j < Zpos m) by nia.
  assert (H53 : 2 ^ Zpos (digits2_pos m) <= 2 ^ 53)
    by (apply Z.pow_le_mono_r; lia).
  split; [ | lia].
  destruct j as [ | p | p] eqn:Ej; try lia.
  assert (Hdm : Zpos (digits2_pos m) = Zpos (digits2_pos p) + (- e)).
  { change (Zpos (digits2_pos m)) with (Zdigits2 (Zpos m)).
    apply Zdigits2_unique; [lia | ].
    pose proof (digits2_pos_bounds p) as [Plo Phi].
    pose proof (Pos2Z.is_pos (digits2_pos p)).
    replace (Zpos (digits2_pos p) + - e - 1)
      with ((Zpos (digits2_pos p) - 1) + - e) by lia.
    rewrite !Z.pow_add_r by lia. nia. }
  assert (H1074 : e <> -1074).
  { intros ->. pose proof (Pos2Z.is_pos (digits2_pos p)). lia. }
  assert (Hdp : Zpos (digits2_pos p) = 53 + e) by lia.
  destruct (SFint_pos_facts s p ltac:(lia)) as (m' & Hm' & Hv & _).
  assert (Hmm : m' = m).
  { apply Pos2Z.inj. rewrite Hv, Hm, Hdp. 
    replace (53 - (53 + e)) with (- e) by lia. lia. }
  subst m'. rewrite Hdp in Hm'. replace (53 + e - 53) with e in Hm' by lia.
  destruct s; cbn [cond_Zopp Z.opp SFint]; exact Hm'.
Qed.

End Integral.

Section RoundWhole.

(** [Math.round] leaves whole numbers, infinities and NaN as they are. *)
Lemma Math_round_whole (x : number) :
  integral x = true \/ Number_isFinite x = false -> Math_round x = x.
Proof.
  unfold integral. rewrite isFinite_SF.
  destruct (Prim2SF x) as [s | s | | s m e] eqn:Ex;
    try (intros _; unfold Math_round; rewrite Ex; reflexivity).
  intros [H | H]; [ | discriminate].
  destruct (Z.leb_spec 0 e) as [He | He].
  - unfold Math_round. rewrite Ex. exponent_nonneg e. reflexivity.
  - cbn [orb] in H. apply Z.eqb_eq in H.
    pose proof (Prim2SF_bounded _ _ _ _ Ex) as Hb.
    destruct (SFint_of_integral s m e Hb He H) as [Hint Hj].
    destruct (Math_round_fractional x s m e Ex He) as (Hr & _ & Hlo & Hhi).
    pose proof (pow2_pos (- e) ltac:(lia)) as HD.
    assert (Hm : Zpos m = (2 ^ (- e) * (Zpos m / 2 ^ (- e)))%Z)
      by (apply Z.div_exact; lia).
    set (j := (Zpos m / 2 ^ (- e))%Z) in *.
    set (n := ((2 * signed s m + 2 ^ (- e)) / (2 * 2 ^ (- e)))%Z) in *.
    assert (Hn : n = cond_Zopp s j).
    { unfold signed in Hlo, Hhi. rewrite Hm in Hlo, Hhi.
      destruct s; cbn [cond_Zopp] in *; nia. }
    apply Prim2SF_inj. rewrite Hr, Hn, Hint, Ex. reflexivity.
Qed.

(** Rounding what [Math.ceil] returned changes nothing. *)
Lemma Math_round_Math_ceil (x : number) : Math_round (Math_ceil x) = Math_ceil x.
Proof.
  apply Math_round_whole.
  destruct (Number_isFinite x) eqn:E.
  - left. apply integral_Math_ceil, E.
  - right. rewrite Math_ceil_isFinite. exact E.
Qed.

End RoundWhole.

(** * Numbers that are at least 1 *)

Section AtLeastOne.

(** A number is at least 1 when it is +Infinity or a positive finite
    number of magnitude at least 1. *)
Lemma at_least_one_SF (x : number) :
  (1 <=? x) = true <->
  Prim2SF x = S754_infinity false \/
  exists m e, Prim2SF x = S754_finite false m e /\
              (1 <= Zpos (digits2_pos m) + e)%Z.
Proof.
  rewrite leb_spec, Prim2SF_1. unfold SFleb.
  destruct (Prim2SF x) as [s | [] | | [] m e] eqn:Ex; cbn [SFcompare];
    try (split; [discriminate | intros [H | (? & ? & H & _)]; discriminate]).
  - split; auto.
  - pose proof (Prim2SF_bounded _ _ _ _ Ex) as Hb.
    pose proof (bounded_inv _ _ Hb) as (Hd & Hr & Hc).
    pose proof (digits2_pos_bounds m) as [Mlo Mhi].
    destruct (Z.compare_spec (-52) e) as [<- | Hlt | Hgt].
    + rewrite Pos.compare_cont_spec.
      destruct (Pos.compare_spec 4503599627370496 m) as [<- | Hlt | Hgt].
      * split; [intros _; right; exists 4503599627370496%positive, (-52)%Z | reflexivity].
        split; [reflexivity | cbn; lia].
      * split; [intros _; right; exists m, (-52)%Z | reflexivity].
        split; [reflexivity | ].
        clear - Hc. lia.
      * split; [discriminate | ].
        intros [H | (m' & e' & [= <- <-] & H)]; [discriminate | ].
        apply Pos2Z.pos_lt_pos in Hgt.
        assert (H53 : (Zpos (digits2_pos m) = 53)%Z) by (clear - H Hd; lia).
        rewrite H53 in Mlo. change (2 ^ (53 - 1))%Z with 4503599627370496%Z in Mlo.
        clear - Mlo Hgt. lia.
    + split; [intros _; right; exists m, e | reflexivity].
      split; [reflexivity | lia].
    + split; [discriminate | ].
      intros [H | (m' & e' & [= <- <-] & H)]; [discriminate | lia].
Qed.

Lemma at_least_one_positive (x : number) : (1 <=? x) = true -> gt x 0 = true.
Proof.
  rewrite at_least_one_SF, gt_zero_SF.
  intros [-> | (m & e & -> & _)]; reflexivity.
Qed.

(** The ceiling of a positive number is at least 1. *)
Lemma Math_ceil_at_least_one (x : number) :
  gt x 0 = true -> (1 <=? Math_ceil x) = true.
Proof.
  intros H. apply at_least_one_SF, Math_ceil_positive, H.
Qed.

(** The ceiling of the quotient of a number that is at least 1 by a
    positive finite number is at least 1. *)
Lemma ceil_div_at_least_one (c n : number) :
  (1 <=? c) = true -> gt n 0 = true -> Number_isFinite n = true ->
  (1 <=? Math_ceil (c / n)) = true.
Proof.
  intros Hc Hn Hf. apply Math_ceil_at_least_one, div_positive;
    [apply at_least_one_SF, Hc | exact Hn | exact Hf].
Qed.

End AtLeastOne.

(** * Edges of the engine *)

Section EngineEdges.

Lemma finite_state_fields (s : CalculatorState) :
  finite_state s = true ->
  Number_isFinite (targetMonthlyRevenue s) = true /\
  Number_isFinite (pricePerClient s) = true /\
  Number_isFinite (videosPerMonth s) = true /\
  Number_isFinite (avgViewsPerVideo s) = true /\
  Number_isFinite (viewToBookingRatePct s) = true /\
  Number_isFinite (showRatePct s) = true /\
  Number_isFinite (closeRatePct s) = true.
Proof.
  unfold finite_state. rewrite !andb_true_iff. tauto.
Qed.

(** Property X1.  For seven finite inputs, monthsToGoal is never NaN in
    either version: it is a whole number, or one of the two infinities. *)
Theorem monthsToGoal_whole_or_infinite (s : CalculatorState) :
  finite_state s = true ->
  whole_or_infinite (monthsToGoal (Aligned.computeProjection s)) /\
  whole_or_infinite (monthsToGoal (Unrounded.computeProjection s)) /\
  is_nan (monthsToGoal (Aligned.computeProjection s)) = false /\
  is_nan (monthsToGoal (Unrounded.computeProjection s)) = false.
Proof.
  intros Hfin. unfold finite_state in Hfin.
  repeat (apply andb_true_iff in Hfin; destruct Hfin as [Hfin ?]).
  assert (Hneeded := clientsNeeded_finite (targetMonthlyRevenue s)
                       (pricePerClient s) ltac:(assumption) ltac:(assumption)).
  destruct Hneeded as [Hneeded _].
  assert (Hw : whole_or_infinite (monthsToGoal (Aligned.computeProjection s))).
  { cbn [Aligned.computeProjection monthsToGoal].
    apply months_whole_or_infinite, Hneeded. }
  pose proof (whole_or_infinite_not_nan _ Hw) as Hn.
  repeat split; assumption.
Qed.

Lemma monthsToGoal_whole_or_infinite_witness :
  finite_state defaults_aligned = true /\
  whole_or_infinite (monthsToGoal (Aligned.computeProjection defaults_aligned)) /\
  whole_or_infinite (monthsToGoal (Unrounded.computeProjection overflowing_months)) /\
  monthsToGoal (Unrounded.computeProjection overflowing_months) = Infinity.
Proof.
  destruct (monthsToGoal_whole_or_infinite defaults_aligned eq_refl)
    as (HA & _).
  destruct (monthsToGoal_whole_or_infinite overflowing_months eq_refl)
    as (_ & HU & _).
  repeat split; assumption.
Defined.

(** Property X2.  When none of the seven inputs is below zero, none of the
    seven outputs is, in either version: each output is a zero, a positive
    number, +Infinity or NaN. *)
Theorem no_negative_outputs (s : CalculatorState) :
  no_negative_input s = true ->
  no_negative_output (Aligned.computeProjection s) = true /\
  no_negative_output (Unrounded.computeProjection s) = true.
Proof.
  unfold no_negative_input. intros H.
  repeat (apply andb_true_iff in H; destruct H as [H ?]).
  assert (Hneeded : not_negative
            (Math_ceil (targetMonthlyRevenue s / Math_max [1; pricePerClient s]))
            = true).
  { apply not_negative_Math_ceil, not_negative_div;
      [assumption | apply price_floor_positive]. }
  assert (Hreach : not_negative (videosPerMonth s * avgViewsPerVideo s) = true)
    by (apply not_negative_mul; assumption).
  assert (Hbook : not_negative (videosPerMonth s * avgViewsPerVideo s
                                * (viewToBookingRatePct s / 100)) = true)
    by (apply not_negative_mul; [ | apply not_negative_percent]; assumption).
  assert (Hshow : not_negative (videosPerMonth s * avgViewsPerVideo s
                                * (viewToBookingRatePct s / 100)
                                * (showRatePct s / 100)) = true)
    by (apply not_negative_mul; [ | apply not_negative_percent]; assumption).
  assert (Hpace : not_negative (videosPerMonth s * avgViewsPerVideo s
                                * (viewToBookingRatePct s / 100)
                                * (showRatePct s / 100)
                                * (closeRatePct s / 100)) = true)
    by (apply not_negative_mul; [ | apply not_negative_percent]; assumption).
  unfold no_negative_output.
  cbn [Aligned.computeProjection Unrounded.computeProjection clientsNeeded
       monthlyReach bookingsPerMonth showsPerMonth newClientsPerMonth newMRR
       monthsToGoal].
  rewrite Hneeded, Hreach, Hbook, Hshow, Hpace.
  rewrite (not_negative_months _ _ Hneeded).
  rewrite !not_negative_mul by
    (try apply not_negative_Math_round; assumption).
  split; reflexivity.
Qed.

Lemma no_negative_outputs_witness :
  no_negative_input defaults_aligned = true /\
  no_negative_input overflowing_reach = true /\
  no_negative_output (Aligned.computeProjection defaults_aligned) = true /\
  no_negative_output (Unrounded.computeProjection overflowing_reach) = true.
Proof.
  destruct (no_negative_outputs defaults_aligned eq_refl) as [HA _].
  destruct (no_negative_outputs overflowing_reach eq_refl) as [_ HU].
  repeat split; assumption.
Defined.

Lemma Math_round_zero (x : number) : (x =? 0) = true -> (Math_round x =? 0) = true.
Proof.
  intros H. rewrite Math_round_whole; [exact H | ].
  left. unfold integral. apply eqb_zero_cases in H. destruct H as [s ->].
  reflexivity.
Qed.

(** Property X3.  With no videos or no views, monthsToGoal is the marker
    Infinity in both versions and newClientsPerMonth is a zero or NaN; when
    the seven inputs are finite, monthlyReach, bookingsPerMonth,
    showsPerMonth, newClientsPerMonth and newMRR are all zero. *)
Theorem no_content_never (s : CalculatorState) :
  no_content s = true ->
  monthsToGoal (Aligned.computeProjection s) = Infinity /\
  monthsToGoal (Unrounded.computeProjection s) = Infinity /\
  ((newClientsPerMonth (Aligned.computeProjection s) =? 0) = true \/
   is_nan (newClientsPerMonth (Aligned.computeProjection s)) = true) /\
  (finite_state s = true ->
   funnel_is_zero (Aligned.computeProjection s) = true /\
   funnel_is_zero (Unrounded.computeProjection s) = true).
Proof.
  intros Hz. unfold no_content in Hz.
  set (reach := videosPerMonth s * avgViewsPerVideo s).
  set (vb := viewToBookingRatePct s / 100).
  set (sh := showRatePct s / 100).
  set (cl := closeRatePct s / 100).
  assert (Hreach : (reach =? 0) = true \/ is_nan reach = true).
  { apply orb_true_iff in Hz. destruct Hz as [Hz | Hz].
    - apply mul_zero_or_nan_l. left. exact Hz.
    - apply mul_zero_or_nan_r. exact Hz. }
  assert (Hpace : (reach * vb * sh * cl =? 0) = true \/
                  is_nan (reach * vb * sh * cl) = true)
    by (do 3 apply mul_zero_or_nan_l; exact Hreach).
  assert (Hmonths : monthsToGoal (Aligned.computeProjection s) = Infinity).
  { cbn [Aligned.computeProjection monthsToGoal]. fold reach vb sh cl.
    rewrite (gt_zero_false _ Hpace). reflexivity. }
  split; [exact Hmonths | ]. split; [exact Hmonths | ].
  split; [exact Hpace | ].
  intros Hfin.
  destruct (finite_state_fields s Hfin) as (_ & _ & Hv & Ha & Hvb & Hsh & Hcl).
  assert (Hprice : Number_isFinite (pricePerClient s) = true)
    by apply (finite_state_fields s Hfin).
  assert (H0 : (reach =? 0) = true).
  { apply orb_true_iff in Hz. destruct Hz as [Hz | Hz].
    - apply mul_zero_l; assumption.
    - apply mul_zero_r; assumption. }
  assert (H1 : (reach * vb =? 0) = true)
    by (apply mul_zero_l; [exact H0 | apply finite_percent; assumption]).
  assert (H2 : (reach * vb * sh =? 0) = true)
    by (apply mul_zero_l; [exact H1 | apply finite_percent; assumption]).
  assert (H3 : (reach * vb * sh * cl =? 0) = true)
    by (apply mul_zero_l; [exact H2 | apply finite_percent; assumption]).
  unfold funnel_is_zero.
  cbn [Aligned.computeProjection Unrounded.computeProjection monthlyReach
       bookingsPerMonth showsPerMonth newClientsPerMonth newMRR].
  fold reach vb sh cl. rewrite H0, H1, H2, H3. cbn [andb].
  split; apply mul_zero_l; try assumption.
  apply Math_round_zero, H3.
Qed.

Lemma no_content_never_witness :
  no_content no_videos = true /\
  monthsToGoal (Aligned.computeProjection no_videos) = Infinity /\
  funnel_is_zero (Unrounded.computeProjection no_videos) = true.
Proof.
  destruct (no_content_never no_videos eq_refl) as (Hmonths & _ & _ & Hzero).
  destruct (Hzero eq_refl) as [_ HU].
  repeat split; assumption.
Defined.

(** Property X4.  When newClientsPerMonth is a whole number, or is not
    finite, rounding it changes nothing and the two versions return the
    same record, newMRR included. *)
Theorem versions_agree_on_whole_pace (s : CalculatorState) :
  integral (newClientsPerMonth (Unrounded.computeProjection s)) = true \/
  Number_isFinite (newClientsPerMonth (Unrounded.computeProjection s)) = false ->
  Aligned.computeProjection s = Unrounded.computeProjection s.
Proof.
  intros H. unfold Aligned.computeProjection, Unrounded.computeProjection.
  cbn [Unrounded.computeProjection newClientsPerMonth] in H.
  rewrite (Math_round_whole _ H). reflexivity.
Qed.

Lemma versions_agree_on_whole_pace_witness :
  newClientsPerMonth (Unrounded.computeProjection whole_pace) = 100 /\
  Aligned.computeProjection whole_pace = Unrounded.computeProjection whole_pace /\
  newMRR (Aligned.computeProjection whole_pace) = 50000.
Proof.
  split; [reflexivity | ]. split; [ | reflexivity].
  apply (versions_agree_on_whole_pace whole_pace). left. reflexivity.
Defined.

(** Property X5.  [formatInt] rounds before it formats, and on
    clientsNeeded and monthsToGoal that rounding changes nothing: both are
    shown as computed, for every input.  The months metric shows the dash
    whenever newClientsPerMonth is not above zero. *)
Theorem formatInt_exact (Intl_NumberFormat_format : number -> string)
    (s : CalculatorState) :
  formatInt Intl_NumberFormat_format (clientsNeeded (Aligned.computeProjection s))
    = Intl_NumberFormat_format (clientsNeeded (Aligned.computeProjection s)) /\
  formatInt Intl_NumberFormat_format (monthsToGoal (Aligned.computeProjection s))
    = Intl_NumberFormat_format (monthsToGoal (Aligned.computeProjection s)) /\
  formatInt Intl_NumberFormat_format (clientsNeeded (Unrounded.computeProjection s))
    = Intl_NumberFormat_format (clientsNeeded (Unrounded.computeProjection s)) /\
  formatInt Intl_NumberFormat_format (monthsToGoal (Unrounded.computeProjection s))
    = Intl_NumberFormat_format (monthsToGoal (Unrounded.computeProjection s)) /\
  (gt (newClientsPerMonth (Aligned.computeProjection s)) 0 = false ->
   Months_to_Goal Intl_NumberFormat_format (Aligned.computeProjection s)
     = "—"%string /\
   Months_to_Goal Intl_NumberFormat_format (Unrounded.computeProjection s)
     = "—"%string).
Proof.
  assert (Hm : Math_round (monthsToGoal (Aligned.computeProjection s))
               = monthsToGoal (Aligned.computeProjection s)).
  { cbn [Aligned.computeProjection monthsToGoal].
    destruct (gt _ 0); [apply Math_round_Math_ceil | reflexivity]. }
  unfold formatInt.
  cbn [Aligned.computeProjection Unrounded.computeProjection clientsNeeded].
  rewrite Math_round_Math_ceil.
  cbn [Aligned.computeProjection Unrounded.computeProjection monthsToGoal] in *.
  rewrite Hm. repeat split.
  all: unfold Months_to_Goal;
    cbn [Aligned.computeProjection Unrounded.computeProjection monthsToGoal
         newClientsPerMonth] in *;
    rewrite H; reflexivity.
Qed.

(** Property X6.  With seven finite inputs and a target of at least 1,
    clientsNeeded is at least 1 in both versions, and so is monthsToGoal
    whenever newClientsPerMonth is positive and finite. *)
Theorem target_of_at_least_one (s : CalculatorState) :
  finite_state s = true -> (1 <=? targetMonthlyRevenue s) = true ->
  (1 <=? clientsNeeded (Aligned.computeProjection s)) = true /\
  (1 <=? clientsNeeded (Unrounded.computeProjection s)) = true /\
  (gt (newClientsPerMonth (Aligned.computeProjection s)) 0 = true ->
   Number_isFinite (newClientsPerMonth (Aligned.computeProjection s)) = true ->
   (1 <=? monthsToGoal (Aligned.computeProjection s)) = true /\
   (1 <=? monthsToGoal (Unrounded.computeProjection s)) = true).
Proof.
  intros Hfin Htarget.
  destruct (finite_state_fields s Hfin) as (_ & Hprice & _).
  destruct (price_floor _ (finite_not_nan _ Hprice)) as [Hmax Hge].
  assert (Hdiv : Number_isFinite (Math_max [1; pricePerClient s]) = true).
  { rewrite Hmax. destruct (1 <? pricePerClient s); [exact Hprice | reflexivity]. }
  assert (Hneeded : (1 <=? Math_ceil (targetMonthlyRevenue s
                                      / Math_max [1; pricePerClient s])) = true).
  { apply ceil_div_at_least_one;
      [exact Htarget | apply at_least_one_positive, Hge | exact Hdiv]. }
  cbn [Aligned.computeProjection Unrounded.computeProjection clientsNeeded
       monthsToGoal newClientsPerMonth].
  split; [exact Hneeded | ]. split; [exact Hneeded | ].
  intros Hpos Hpace. rewrite Hpos.
  split; apply ceil_div_at_least_one; assumption.
Qed.

Lemma target_of_at_least_one_witness :
  (1 <=? clientsNeeded (Aligned.computeProjection defaults_aligned)) = true /\
  (1 <=? monthsToGoal (Unrounded.computeProjection defaults_aligned)) = true /\
  (1 <=? targetMonthlyRevenue (with_goal 0 500)) = false /\
  clientsNeeded (Aligned.computeProjection (with_goal 0 500)) = 0.
Proof.
  destruct (target_of_at_least_one defaults_aligned eq_refl eq_refl)
    as (HA & _ & Hmonths).
  destruct (Hmonths eq_refl eq_refl) as [_ HU].
  repeat split; assumption.
Defined.

End EngineEdges.

(** * The query as text *)

Section Urlencoded.

Local Open Scope string_scope.

Lemma urlencoded_encode_cons (c : ascii) (rest : string) :
  urlencoded_encode (String c rest) = encode_byte c ++ urlencoded_encode rest.
Proof. reflexivity. Qed.

Lemma decode_encode_byte (c : ascii) (r : string) :
  percent_decode (plus_to_space (encode_byte c ++ r))
    = String c (percent_decode (plus_to_space r)).
Proof.
  destruct c as [[] [] [] [] [] [] [] []]; reflexivity.
Qed.

Lemma decode_encode (s r : string) :
  percent_decode (plus_to_space (urlencoded_encode s ++ r))
    = s ++ percent_decode (plus_to_space r).
Proof.
  induction s as [ | c s IH]; [reflexivity | ].
  rewrite urlencoded_encode_cons, append_assoc, decode_encode_byte, IH.
  reflexivity.
Qed.

Lemma split_encode_byte (c : ascii) (r : string) :
  split_on "&" (encode_byte c ++ r)
    = (encode_byte c ++ fst (split_on "&" r), snd (split_on "&" r)).
Proof.
  destruct (split_on "&" r) as [h t] eqn:E.
  destruct c as [[] [] [] [] [] [] [] []]; cbn; rewrite E; reflexivity.
Qed.

Lemma split_encode (s r : string) :
  split_on "&" (urlencoded_encode s ++ r)
    = (urlencoded_encode s ++ fst (split_on "&" r), snd (split_on "&" r)).
Proof.
  induction s as [ | c s IH].
  - cbn. destruct (split_on "&" r); reflexivity.
  - rewrite urlencoded_encode_cons, append_assoc, split_encode_byte, IH.
    cbn [fst snd]. rewrite append_assoc. reflexivity.
Qed.

Lemma name_value_encode_byte (c : ascii) (r : string) :
  name_value (encode_byte c ++ r)
    = (encode_byte c ++ fst (name_value r), snd (name_value r)).
Proof.
  destruct (name_value r) as [n v] eqn:E.
  destruct c as [[] [] [] [] [] [] [] []]; cbn; rewrite E; reflexivity.
Qed.

Lemma name_value_encode (s r : string) :
  name_value (urlencoded_encode s ++ r)
    = (urlencoded_encode s ++ fst (name_value r), snd (name_value r)).
Proof.
  induction s as [ | c s IH].
  - cbn. destruct (name_value r); reflexivity.
  - rewrite urlencoded_encode_cons, append_assoc, name_value_encode_byte, IH.
    cbn [fst snd]. rewrite append_assoc. reflexivity.
Qed.

(** What is read back from the text of one tuple. *)
Lemma name_value_tuple (t : string * string) :
  name_value (tuple_text t) = (urlencoded_encode (fst t), urlencoded_encode (snd t)).
Proof.
  unfold tuple_text. rewrite name_value_encode. cbn. rewrite append_nil_r.
  reflexivity.
Qed.

Lemma tuple_text_not_empty (t : string * string) : tuple_text t <> EmptyString.
Proof.
  unfold tuple_text. destruct (urlencoded_encode (fst t)); discriminate.
Qed.

Lemma decode_encoded (s : string) :
  percent_decode (plus_to_space (urlencoded_encode s)) = s.
Proof.
  rewrite <- (append_nil_r (urlencoded_encode s)), decode_encode. cbn.
  apply append_nil_r.
Qed.

Lemma split_tuple_text (t : string * string) (r : string) :
  split_on "&" (tuple_text t ++ r)
    = (tuple_text t ++ fst (split_on "&" r), snd (split_on "&" r)).
Proof.
  unfold tuple_text. rewrite !append_assoc, split_encode.
  cbn [append split_on]. rewrite split_encode.
  change (Ascii.eqb "=" "&") with false. cbn [fst snd].
  reflexivity.
Qed.

Lemma split_more_text (t : string * string) (rest : URLSearchParams) :
  split_on "&" (tuple_text t ++ more_text rest)
    = (tuple_text t, map tuple_text rest).
Proof.
  revert t. induction rest as [ | t' rest IH]; intros t.
  - rewrite split_tuple_text. cbn. rewrite append_nil_r. reflexivity.
  - rewrite split_tuple_text. cbn [more_text append split_on].
    rewrite IH. change (Ascii.eqb "&" "&") with true. cbn [fst snd map].
    rewrite append_nil_r. reflexivity.
Qed.

Lemma toString_from (output : string) (q : URLSearchParams) :
  output <> EmptyString ->
  fold_left (fun output t =>
               match output with
               | EmptyString => output
               | _ => output ++ "&"
               end ++ urlencoded_encode (fst t) ++ "=" ++ urlencoded_encode (snd t))
            q output
    = output ++ more_text q.
Proof.
  revert output. induction q as [ | t q IH]; intros output Hne.
  - cbn. rewrite append_nil_r. reflexivity.
  - cbn [fold_left more_text]. rewrite IH.
    + destruct output as [ | c output]; [contradiction | ].
      unfold tuple_text. rewrite !append_assoc. reflexivity.
    + destruct output as [ | c output]; [contradiction | discriminate].
Qed.

Lemma toString_cons (t : string * string) (rest : URLSearchParams) :
  URLSearchParams_toString (t :: rest) = tuple_text t ++ more_text rest.
Proof.
  unfold URLSearchParams_toString. cbn [fold_left append].
  apply toString_from, tuple_text_not_empty.
Qed.

(** ASCII text is its own decoding. *)
Lemma UTF8_decode_ascii (s : string) :
  ascii_only s = true -> UTF8_decode_without_BOM s = s.
Proof.
  unfold UTF8_decode_without_BOM, ascii_only.
  induction s as [ | c s IH]; [reflexivity | ].
  cbn [list_ascii_of_string forallb UTF8_decode_from].
  intros H. apply andb_true_iff in H. destruct H as [Hc Hs].
  change (0 =? 0)%N with true. cbv iota. unfold UTF8_first. rewrite Hc.
  rewrite (IH Hs). reflexivity.
Qed.

Lemma parse_tuple_text (t : string * string) :
  ascii_only (fst t) = true -> ascii_only (snd t) = true ->
  match tuple_text t with
  | EmptyString => []
  | _ => let (n, v) := name_value (tuple_text t) in
         [(UTF8_decode_without_BOM (percent_decode (plus_to_space n)),
           UTF8_decode_without_BOM (percent_decode (plus_to_space v)))]
  end = [t].
Proof.
  intros Hn Hv.
  rewrite name_value_tuple, !decode_encoded, (UTF8_decode_ascii _ Hn),
    (UTF8_decode_ascii _ Hv).
  destruct (tuple_text t) eqn:E; [apply tuple_text_not_empty in E; contradiction | ].
  destruct t; reflexivity.
Qed.

Lemma parse_texts (q : URLSearchParams) :
  ascii_query q = true ->
  flat_map (fun bytes =>
              match bytes with
              | EmptyString => []
              | _ => let (n, v) := name_value bytes in
                     [(UTF8_decode_without_BOM (percent_decode (plus_to_space n)),
                       UTF8_decode_without_BOM (percent_decode (plus_to_space v)))]
              end)
           (map tuple_text q) = q.
Proof.
  induction q as [ | t q IH]; [reflexivity | ].
  cbn [ascii_query forallb]. fold (ascii_query q). intros H.
  apply andb_true_iff in H. destruct H as [Ht Hq].
  apply andb_true_iff in Ht. destruct Ht as [Hn Hv].
  cbn [map flat_map]. rewrite (parse_tuple_text t Hn Hv), (IH Hq). reflexivity.
Qed.

(** Reading back what the serialiser wrote. *)
Lemma parse_toString (q : URLSearchParams) :
  ascii_query q = true ->
  new_URLSearchParams (location_search (URLSearchParams_toString q)) = q.
Proof.
  intros Hascii.
  destruct q as [ | t rest]; [reflexivity | ].
  rewrite toString_cons. unfold location_search.
  destruct (tuple_text t ++ more_text rest) eqn:E.
  - destruct (tuple_text t) eqn:Et; [apply tuple_text_not_empty in Et; contradiction | ].
    discriminate.
  - rewrite <- E. unfold new_URLSearchParams, urlencoded_parse.
    change (Ascii.eqb "?" "?") with true.
    rewrite split_more_text.
    apply (parse_texts (t :: rest)), Hascii.
Qed.

End Urlencoded.

(** * Reading the address *)

Section QueryFacts.

Local Open Scope string_scope.

Variable ToNumber : string -> number.

Lemma URLSearchParams_get_first (q : URLSearchParams) (key raw : string) :
  URLSearchParams_get q key = Some raw ->
  exists before after,
    q = (before ++ (key, raw) :: after)%list /\
    URLSearchParams_get before key = None.
Proof.
  induction q as [ | [k v] q IH]; [discriminate | ].
  cbn [URLSearchParams_get]. destruct (String.eqb_spec k key) as [-> | Hne].
  - intros [= ->]. exists [], q. split; reflexivity.
  - intros H. destruct (IH H) as (before & after & -> & Hb).
    exists ((k, v) :: before), after. split; [reflexivity | ].
    cbn [URLSearchParams_get]. apply String.eqb_neq in Hne. rewrite Hne.
    exact Hb.
Qed.

(** Property X7.  Whatever [Number] makes of text, [numberFromQuery]
    returns the fallback or a finite number, the fallback when the key is
    absent; a number other than the fallback is [Number] of the first
    value under the key, which is then not empty.  So the result is finite
    whenever the fallback is. *)
Theorem numberFromQuery_result (q : URLSearchParams) (key : string)
    (fallback : number) :
  (Number_isFinite fallback = true ->
   Number_isFinite (numberFromQuery ToNumber q key fallback) = true) /\
  (URLSearchParams_get q key = None ->
   numberFromQuery ToNumber q key fallback = fallback) /\
  (numberFromQuery ToNumber q key fallback = fallback \/
   exists before raw after,
     q = (before ++ (key, raw) :: after)%list /\
     URLSearchParams_get before key = None /\
     raw <> EmptyString /\
     numberFromQuery ToNumber q key fallback = ToNumber raw /\
     Number_isFinite (ToNumber raw) = true).
Proof.
  split; [apply numberFromQuery_finite | ].
  split; [unfold numberFromQuery; intros ->; reflexivity | ].
  unfold numberFromQuery.
  destruct (URLSearchParams_get q key) as [[ | c raw] | ] eqn:E;
    [left; reflexivity | | left; reflexivity].
  cbn zeta. destruct (Number_isFinite (ToNumber (String c raw))) eqn:Hf;
    [ | left; reflexivity].
  right. destruct (URLSearchParams_get_first q key _ E) as (before & after & Hq & Hb).
  exists before, (String c raw), after.
  repeat split; try assumption. discriminate.
Qed.

Lemma no_field_parameter_defaults (q : URLSearchParams) :
  no_field_parameter q = true ->
  initialState_aligned ToNumber q = defaults_aligned /\
  initialState_unrounded ToNumber q = defaults_unrounded.
Proof.
  unfold no_field_parameter, Object_entries, defaults_aligned.
  cbn [forallb fst]. rewrite !andb_true_iff.
  unfold initialState_aligned, initialState_unrounded, numberFromQuery.
  intros (H1 & H2 & H3 & H4 & H5 & H6 & H7 & _).
  repeat match goal with
         | H : match URLSearchParams_get q ?k with _ => _ end = true |- _ =>
             destruct (URLSearchParams_get q k); [discriminate H | clear H]
         end.
  split; reflexivity.
Qed.

(** Property X8.  For every query and whatever [Number] makes of text,
    both versions start from seven finite numbers, so that on the first
    render clientsNeeded is a finite whole number and monthsToGoal a whole
    number or an infinity; a query without a parameter named after a field
    gives the defaults. *)
Theorem initial_projection_defined (q : URLSearchParams) :
  finite_state (initialState_aligned ToNumber q) = true /\
  finite_state (initialState_unrounded ToNumber q) = true /\
  Number_isFinite (clientsNeeded
    (Aligned.computeProjection (initialState_aligned ToNumber q))) = true /\
  integral (clientsNeeded
    (Aligned.computeProjection (initialState_aligned ToNumber q))) = true /\
  whole_or_infinite (monthsToGoal
    (Aligned.computeProjection (initialState_aligned ToNumber q))) /\
  Number_isFinite (clientsNeeded
    (Unrounded.computeProjection (initialState_unrounded ToNumber q))) = true /\
  integral (clientsNeeded
    (Unrounded.computeProjection (initialState_unrounded ToNumber q))) = true /\
  whole_or_infinite (monthsToGoal
    (Unrounded.computeProjection (initialState_unrounded ToNumber q))) /\
  (no_field_parameter q = true ->
   initialState_aligned ToNumber q = defaults_aligned /\
   initialState_unrounded ToNumber q = defaults_unrounded).
Proof.
  destruct (initialState_finite ToNumber q) as (HA & HU & _).
  assert (Hengine : forall s, finite_state s = true ->
            Number_isFinite (Math_ceil (targetMonthlyRevenue s
                                        / Math_max [1; pricePerClient s])) = true /\
            integral (Math_ceil (targetMonthlyRevenue s
                                 / Math_max [1; pricePerClient s])) = true /\
            whole_or_infinite (monthsToGoal (Aligned.computeProjection s))).
  { intros s Hs.
    destruct (finite_state_fields s Hs) as (Ht & Hp & _).
    destruct (clientsNeeded_finite _ _ Ht Hp) as [Hf Hi].
    repeat split; try assumption.
    cbn [Aligned.computeProjection monthsToGoal].
    apply months_whole_or_infinite, Hf. }
  destruct (Hengine _ HA) as (A1 & A2 & A3).
  destruct (Hengine _ HU) as (U1 & U2 & U3).
  repeat split; try assumption.
  all: apply no_field_parameter_defaults; assumption.
Qed.

End QueryFacts.

Lemma initial_projection_defined_witness :
  no_field_parameter [("utm_source", "mail"); ("price", "9")]%string = true /\
  initialState_aligned StringToNumber [("utm_source", "mail"); ("price", "9")]%string
    = defaults_aligned.
Proof.
  split; [reflexivity | ].
  apply (initial_projection_defined StringToNumber
           [("utm_source", "mail"); ("price", "9")]%string).
  reflexivity.
Defined.

(** Property X9.  For names and values of ASCII text, the parameters read
    from the address are the parameters that were serialised into it: the
    parser undoes the serialiser, whatever bytes it had to encode. *)
Theorem serialised_query_is_read_back (q : URLSearchParams) :
  ascii_query q = true ->
  new_URLSearchParams (location_search (URLSearchParams_toString q)) = q.
Proof. apply parse_toString. Qed.

Lemma serialised_query_is_read_back_witness :
  ascii_query awkward_query = true /\
  URLSearchParams_toString awkward_query
    = "a+b=1e%2B21&=&x=100%25%26%3D%3F%23&x=again"%string /\
  new_URLSearchParams (location_search (URLSearchParams_toString awkward_query))
    = awkward_query.
Proof.
  split; [reflexivity | ]. split; [reflexivity | ].
  apply (serialised_query_is_read_back awkward_query). reflexivity.
Defined.

Section Reload.

Local Open Scope string_scope.

Variable ToNumber : string -> number.
Variable ToString : number -> string.

Lemma query_of_state_entries (s : CalculatorState) :
  query_of_state ToString s
    = map (fun kv => (fst kv, ToString (snd kv))) (Object_entries s).
Proof. reflexivity. Qed.

Lemma read_back_restores (v fallback : number) :
  Number_isFinite v = true -> ToString v <> EmptyString -> ToNumber (ToString v) = v ->
  read_back ToNumber ToString v fallback = v.
Proof.
  intros Hf Hne Hrt. unfold read_back, numberFromQuery. cbn.
  destruct (ToString v) as [ | c raw] eqn:E; [contradiction | ].
  cbn zeta. rewrite Hrt, Hf. reflexivity.
Qed.

Lemma initialState_of_entries (s : CalculatorState) :
  initialState_aligned ToNumber (query_of_state ToString s) =
    {| targetMonthlyRevenue := read_back ToNumber ToString (targetMonthlyRevenue s) 50000;
       pricePerClient := read_back ToNumber ToString (pricePerClient s) 500;
       videosPerMonth := read_back ToNumber ToString (videosPerMonth s) 12;
       avgViewsPerVideo := read_back ToNumber ToString (avgViewsPerVideo s) 1000;
       viewToBookingRatePct := read_back ToNumber ToString (viewToBookingRatePct s) 0.8;
       showRatePct := read_back ToNumber ToString (showRatePct s) 60;
       closeRatePct := read_back ToNumber ToString (closeRatePct s) 40 |} /\
  initialState_unrounded ToNumber (query_of_state ToString s) =
    {| targetMonthlyRevenue := read_back ToNumber ToString (targetMonthlyRevenue s) 50000;
       pricePerClient := read_back ToNumber ToString (pricePerClient s) 2000;
       videosPerMonth := read_back ToNumber ToString (videosPerMonth s) 12;
       avgViewsPerVideo := read_back ToNumber ToString (avgViewsPerVideo s) 1500;
       viewToBookingRatePct := read_back ToNumber ToString (viewToBookingRatePct s) 2;
       showRatePct := read_back ToNumber ToString (showRatePct s) 70;
       closeRatePct := read_back ToNumber ToString (closeRatePct s) 25 |}.
Proof. split; reflexivity. Qed.

(** Property X10.  When every field is written as ASCII text, the page
    loaded at the address it wrote for a state reads back the seven
    parameters it wrote, in the order of the fields, each as [String] of
    its value; every field of the initial state is then [Number] of that
    text, or the default of the field when the text is empty or does not
    denote a finite number.  When moreover every field is finite, is
    written as text that is not empty and is the number its text denotes,
    both versions start from the state that was written. *)
Theorem reload_reads_written_state (s : CalculatorState) :
  printable ToString s = true ->
  reloaded_query ToString s
    = map (fun kv => (fst kv, ToString (snd kv))) (Object_entries s) /\
  initialState_aligned ToNumber (reloaded_query ToString s) =
    {| targetMonthlyRevenue := read_back ToNumber ToString (targetMonthlyRevenue s) 50000;
       pricePerClient := read_back ToNumber ToString (pricePerClient s) 500;
       videosPerMonth := read_back ToNumber ToString (videosPerMonth s) 12;
       avgViewsPerVideo := read_back ToNumber ToString (avgViewsPerVideo s) 1000;
       viewToBookingRatePct := read_back ToNumber ToString (viewToBookingRatePct s) 0.8;
       showRatePct := read_back ToNumber ToString (showRatePct s) 60;
       closeRatePct := read_back ToNumber ToString (closeRatePct s) 40 |} /\
  initialState_unrounded ToNumber (reloaded_query ToString s) =
    {| targetMonthlyRevenue := read_back ToNumber ToString (targetMonthlyRevenue s) 50000;
       pricePerClient := read_back ToNumber ToString (pricePerClient s) 2000;
       videosPerMonth := read_back ToNumber ToString (videosPerMonth s) 12;
       avgViewsPerVideo := read_back ToNumber ToString (avgViewsPerVideo s) 1500;
       viewToBookingRatePct := read_back ToNumber ToString (viewToBookingRatePct s) 2;
       showRatePct := read_back ToNumber ToString (showRatePct s) 70;
       closeRatePct := read_back ToNumber ToString (closeRatePct s) 25 |} /\
  (restorable ToNumber ToString s ->
   initialState_aligned ToNumber (reloaded_query ToString s) = s /\
   initialState_unrounded ToNumber (reloaded_query ToString s) = s).
Proof.
  intros Hp.
  assert (Hascii : ascii_query (query_of_state ToString s) = true).
  { rewrite query_of_state_entries.
    unfold printable in Hp. unfold ascii_query. unfold Object_entries in *.
    cbn [forallb map fst snd] in *.
    rewrite !andb_true_iff in Hp. rewrite !andb_true_iff.
    repeat match goal with
           | H : _ /\ _ |- _ => destruct H
           end.
    repeat split; first [assumption | reflexivity]. }
  assert (Hq : reloaded_query ToString s = query_of_state ToString s)
    by apply parse_toString, Hascii.
  rewrite Hq. destruct (initialState_of_entries s) as [HA HU].
  split; [apply query_of_state_entries | ].
  split; [exact HA | ]. split; [exact HU | ].
  intros Hr. rewrite HA, HU. unfold restorable, Object_entries in Hr.
  repeat match goal with
         | H : Forall _ (_ :: _) |- _ => inversion H; subst; clear H
         end.
  cbn [snd] in *.
  repeat match goal with
         | H : _ /\ _ |- _ => destruct H
         end.
  rewrite !read_back_restores by assumption.
  destruct s; split; reflexivity.
Qed.

End Reload.

Lemma reload_reads_written_state_witness :
  printable Number_toString defaults_aligned = true /\
  URLSearchParams_toString (query_of_state Number_toString defaults_aligned)
    = "targetMonthlyRevenue=50000&pricePerClient=500&videosPerMonth=12&avgViewsPerVideo=1000&viewToBookingRatePct=0.8&showRatePct=60&closeRatePct=40"%string /\
  initialState_aligned StringToNumber (reloaded_query Number_toString defaults_aligned)
    = defaults_aligned /\
  initialState_unrounded StringToNumber (reloaded_query Number_toString defaults_aligned)
    = defaults_aligned.
Proof.
  split; [vm_compute; reflexivity | ]. split; [vm_compute; reflexivity | ].
  apply (reload_reads_written_state StringToNumber Number_toString defaults_aligned);
    [vm_compute; reflexivity | ].
  unfold restorable, Object_entries, defaults_aligned. cbn [snd].
  repeat constructor; try (vm_compute; discriminate); vm_compute; reflexivity.
Defined.

Section Blank.

Local Open Scope string_scope.

(** Property X11.  A parameter that is present and blank, that is, not
    empty but made of white space only, is read as the number 0 and not
    as the default of the field: only the empty text is caught before
    [Number] is applied. *)
Theorem blank_parameter_is_zero (q : URLSearchParams) (key raw : string)
    (fallback : number) :
  URLSearchParams_get q key = Some raw -> raw <> EmptyString -> trim raw = EmptyString ->
  numberFromQuery StringToNumber q key fallback = 0%float.
Proof.
  intros Hget Hne Hblank. unfold numberFromQuery. rewrite Hget.
  destruct raw as [ | c raw]; [contradiction | ].
  cbn zeta. unfold StringToNumber. rewrite Hblank. reflexivity.
Qed.

Lemma blank_parameter_is_zero_witness :
  new_URLSearchParams "?pricePerClient=+&showRatePct=" 
    = [("pricePerClient", " "); ("showRatePct", EmptyString)] /\
  numberFromQuery StringToNumber
    (new_URLSearchParams "?pricePerClient=+&showRatePct=") "pricePerClient" 500
    = 0%float /\
  numberFromQuery StringToNumber
    (new_URLSearchParams "?pricePerClient=+&showRatePct=") "showRatePct" 60
    = 60%float.
Proof.
  split; [vm_compute; reflexivity | ]. split; [ | vm_compute; reflexivity].
  apply (blank_parameter_is_zero
           (new_URLSearchParams "?pricePerClient=+&showRatePct=")
           "pricePerClient" " " 500).
  - vm_compute. reflexivity.
  - discriminate.
  - vm_compute. reflexivity.
Defined.

(** The sign of a zero does not survive the address: -0 is written as
    the text of +0. *)
Lemma reload_loses_sign_of_zero :
  Number_toString (-0) = "0" /\
  Prim2SF (targetMonthlyRevenue
    (initialState_aligned StringToNumber
       (reloaded_query Number_toString (with_goal (-0) 500))))
    = S754_zero false.
Proof. split; vm_compute; reflexivity. Qed.

End Blank.

(** * Editing the inputs *)

Section Edits.

Local Open Scope string_scope.

Lemma with_field_finite (s : CalculatorState) (k : keyof_CalculatorState)
    (v : number) :
  finite_state s = true -> Number_isFinite v = true ->
  finite_state (with_field s k v) = true.
Proof.
  intros Hs Hv.
  destruct (finite_state_fields s Hs) as (H1 & H2 & H3 & H4 & H5 & H6 & H7).
  unfold finite_state.
  destruct k; cbn [with_field targetMonthlyRevenue pricePerClient videosPerMonth
                   avgViewsPerVideo viewToBookingRatePct showRatePct closeRatePct];
    rewrite ?H1, ?H2, ?H3, ?H4, ?H5, ?H6, ?H7, ?Hv; reflexivity.
Qed.

Lemma commitIfValid_finite (ToNumber : string -> number) (v : string) (n : number) :
  AlignedPage.commitIfValid ToNumber v = Some n -> Number_isFinite n = true.
Proof.
  unfold AlignedPage.commitIfValid. destruct (String.eqb v EmptyString); [discriminate | ].
  cbn zeta. destruct (Number_isFinite (ToNumber v)) eqn:E; [ | discriminate].
  intros [= <-]. exact E.
Qed.

Lemma dispatch_finite (ToNumber : string -> number) (ToString : number -> string)
    (s : CalculatorState) (edit : Edit) :
  finite_state s = true -> slider_text_finite ToNumber edit = true ->
  finite_state (AlignedPage.dispatch ToNumber ToString s edit) = true.
Proof.
  intros Hs He. destruct edit as [b v | b text | r v]; cbn [AlignedPage.dispatch].
  - cbn [AlignedPage.handleChange snd].
    destruct (AlignedPage.commitIfValid ToNumber v) as [n | ] eqn:E; [ | exact Hs].
    apply with_field_finite; [exact Hs | ]. eapply commitIfValid_finite, E.
  - unfold AlignedPage.handleBlur. destruct (String.eqb text EmptyString).
    + cbn [snd]. apply with_field_finite; [exact Hs | ].
      destruct b; reflexivity.
    + cbn [snd].
      destruct (AlignedPage.commitIfValid ToNumber text) as [n | ] eqn:E; [ | exact Hs].
      apply with_field_finite; [exact Hs | ]. eapply commitIfValid_finite, E.
  - apply with_field_finite; [exact Hs | exact He].
Qed.

(** Property X12.  In the aligned page the state stays seven finite
    numbers through every sequence of edits, whatever is typed into the
    number boxes and whatever text they hold when they are left, provided
    each slider hands over the text of a finite number; this holds from
    every address the page is loaded at. *)
Theorem aligned_edits_keep_state_finite (ToNumber : string -> number)
    (ToString : number -> string) (edits : list Edit) :
  forallb (slider_text_finite ToNumber) edits = true ->
  (forall s : CalculatorState,
     finite_state s = true ->
     finite_state (fold_left (AlignedPage.dispatch ToNumber ToString) edits s)
       = true) /\
  (forall q : URLSearchParams,
     finite_state (fold_left (AlignedPage.dispatch ToNumber ToString) edits
                             (initialState_aligned ToNumber q)) = true).
Proof.
  intros He.
  assert (H : forall s, finite_state s = true ->
            finite_state (fold_left (AlignedPage.dispatch ToNumber ToString) edits s)
              = true).
  { induction edits as [ | edit rest IH]; intros s Hs; [exact Hs | ].
    cbn [forallb] in He. apply andb_true_iff in He. destruct He as [He Hrest].
    cbn [fold_left]. apply IH; [exact Hrest | ].
    apply dispatch_finite; assumption. }
  split; [exact H | ].
  intros q. apply H. apply (initialState_finite ToNumber q).
Qed.

Lemma aligned_edits_keep_state_finite_witness :
  forallb (slider_text_finite StringToNumber) clumsy_edits = true /\
  fold_left (AlignedPage.dispatch StringToNumber Number_toString) clumsy_edits
            defaults_aligned
    = {| targetMonthlyRevenue := 1000; pricePerClient := 250;
         videosPerMonth := 12; avgViewsPerVideo := 0;
         viewToBookingRatePct := 0.8; showRatePct := 60; closeRatePct := 35.5 |} /\
  finite_state (fold_left (AlignedPage.dispatch StringToNumber Number_toString)
                          clumsy_edits defaults_aligned) = true /\
  finite_state (fold_left (UnroundedPage.dispatch StringToNumber) clumsy_edits
                          defaults_unrounded) = false.
Proof.
  assert (Hsliders : forallb (slider_text_finite StringToNumber) clumsy_edits = true)
    by (vm_compute; reflexivity).
  destruct (aligned_edits_keep_state_finite StringToNumber Number_toString
              clumsy_edits Hsliders) as [Hfin _].
  split; [exact Hsliders | ]. split; [vm_compute; reflexivity | ].
  split; [exact (Hfin defaults_aligned eq_refl) | vm_compute; reflexivity].
Defined.

Lemma StringToNumber_empty : StringToNumber EmptyString = 0.
Proof. vm_compute. reflexivity. Qed.

(** Property X13.  An emptied number box is handled differently by the
    two versions.  In the aligned page, typing the empty text leaves the
    state as it is, and leaving the box empty stores the minimum of the
    box and writes it into the box.  In the other page the empty text is
    stored as [Number] of it, which is zero. *)
Theorem emptied_number_box (s : CalculatorState) (b : NumberBox) :
  (forall ToNumber ToString,
     AlignedPage.dispatch ToNumber ToString s (Typed b EmptyString) = s /\
     (exists m, box_min b = Some m /\
        AlignedPage.handleBlur ToNumber ToString (box_min b) EmptyString
          = (Some (ToString m), Some m) /\
        AlignedPage.dispatch ToNumber ToString s (Blurred b EmptyString)
          = with_field s (box_key b) m)) /\
  UnroundedPage.dispatch StringToNumber s (Typed b EmptyString) = with_field s (box_key b) 0 /\
  UnroundedPage.dispatch StringToNumber s (Blurred b EmptyString) = s.
Proof.
  split; [ | split; [ | reflexivity]].
  2:{ cbn [UnroundedPage.dispatch]. rewrite StringToNumber_empty. reflexivity. }
  intros ToNumber ToString. split; [reflexivity | ].
  destruct b; eexists; (split; [reflexivity | split; reflexivity]).
Qed.

End Edits.

(** * The fill of a slider *)

Section SliderFill.

Lemma Math_min_hundred (y : number) :
  Math_min [100; y] = if is_nan y then NaN else if y <? 100 then y else 100.
Proof.
  unfold Math_min. cbn [existsb fold_left].
  change (is_nan 100) with false. cbn [orb]. rewrite orb_false_r.
  destruct (is_nan y); [reflexivity | ].
  change (min_step infinity 100) with 100.
  unfold min_step. rewrite Prim2SF_100.
  destruct (Prim2SF y) as [[]|[]| |[] m e]; reflexivity.
Qed.

Lemma Math_max_zero (z : number) :
  Math_max [0; z] = if is_nan z then NaN else if 0 <? z then z else 0.
Proof.
  unfold Math_max. cbn [existsb fold_left].
  change (is_nan 0) with false. cbn [orb]. rewrite orb_false_r.
  destruct (is_nan z); [reflexivity | ].
  change (max_step neg_infinity 0) with 0.
  unfold max_step, gt. rewrite Prim2SF_0.
  destruct (Prim2SF z) as [[]|[]| |[] m e]; reflexivity.
Qed.

(** What the clamp returns: NaN for NaN, 0 for a share that is not above
    0, 100 for one that is not below 100, and the share otherwise. *)
Lemma clamp_cases (y : number) :
  Math_max [0; Math_min [100; y]] =
    if is_nan y then NaN
    else if y <? 100 then (if 0 <? y then y else 0) else 100.
Proof.
  rewrite Math_min_hundred, Math_max_zero.
  destruct (is_nan y) eqn:Hn; [reflexivity | ].
  destruct (y <? 100) eqn:Hy; [rewrite Hn; reflexivity | reflexivity].
Qed.

(** Property X14.  The filled share of a slider is NaN exactly when the
    quotient it is computed from is, and otherwise lies between 0 and 100,
    both included, whatever the value and the bounds are. *)
Theorem LabeledSlider_percent_clamped (value min max : number) :
  is_nan (LabeledSlider_percent value min max)
    = is_nan (((value - min) / (max - min)) * 100) /\
  (is_nan (LabeledSlider_percent value min max) = false ->
   (0 <=? LabeledSlider_percent value min max) = true /\
   (LabeledSlider_percent value min max <=? 100) = true).
Proof.
  unfold LabeledSlider_percent.
  set (y := ((value - min) / (max - min)) * 100).
  rewrite clamp_cases.
  destruct (is_nan y) eqn:Hn; [split; [reflexivity | discriminate] | ].
  destruct (y <? 100) eqn:Hhi; [ | split; [ | intros _; split]; reflexivity].
  destruct (0 <? y) eqn:Hlo; [ | split; [ | intros _; split]; reflexivity].
  split; [exact Hn | ]. intros _. split; apply ltb_leb; assumption.
Qed.

(** A finite number minus itself is +0. *)
Lemma sub_self (x : number) :
  Number_isFinite x = true -> Prim2SF (x - x) = S754_zero false.
Proof.
  rewrite isFinite_SF, sub_spec. unfold SF64sub.
  destruct (Prim2SF x) as [[] | s | | s m e]; try discriminate; intros _;
    try reflexivity.
  cbn [SFsub]. rewrite Z.sub_diag. reflexivity.
Qed.

Lemma new_location_zero (n : Z) : new_location n 0 = loc_Exact.
Proof.
  unfold new_location, new_location_even, new_location_odd.
  destruct (Z.even n); reflexivity.
Qed.

(** A finite number other than zero divided by itself is 1. *)
Lemma div_self (d : number) :
  Number_isFinite d = true -> (d =? 0) = false -> d / d = 1.
Proof.
  intros Hf Hz. apply Prim2SF_inj. rewrite div_spec. unfold SF64div.
  rewrite isFinite_SF in Hf.
  destruct (Prim2SF d) as [s0 | s0 | | s m e] eqn:Ed; try discriminate.
  - assert ((d =? 0) = true) by (apply eqb_zero_cases; eauto). congruence.
  - rewrite SFdiv_finite_eq.
    replace (Zpos (digits2_pos m) + e - (Zpos (digits2_pos m) + e))%Z with 0%Z
      by lia.
    rewrite Z.sub_diag.
    change (Z.min (fexp prec emax 0) 0) with (-53)%Z.
    change (0 - -53)%Z with 53%Z.
    rewrite (Z.mul_comm (Zpos m)), Z.div_mul, Z.mod_mul by lia.
    rewrite new_location_zero, xorb_nilpotent. reflexivity.
Qed.

(** Property X15.  A slider whose bounds are finite and apart is empty
    when the value is the lower bound and full when it is the upper one:
    the filled share is then 0 and 100. *)
Theorem LabeledSlider_percent_ends (min max : number) :
  Number_isFinite min = true ->
  Number_isFinite (max - min) = true ->
  (max - min =? 0) = false ->
  LabeledSlider_percent min min max = 0 /\
  LabeledSlider_percent max min max = 100.
Proof.
  intros Hmin Hd Hz. unfold LabeledSlider_percent. split.
  - assert (Hy : exists s, Prim2SF ((min - min) / (max - min) * 100) = S754_zero s).
    { rewrite mul_spec, div_spec, (sub_self _ Hmin), Prim2SF_100.
      unfold SF64mul, SF64div. rewrite isFinite_SF in Hd.
      destruct (Prim2SF (max - min)) as [s | s | | s m e] eqn:Ed; try discriminate.
      - assert ((max - min =? 0) = true) by (apply eqb_zero_cases; eauto).
        congruence.
      - cbn. eauto. }
    destruct Hy as [s Hy]. rewrite clamp_cases.
    unfold is_nan. rewrite eqb_spec, !ltb_spec, Hy, Prim2SF_100, Prim2SF_0.
    destruct s; reflexivity.
  - rewrite (div_self _ Hd Hz). reflexivity.
Qed.

Lemma LabeledSlider_percent_ends_witness :
  LabeledSlider_percent 0.5 0.5 2 = 0 /\
  LabeledSlider_percent 2 0.5 2 = 100 /\
  LabeledSlider_percent 0.1 0.1 5 = 0 /\
  LabeledSlider_percent 5 0.1 5 = 100 /\
  LabeledSlider_percent 0.8 0.5 2 = 20.000000000000004.
Proof.
  destruct (LabeledSlider_percent_ends 0.5 2 eq_refl eq_refl eq_refl) as [H1 H2].
  destruct (LabeledSlider_percent_ends 0.1 5 eq_refl eq_refl eq_refl) as [H3 H4].
  repeat split; assumption.
Defined.

End SliderFill.

(** * The route, and the form that reaches it *)

Section SubscribeSafety.

Import Route Client.
Local Open Scope string_scope.

(** Closes the cases in which the request is refused with status 400. *)
Ltac rejected :=
  left; split; [reflexivity | first [left; reflexivity | right; reflexivity]].

(** Every run of the handler, by the shape of the request. *)
Lemma handle_cases (w : World) :
  (email_is_nonempty_string w = false /\
   (handle w = (Returned (error_response 400 "Bad request"), []) \/
    handle w = (Returned (error_response 400 "Invalid email"), []))) \/
  (email_is_nonempty_string w = true /\ webhook_configured w = false /\
   handle w = (Returned (error_response 500 "Missing SUBSCRIBE_WEBHOOK_URL"), [])) \/
  (exists e u,
     email_of w = Some (JString e) /\ e <> EmptyString /\
     SUBSCRIBE_WEBHOOK_URL w = Some u /\ u <> EmptyString /\
     email_is_nonempty_string w = true /\ webhook_configured w = true /\
     handle w =
       (if fetch_resolves w (forward_call u e (payload_of w))
        then Returned ok_response
        else Returned (error_response 400 "Bad request"),
        [forward_call u e (payload_of w)])).
Proof.
  unfold email_is_nonempty_string, email_of, payload_of, webhook_configured,
    handle, POST, try_catch, bind.
  destruct (request_json w) as [[ | b | n | e | items | fields] | ]; cbn;
    try rejected.
  destruct (lookup "email" fields) as [[ | b | n | e | items | fields'] | ] eqn:El;
    cbn; try rejected.
  - destruct b; cbn; rejected.
  - rewrite orb_true_r. rejected.
  - destruct (String.eqb_spec e EmptyString) as [-> | Hne]; cbn; [rejected | ].
    right.
    destruct (SUBSCRIBE_WEBHOOK_URL w) as [[ | c u] | ] eqn:Eu; cbn;
      try (left; repeat split; reflexivity).
    right. exists e, (String c u).
    repeat split; try assumption; try discriminate.
    unfold fetch, forward_call, forwarded_body, source_tag, ret. cbn.
    destruct (fetch_resolves w _); reflexivity.
Qed.

(** Property X16.  The handler never throws: every request is answered,
    with status 200, 400 or 500, after at most one call to the webhook.
    The answer has status 200 only as the success response and only after
    exactly one call, a POST to the configured URL, that completed; a call
    is made only for a non-empty string email with the webhook
    configured. *)
Theorem POST_always_answers (w : World) :
  exists r log,
    handle w = (Returned r, log) /\
    (status r = 200 \/ status r = 400 \/ status r = 500)%Z /\
    (List.length log <= 1)%nat /\
    (status r = 200%Z <-> r = ok_response) /\
    (status r = 200%Z ->
     exists call,
       log = [call] /\ fetch_resolves w call = true /\
       fetch_method call = "POST" /\
       SUBSCRIBE_WEBHOOK_URL w = Some (fetch_url call)) /\
    (log <> [] ->
     email_is_nonempty_string w = true /\ webhook_configured w = true).
Proof.
  destruct (handle_cases w)
    as [[He [H | H]] | [(He & Hu & H) | (e & u & Hemail & Hne & Hurl & Hune & He & Hu & H)]].
  1-3: eexists; eexists; split; [exact H | ];
    cbn; repeat split; try lia; try discriminate; try congruence; auto.
  rewrite H. destruct (fetch_resolves w _) eqn:Ef.
  - exists ok_response, [forward_call u e (payload_of w)].
    split; [reflexivity | ]. cbn. repeat split; try lia; auto.
    intros _. eexists. repeat split; [exact Ef | exact Hurl].
  - eexists; eexists; split; [reflexivity | ].
    cbn. repeat split; try lia; try discriminate; auto.
Qed.

(** Property X17.  The error answers.  A body that is not JSON, or is
    null, is answered 400 "Bad request"; any other body without a
    non-empty string email is answered 400 "Invalid email"; a good email
    without a configured webhook is answered 500 "Missing
    SUBSCRIBE_WEBHOOK_URL"; none of these makes a call.  "Bad request" is
    also the answer when the one call to the webhook fails. *)
Theorem POST_error_answers (w : World) :
  (request_json w = None \/ request_json w = Some JNull ->
   handle w = (Returned (error_response 400 "Bad request"), [])) /\
  (forall v, request_json w = Some v -> v <> JNull ->
   email_is_nonempty_string w = false ->
   handle w = (Returned (error_response 400 "Invalid email"), [])) /\
  (email_is_nonempty_string w = true -> webhook_configured w = false ->
   handle w = (Returned (error_response 500 "Missing SUBSCRIBE_WEBHOOK_URL"), [])) /\
  (forall e u,
     email_of w = Some (JString e) -> e <> EmptyString ->
     SUBSCRIBE_WEBHOOK_URL w = Some u -> u <> EmptyString ->
     fetch_resolves w (forward_call u e (payload_of w)) = false ->
     handle w = (Returned (error_response 400 "Bad request"),
                 [forward_call u e (payload_of w)])).
Proof.
  split; [ | split; [ | split]].
  - unfold handle, POST, try_catch, bind.
    intros [-> | ->]; reflexivity.
  - intros v Hv Hnull.
    unfold email_is_nonempty_string, email_of, handle, POST, try_catch, bind.
    rewrite Hv.
    destruct v as [ | b | n | e | items | fields]; cbn;
      [contradiction | try reflexivity ..].
    destruct (lookup "email" fields) as [[ | b | n | e | items | fields'] | ];
      cbn; try reflexivity.
    + destruct b; reflexivity.
    + rewrite orb_true_r. reflexivity.
    + destruct (String.eqb e EmptyString); cbn; [reflexivity | discriminate].
  - intros He Hu.
    destruct (handle_cases w)
      as [[He' _] | [(_ & _ & H) | (e & u & _ & _ & _ & _ & _ & Hu' & _)]];
      [congruence | exact H | congruence].
  - intros e u Hemail Hne Hurl Hune Hf.
    destruct (handle_cases w)
      as [[He' _] | [(_ & Hu' & _) | (e' & u' & Hemail' & _ & Hurl' & _ & _ & _ & H)]].
    + unfold email_is_nonempty_string in He'. rewrite Hemail in He'.
      apply String.eqb_neq in Hne. rewrite Hne in He'. discriminate.
    + unfold webhook_configured in Hu'. rewrite Hurl in Hu'.
      destruct u; [contradiction | discriminate].
    + rewrite Hemail in Hemail'. rewrite Hurl in Hurl'.
      injection Hemail' as <-. injection Hurl' as <-.
      rewrite H, Hf. reflexivity.
Qed.

Lemma POST_error_answers_witness :
  handle {| request_json := Some JNull; SUBSCRIBE_WEBHOOK_URL := None;
            fetch_resolves := fun _ => true |}
    = (Returned (error_response 400 "Bad request"), []) /\
  handle {| request_json := Some (JNumber 5); SUBSCRIBE_WEBHOOK_URL := None;
            fetch_resolves := fun _ => true |}
    = (Returned (error_response 400 "Invalid email"), []) /\
  handle (subscription (Some "https://hooks.example/subscribe") false)
    = (Returned (error_response 400 "Bad request"),
       [forward_call "https://hooks.example/subscribe" "ada@example.org"
          (Some (JObject [("pricePerClient", JNumber 500)]))]).
Proof.
  split; [ | split].
  - apply (POST_error_answers {| request_json := Some JNull;
                                 SUBSCRIBE_WEBHOOK_URL := None;
                                 fetch_resolves := fun _ => true |}).
    right. reflexivity.
  - apply (POST_error_answers {| request_json := Some (JNumber 5);
                                 SUBSCRIBE_WEBHOOK_URL := None;
                                 fetch_resolves := fun _ => true |})
      with (v := JNumber 5); [reflexivity | discriminate | reflexivity].
  - apply (POST_error_answers
             (subscription (Some "https://hooks.example/subscribe") false));
      [reflexivity | discriminate | reflexivity | discriminate | reflexivity].
Defined.

(** Property X18.  [EmailCapture] and the route together.  The request
    that the form sends carries the email and nothing else, so whatever is
    forwarded to the webhook has a null payload; the route answers it in
    every case, and the form thanks the visitor for every answer, also for
    the ones of status 400 and 500. *)
Theorem EmailCapture_is_always_thanked (email : string) (url : option string)
    (resolves : FetchCall -> bool) :
  exists r log,
    handle (reached email url resolves) = (Returned r, log) /\
    submit (Some r) = "Thanks! Check your inbox." /\
    (email = EmptyString -> r = error_response 400 "Invalid email" /\ log = []) /\
    (email <> EmptyString -> webhook_configured (reached email url resolves) = false ->
     r = error_response 500 "Missing SUBSCRIBE_WEBHOOK_URL" /\ log = []) /\
    (forall u, email <> EmptyString -> url = Some u -> u <> EmptyString ->
     log = [{| fetch_url := u;
               fetch_method := "POST";
               fetch_headers := [("Content-Type", "application/json")];
               fetch_body :=
                 JSON_stringify
                   (JObject [("email", JString email);
                             ("payload", JNull);
                             ("source", JString "prjct-zenith-calculator")]) |}] /\
     (resolves (forward_call u email None) = true -> r = ok_response) /\
     (resolves (forward_call u email None) = false ->
      r = error_response 400 "Bad request")).
Proof.
  destruct (String.eqb_spec email EmptyString) as [-> | Hne].
  - eexists; eexists; split; [reflexivity | ].
    repeat split; try contradiction; try reflexivity.
    all: intros; contradiction.
  - set (w := reached email url resolves).
    assert (Hgood : email_is_nonempty_string w = true).
    { unfold email_is_nonempty_string. cbn.
      apply String.eqb_neq in Hne. rewrite Hne. reflexivity. }
    destruct (handle_cases w)
      as [[He _] | [(_ & Hu & H) | (e & u & Hemail & _ & Hurl & Hune & _ & Hu & H)]];
      [congruence | | ].
    + eexists; eexists; split; [exact H | ].
      split; [reflexivity | ]. split; [intros; contradiction | ].
      split; [intros; split; reflexivity | ].
      intros u _ -> Hune. unfold webhook_configured in Hu. cbn in Hu.
      destruct u; [contradiction | discriminate].
    + cbn in Hemail, Hurl. injection Hemail as <-. subst url.
      assert (Hp : payload_of w = None) by reflexivity.
      rewrite Hp in H. change (fetch_resolves w) with resolves in H.
      destruct (resolves (forward_call u email None)) eqn:Ef;
        (eexists; eexists; split; [exact H | ]);
        (split; [reflexivity | ]); (split; [intros; contradiction | ]);
        (split; [intros _ Hu'; congruence | ]);
        intros u' _ [= <-] _; (split; [reflexivity | ]);
        split; intros E; first [reflexivity | congruence].
Qed.

End SubscribeSafety.
